(** * Launch-video breakdown: the overlay encoder

    A shallow embedding of [src/lib/mediabunny-encoder.ts] (the frame loop of
    [encodeVideoWithOverlay], the transition tracker, the two overlay
    renderers) and of the per-tick computation of the live preview
    ([TimelineDots]), with the properties the specification states about
    them; then of the code around them: the dot row and the pill layout of
    the renderers, the preview components, the analysis route
    ([src/app/api/analyze/route.ts]), the upload form ([VideoUploader]) and
    the download handler of the preview page, with further properties read
    off the code.

    Numbers.  A JavaScript [number] is modelled by a rational [Q], the value
    of the double: [Math.ceil], [Math.floor], [Math.round], [Math.min] and
    [Math.max] are the exact functions.  The product [duration * fps], whose
    ceiling is the number of frames, is rounded to the nearest double as the
    machine rounds it ([JS.mul]); the other operations are computed exactly,
    the infinities are left out, and [NaN] appears only where the code
    divides 0 by 0 (the dot count on a canvas of width 0).  Every other
    division whose value the theorems rely on has a non-zero divisor.  Array
    indices, which JavaScript reports as [-1] for "none", are integers
    [Z]. *)

From Stdlib Require Import QArith Qround Qpower ZArith List String Bool Lia Lqa.
From Stdlib Require Import DecimalString Permutation.
From Equations Require Import Equations.
Import ListNotations.

Local Open Scope Q_scope.

(** An integer used where a number is expected. *)
Coercion inject_Z : Z >-> Q.

(** ** JavaScript numbers and arrays *)

Module JS.

(** [a < b] on numbers; [a >= b] is [Qle_bool b a]. *)
Definition ltb (a b : Q) : bool := negb (Qle_bool b a).

Definition ceil (x : Q) : Z := Qceiling x.
Definition floor (x : Q) : Z := Qfloor x.

(** [Math.round] rounds to the nearest integer, halves towards +infinity. *)
Definition round (x : Q) : Z := Qfloor (x + (1 # 2)).

Definition min (a b : Q) : Q := if Qle_bool a b then a else b.
Definition max (a b : Q) : Q := if Qle_bool a b then b else a.

(** The binary exponent of a positive number: the [k] with
    [2^k <= x < 2^(k+1)]. *)
Definition exponent (x : Q) : Z :=
  let k := (Z.log2 (Qnum x) - Z.log2 (Zpos (Qden x)))%Z in
  if Qle_bool (2 ^ k) x then k else (k - 1)%Z.

(** The nearest integer, a tie going to the even one. *)
Definition roundEven (x : Q) : Z :=
  let f := Qfloor x in
  if ltb x (f + (1 # 2)) then f
  else if ltb (f + (1 # 2)) x then (f + 1)%Z
  else if Z.even f then f else (f + 1)%Z.

(** The double nearest to a positive number: a significand of 53 bits,
    rounded to nearest, ties to even.  The exponent is not bounded: numbers
    beyond the largest double and below the smallest normal one are outside
    what is modelled. *)
Definition nearest (x : Q) : Q :=
  let e := (exponent x - 52)%Z in
  roundEven (x / 2 ^ e) * 2 ^ e.

Definition toDouble (x : Q) : Q :=
  if ltb 0 x then nearest x
  else if ltb x 0 then - nearest (- x)
  else 0.

(** [a * b] as the machine computes it: the exact product of the two
    doubles, rounded to the nearest double. *)
Definition mul (a b : Q) : Q := toDouble (a * b).

(** [Array.prototype.findIndex]: the first index whose element satisfies
    [p], or [-1]. *)
Fixpoint findIndexFrom {A : Type} (p : A -> bool) (l : list A) (i : Z) : Z :=
  match l with
  | [] => (-1)%Z
  | x :: rest => if p x then i else findIndexFrom p rest (i + 1)%Z
  end.

Definition findIndex {A : Type} (p : A -> bool) (l : list A) : Z :=
  findIndexFrom p l 0%Z.

(** [l[i]]: [None] stands for [undefined]. *)
Definition get {A : Type} (l : list A) (i : Z) : option A :=
  if (i <? 0)%Z then None else nth_error l (Z.to_nat i).

Definition length {A : Type} (l : list A) : Z := Z.of_nat (List.length l).

End JS.

(** ** Data model ([src/types/index.ts]) *)

Record Section : Type := mkSection {
  name : string;
  startTime : Q;
  endTime : Q;
  confidence : option Q
}.

Definition section (n : string) (s e : Q) : Section := mkSection n s e None.

(** The predicate both the encoder and the preview give to [findIndex]:
    [t >= s.startTime && t < s.endTime]. *)
Definition contains (t : Q) (s : Section) : bool :=
  Qle_bool (startTime s) t && JS.ltb t (endTime s).

(** ** Section resolution

    [encodeVideoWithOverlay], "Find active section"; the same statements are
    in the [tick] of [TimelineDots] and of [TimelineColoredPills]. *)

Definition findActiveSection (sections : list Section) (currentTime : Q) : Z :=
  let activeIdx := JS.findIndex (contains currentTime) sections in
  if (activeIdx =? -1)%Z && (0 <? JS.length sections)%Z then
    match JS.get sections (JS.length sections - 1) with
    | Some lastSection =>
        if Qle_bool (startTime lastSection) currentTime
        then (JS.length sections - 1)%Z
        else activeIdx
    | None => activeIdx
    end
  else activeIdx.

(** ** Well-formed section lists *)

(** Every section ends after it starts. *)
Definition positive_length (sections : list Section) : Prop :=
  Forall (fun s => startTime s < endTime s) sections.

(** Ascending [startTime]. *)
Fixpoint ordered (sections : list Section) : Prop :=
  match sections with
  | a :: (b :: _) as rest => startTime a <= startTime b /\ ordered rest
  | _ => True
  end.

(** No section reaches into the next one. *)
Fixpoint non_overlapping (sections : list Section) : Prop :=
  match sections with
  | a :: (b :: _) as rest => endTime a <= startTime b /\ non_overlapping rest
  | _ => True
  end.

(** [t] lies in [[startTime, endTime)]. *)
Definition within (t : Q) (s : Section) : Prop :=
  startTime s <= t /\ t < endTime s.

(** ** Completions: a call returns or throws *)

Inductive Completion (A : Type) : Type :=
| Returned (a : A)
| Thrown (msg : string).

Arguments Returned {A} a.
Arguments Thrown {A} msg.

Definition andThen {A B : Type} (c : Completion A) (k : A -> Completion B)
  : Completion B :=
  match c with
  | Returned a => k a
  | Thrown msg => Thrown msg
  end.

Notation "x <- c ;;; k" := (andThen c (fun x => k))
  (at level 61, c at next level, right associativity).

(** [l[i].field] throws a [TypeError] when [l[i]] is [undefined]. *)
Definition member {A : Type} (l : list A) (i : Z) : Completion A :=
  match JS.get l i with
  | Some a => Returned a
  | None => Thrown "TypeError: cannot read properties of undefined"
  end.

(** ** Animation helpers *)

Definition easeOut (t : Q) : Q := 1 - (1 - t) * (1 - t).

Definition lerp (a b t : Q) : Q := a + (b - a) * t.

(** [lerpColor] builds the string [rgb(r, g, b)]; the three channels are
    kept as integers. *)
Definition RGB : Type := (Z * Z * Z)%type.

Definition lerpColor (r1 g1 b1 r2 g2 b2 t : Q) : RGB :=
  (JS.round (lerp r1 r2 t), JS.round (lerp g1 g2 t), JS.round (lerp b1 b2 t)).

Module Transition.

Record State : Type := mkState {
  activeIdx : Z;
  leavingIdx : Z;
  transitionT : Q  (* 0 = just started, 1 = done *)
}.

End Transition.

(** The animated state [t] of the pill at [index] (0 = fully inactive,
    1 = fully active), as both renderers determine it inside their
    [forEach]. *)
Definition pillT (transition : Transition.State) (easedT : Q) (index : Z) : Q :=
  if (index =? Transition.activeIdx transition)%Z then
    if (0 <=? Transition.leavingIdx transition)%Z then easedT else 1
  else if (index =? Transition.leavingIdx transition)%Z then 1 - easedT
  else 0.

(** [Math.min((currentTime - s.startTime) / (s.endTime - s.startTime), 1)]. *)
Definition sectionProg (s : Section) (currentTime : Q) : Q :=
  JS.min ((currentTime - startTime s) / (endTime s - startTime s)) 1.

(** [array.map((x, index) => ...)] and [forEach] with the index. *)
Fixpoint mapiFrom {A B : Type} (f : A -> Z -> B) (l : list A) (i : Z) : list B :=
  match l with
  | [] => []
  | x :: rest => f x i :: mapiFrom f rest (i + 1)%Z
  end.

Definition mapi {A B : Type} (f : A -> Z -> B) (l : list A) : list B :=
  mapiFrom f l 0%Z.

(** [ctx.measureText(text).width] under the font [weight size px ...]. *)
Definition TextMeasure : Type := Z -> Q -> string -> Q.

(** ** The "dots" renderer: [drawTimelineOverlay]

    The values the function computes up to the badge; the canvas calls that
    paint them, the stem and the dot row take these values and add nothing
    the properties below depend on. *)

Module Dots.

Record PillInfo : Type := mkPill {
  width : Q;
  height : Q;
  fontSize : Q;
  fontWeight : Z;
  centerX : Q;
  bgColor : RGB;
  textColor : RGB;
  hasShadow : bool;
  hasBorder : bool;
  shadowAlpha : Q
}.

Record Overlay : Type := mkOverlay {
  pct : Q;
  sectionProgress : Q;
  pills : list PillInfo;
  totalWidth : Q;
  badgeX : Q;
  percent : Z   (* the number printed in the badge, before the % sign *)
}.

(** "Compute positions": the loop that fills in [centerX]. *)
Fixpoint placePills (pillGap : Z) (posX : Q) (ps : list PillInfo) : list PillInfo :=
  match ps with
  | [] => []
  | p :: rest =>
      mkPill (width p) (height p) (fontSize p) (fontWeight p)
             (posX + width p / 2)
             (bgColor p) (textColor p) (hasShadow p) (hasBorder p) (shadowAlpha p)
      :: placePills pillGap (posX + width p + pillGap) rest
  end.

Section Renderer.

Variable measureText : TextMeasure.

(** The body of the first [sections.forEach]: one pill, not yet placed. *)
Definition measurePill (S : Q) (transition : Transition.State) (easedT : Q)
    (sectionProgress : Q) (section : Section) (index : Z) : PillInfo :=
  let activeFontSize := JS.round (15 * S) in
  let inactiveFontSize := JS.round (13 * S) in
  let activePadX := JS.round (28 * S) in
  let inactivePadX := JS.round (16 * S) in
  let activePH := JS.round (38 * S) in
  let inactivePH := JS.round (30 * S) in
  let t := pillT transition easedT index in
  let fontSize := lerp inactiveFontSize activeFontSize t in
  let fontWeight := if JS.ltb (1 # 2) t then 600%Z else 400%Z in
  let textWidth := measureText fontWeight fontSize (name section) in
  let padX := lerp inactivePadX activePadX t in
  let ph := lerp inactivePH activePH t in
  let pw := textWidth + padX * 2 in
  let r := JS.round (lerp 253 249 sectionProgress) in
  let g := JS.round (lerp 186 115 sectionProgress) in
  let b := JS.round (lerp 140 22 sectionProgress) in
  let bgColor := if JS.ltb (1 # 100) t
                 then lerpColor 228 228 231 r g b t
                 else (228, 228, 231)%Z in
  let textColor := if JS.ltb (1 # 100) t
                   then lerpColor 161 161 170 255 255 255 t
                   else (161, 161, 170)%Z in
  mkPill pw ph fontSize fontWeight 0 bgColor textColor
         (JS.ltb (3 # 10) t) (JS.ltb t (1 # 2)) (t * (25 # 100)).

Definition drawTimelineOverlay (sections : list Section)
    (currentTime duration canvasWidth canvasHeight : Q)
    (transition : Transition.State) : Completion (option Overlay) :=
  let numSections := JS.length sections in
  if (numSections =? 0)%Z then Returned None else
  let activeIdx := Transition.activeIdx transition in
  let easedT := easeOut (Transition.transitionT transition) in
  let S := canvasWidth / 1280 in
  (* Section-based progress *)
  pct <-
    (if (0 <=? activeIdx)%Z then
       s <- member sections activeIdx ;;;
       Returned ((activeIdx + sectionProg s currentTime) / numSections)
     else
       lastSection <- member sections (numSections - 1) ;;;
       Returned (if Qle_bool (endTime lastSection) currentTime then 1 else 0)) ;;;
  (* Section progress for the peach-to-orange colour *)
  sectionProgress <-
    (if (0 <=? activeIdx)%Z then
       s <- member sections activeIdx ;;;
       Returned (sectionProg s currentTime)
     else Returned 0) ;;;
  let pillGap := JS.round (10 * S) in
  let measured := mapi (measurePill S transition easedT sectionProgress) sections in
  let totalWidth :=
    fold_left (fun acc p => acc + width p) measured 0
    + pillGap * (numSections - 1)%Z in
  let pills := placePills pillGap ((canvasWidth - totalWidth) / 2) measured in
  firstPill <- member pills 0 ;;;
  lastPill <- member pills (numSections - 1) ;;;
  let firstPillCenter := centerX firstPill in
  let lastPillCenter := centerX lastPill in
  let pillsRange := JS.max (lastPillCenter - firstPillCenter) 1 in
  let badgeX := firstPillCenter + pct * pillsRange in
  Returned (Some (mkOverlay pct sectionProgress pills totalWidth badgeX
                            (JS.floor (pct * 100)))).

End Renderer.

End Dots.

(** ** The "pills" renderer: [drawColoredPillsOverlay] *)

Module Pills.

Record Color : Type := mkColor {
  r : Z; g : Z; b : Z;
  glowR : Z; glowG : Z; glowB : Z
}.

Definition PILL_COLORS_CANVAS : list Color :=
  [ mkColor 245 158 11 245 158 11    (* orange *)
  ; mkColor 124 58 237 124 58 237    (* purple *)
  ; mkColor 192 38 211 192 38 211    (* magenta *)
  ; mkColor 124 58 237 124 58 237    (* purple *)
  ; mkColor 245 158 11 245 158 11 ]. (* orange *)

Record ColoredPillInfo : Type := mkPill {
  width : Z;
  x : Q;
  centerX : Q;
  sectionDuration : Q;
  color : Color
}.

(** What the last [forEach] paints for one pill. *)
Record Painted : Type := mkPainted {
  t : Q;
  isActive : bool;
  isPast : bool;
  isFuture : bool;
  pillW : Q;
  pillH : Q;
  px : Q;
  alpha : Q;
  fill : RGB;
  label : Z   (* the N of "(N sec)" *)
}.

Record Overlay : Type := mkOverlay {
  totalDuration : Q;
  availableWidth : Z;
  minWidths : list Q;
  extraSpace : Q;
  pillWidths : list Z;
  actualTotalWidth : Z;
  pills : list ColoredPillInfo;
  painted : list Painted
}.

(** [sections.reduce((sum, s) => sum + (s.endTime - s.startTime), 0)]. *)
Definition sumDurations (sections : list Section) : Q :=
  fold_left (fun sum s => sum + (endTime s - startTime s)) sections 0.

(** The [sections.map] that distributes the remaining space: [index] runs
    along [minWidths]. *)
Definition pillWidth (totalDuration extraSpace : Q) (section : Section) (minW : Q) : Z :=
  let secDur := endTime section - startTime section in
  let extraShare := if JS.ltb 0 totalDuration
                    then (secDur / totalDuration) * extraSpace
                    else 0 in
  JS.round (minW + extraShare).

(** The [forEach] that pushes the pills, [startX] advancing by
    [pw + pillGap]. *)
Fixpoint layoutPills (pillGap : Z) (startX : Q) (index : Z)
    (items : list (Section * Z)) : Completion (list ColoredPillInfo) :=
  match items with
  | [] => Returned []
  | (section, pw) :: rest =>
      color <- member PILL_COLORS_CANVAS
                 (Z.rem index (JS.length PILL_COLORS_CANVAS)) ;;;
      others <- layoutPills pillGap (startX + pw + pillGap) (index + 1)%Z rest ;;;
      Returned (mkPill pw startX (startX + pw / 2)
                       (endTime section - startTime section) color :: others)
  end.

Definition paintPill (transition : Transition.State) (easedT : Q) (pillHeight : Z)
    (pill : ColoredPillInfo) (index : Z) : Painted :=
  let activeIdx := Transition.activeIdx transition in
  let t := pillT transition easedT index in
  let isActive := JS.ltb (1 # 2) t in
  let isPast := (index <? activeIdx)%Z && (0 <=? activeIdx)%Z in
  let isFuture := (0 <=? activeIdx)%Z && negb isActive && negb isPast in
  let scale := lerp 1 (104 # 100) t in
  let pillW := width pill * scale in
  let pillH := pillHeight * scale in
  let brightnessBoost := lerp 0 20 t in
  let c := color pill in
  mkPainted t isActive isPast isFuture pillW pillH
            (centerX pill - pillW / 2)
            (if isFuture then 55 # 100 else 1)
            (JS.round (JS.min 255 (r c + brightnessBoost)),
             JS.round (JS.min 255 (g c + brightnessBoost)),
             JS.round (JS.min 255 (b c + brightnessBoost)))
            (JS.round (sectionDuration pill)).

Section Renderer.

Variable measureText : TextMeasure.

Definition drawColoredPillsOverlay (sections : list Section)
    (currentTime duration canvasWidth canvasHeight : Q)
    (transition : Transition.State) : Completion (option Overlay) :=
  let numSections := JS.length sections in
  if (numSections =? 0)%Z then Returned None else
  let easedT := easeOut (Transition.transitionT transition) in
  let S := canvasWidth / 1280 in
  let totalDuration := sumDurations sections in
  let pillGap := JS.round (10 * S) in
  let maxPillsWidth := JS.round (620 * S) in
  let availableWidth := (maxPillsWidth - pillGap * (numSections - 1))%Z in
  let pillHeight := JS.round (52 * S) in
  let fontSize := JS.round (14 * S) in
  let padX := JS.round (24 * S) in
  (* First pass: minimum widths from the text *)
  let minWidths :=
    map (fun section => measureText 600%Z fontSize (name section) + padX * 2)
        sections in
  let totalMinWidth := fold_left Qplus minWidths 0 in
  (* Distribute the remaining space proportionally by duration *)
  let extraSpace := JS.max 0 (availableWidth - totalMinWidth) in
  let pillWidths :=
    map (fun sm => pillWidth totalDuration extraSpace (fst sm) (snd sm))
        (combine sections minWidths) in
  let actualTotalWidth :=
    (fold_left Z.add pillWidths 0 + pillGap * (numSections - 1))%Z in
  pills <- layoutPills pillGap ((canvasWidth - actualTotalWidth) / 2) 0
             (combine sections pillWidths) ;;;
  Returned (Some (mkOverlay totalDuration availableWidth minWidths extraSpace
                            pillWidths actualTotalWidth pills
                            (mapi (paintPill transition easedT pillHeight) pills))).

End Renderer.

End Pills.

(** ** The live preview: one [tick] of [TimelineDots]

    The section detection is [findActiveSection]; this is the position the
    tick computes from it. *)

Module TimelineDots.

Definition tickPct (sections : list Section) (duration t : Q) : Completion Q :=
  let numSections := JS.length sections in
  let idx := findActiveSection sections t in
  if (numSections =? 0)%Z then
    Returned (if JS.ltb 0 duration then JS.min (t / duration) 1 else 0)
  else if (0 <=? idx)%Z then
    s <- member sections idx ;;;
    Returned ((idx + sectionProg s t) / numSections)
  else Returned 0.

End TimelineDots.

(** ** The encoder: [encodeVideoWithOverlay] *)

Module Encoder.

Inductive TimelineVariant : Type := dots | pills.

(** What the encoder does to its collaborators (the video element, the
    canvas, the console, the muxer and the caller's callback), in the order
    it does it. *)
Inductive Event : Type :=
| AddVideoTrack (frameRate : Z)
| AddAudioTrack
| Start
| AudioAdd
| AudioClose
| Warn (msg : string)
| Seek (currentTime : Q)
| DrawFrame
| DrawOverlay (variant : TimelineVariant) (currentTime : Q)
              (transition : Transition.State)
| VideoAdd (timestamp duration : Q)
| Progress (value : Q)
| VideoClose
| Finalize.

(** The steps inside the [try] of "Add audio track" that talk to the
    browser or to the audio source, in order. *)
Inductive AudioStep : Type :=
| FetchSource      (* fetch(videoUrl) and arrayBuffer() *)
| DecodeAudio      (* new AudioContext() and decodeAudioData *)
| AttachTrack      (* new AudioBufferSource and output.addAudioTrack *)
| AddBuffer        (* audioSource.add(audioBuffer) *)
| CloseAudio.      (* audioSource.close() and audioContext.close() *)

Definition sameStep (a b : AudioStep) : bool :=
  match a, b with
  | FetchSource, FetchSource | DecodeAudio, DecodeAudio
  | AttachTrack, AttachTrack | AddBuffer, AddBuffer
  | CloseAudio, CloseAudio => true
  | _, _ => false
  end.

(** What the environment decides.  The runs described are those in which
    the video element, once it has loaded, becomes playable (the wait for
    [canplay] has no timeout: otherwise the call never settles) and in which
    the muxer accepts the first [output.start()], every [videoSource.add]
    and [output.finalize()]; runs that hang or that the muxer ends are not
    among them, and nothing is claimed about them.  Whether the muxer
    accepts [output.start()] on an output that was started already is its
    own affair ([secondStart]). *)
Record Env : Type := mkEnv {
  videoLoads : bool;                 (* onloadedmetadata rather than onerror *)
  videoWidth : Q;
  videoHeight : Q;
  measureText : TextMeasure;
  audioFailure : option AudioStep;   (* the step that throws, if any *)
  secondStart : bool;                (* a second output.start() resolves *)
  hasBuffer : bool                   (* output.target.buffer is set *)
}.

(** The Blob: the container type and what the muxer was given. *)
Record Blob : Type := mkBlob {
  mimeType : string;
  audioTrack : bool;
  samples : list (Q * Q)   (* timestamp and duration of each video frame *)
}.

(** A computation that logs events and returns or throws. *)
Definition M (A : Type) : Type := list Event -> list Event * Completion A.

Definition ret {A : Type} (a : A) : M A := fun log => (log, Returned a).

Definition bind {A B : Type} (m : M A) (k : A -> M B) : M B :=
  fun log =>
    match m log with
    | (log', Returned a) => k a log'
    | (log', Thrown msg) => (log', Thrown msg)
    end.

Definition emit (e : Event) : M unit := fun log => (log ++ [e], Returned tt).

Definition throw {A : Type} (msg : string) : M A := fun log => (log, Thrown msg).

Definition lift {A : Type} (c : Completion A) : M A := fun log => (log, c).

(** [try { m } catch (err) { handler }]. *)
Definition tryCatch {A : Type} (m : M A) (handler : string -> M A) : M A :=
  fun log =>
    match m log with
    | (log', Thrown err) => handler err log'
    | outcome => outcome
    end.

Notation "x <- m ;; k" := (bind m (fun x => k))
  (at level 61, m at next level, right associativity).
Notation "m ;; k" := (bind m (fun _ => k))
  (at level 61, right associativity).

Definition fps : Z := 30.

Definition TRANSITION_DURATION : Q := 3 # 10.   (* seconds *)

(** The three [let]s that carry the transition from frame to frame. *)
Record Tracker : Type := mkTracker {
  prevActiveIdx : Z;
  leavingIdx : Z;
  transitionStartTime : Q
}.

Definition initialTracker : Tracker := mkTracker (-1) (-1) (-1).

(** "Track transitions". *)
Definition trackTransition (tk : Tracker) (activeIdx : Z) (currentTime : Q) : Tracker :=
  if negb (activeIdx =? prevActiveIdx tk)%Z
  then mkTracker activeIdx (prevActiveIdx tk) currentTime
  else tk.

Definition transitionT (tk : Tracker) (currentTime : Q) : Q :=
  if Qle_bool 0 (transitionStartTime tk)
  then JS.min ((currentTime - transitionStartTime tk) / TRANSITION_DURATION) 1
  else 1.

(** The [TransitionState] object literal handed to either renderer. *)
Definition transitionState (tk : Tracker) (activeIdx : Z) (currentTime : Q)
  : Transition.State :=
  let transitionT := transitionT tk currentTime in
  Transition.mkState activeIdx
    (if JS.ltb transitionT 1 then leavingIdx tk else (-1)%Z)
    transitionT.

(** The renderer call of one frame; only whether it returns matters to the
    loop. *)
Definition drawOverlay (env : Env) (variant : TimelineVariant)
    (sections : list Section) (currentTime duration : Q)
    (transition : Transition.State) : Completion unit :=
  match variant with
  | pills =>
      _ <- Pills.drawColoredPillsOverlay (measureText env) sections currentTime
             duration (videoWidth env) (videoHeight env) transition ;;;
      Returned tt
  | dots =>
      _ <- Dots.drawTimelineOverlay (measureText env) sections currentTime
             duration (videoWidth env) (videoHeight env) transition ;;;
      Returned tt
  end.

(** The body of the frame loop. *)
Definition processFrame (env : Env) (sections : list Section) (duration : Q)
    (variant : TimelineVariant) (onProgress : bool) (totalFrames : Z)
    (frameIndex : Z) (tk : Tracker) : M Tracker :=
  let frameDuration := 1 / fps in
  let currentTime := frameIndex / fps in
  emit (Seek currentTime) ;;
  let activeIdx := findActiveSection sections currentTime in
  let tk' := trackTransition tk activeIdx currentTime in
  let transition := transitionState tk' activeIdx currentTime in
  emit DrawFrame ;;
  lift (drawOverlay env variant sections currentTime duration transition) ;;
  emit (DrawOverlay variant currentTime transition) ;;
  emit (VideoAdd currentTime frameDuration) ;;
  (if onProgress
   then emit (Progress ((frameIndex + 1)%Z / totalFrames))
   else ret tt) ;;
  ret tk'.

(** [for (let frameIndex = 0; frameIndex < totalFrames; frameIndex++)],
    entered at [frameIndex]; what is left to run shrinks with every turn.
    A body that throws ends the loop. *)
Equations? forEachFrame (totalFrames : Z) (body : Z -> Tracker -> M Tracker)
    (frameIndex : Z) (tk : Tracker) (log : list Event)
    : list Event * Completion Tracker
    by wf (Z.to_nat (totalFrames - frameIndex)) lt :=
  forEachFrame totalFrames body frameIndex tk log
    with Z_lt_dec frameIndex totalFrames => {
    | left _ with body frameIndex tk log => {
      | (log', Returned tk') =>
          forEachFrame totalFrames body (frameIndex + 1)%Z tk' log';
      | (log', Thrown msg) => (log', Thrown msg) };
    | right _ => ret tk log }.
Proof. lia. Qed.

Definition totalFramesOf (duration : Q) : Z := JS.ceil (JS.mul duration fps).

Definition frameLoop (env : Env) (sections : list Section) (duration : Q)
    (variant : TimelineVariant) (onProgress : bool) : M Tracker :=
  let totalFrames := totalFramesOf duration in
  forEachFrame totalFrames
    (processFrame env sections duration variant onProgress totalFrames)
    0%Z initialTracker.

(** A step of the audio [try]: it throws if the environment says so. *)
Definition attempt (env : Env) (step : AudioStep) : M unit :=
  match audioFailure env with
  | Some failing =>
      if sameStep failing step then throw "audio step failed" else ret tt
  | None => ret tt
  end.

(** [await output.start()]; the log tells whether the output was started
    before. *)
Definition started (log : list Event) : bool :=
  existsb (fun e => match e with Start => true | _ => false end) log.

Definition startOutput (env : Env) : M unit :=
  fun log =>
    if started log && negb (secondStart env)
    then (log, Thrown "output was started already")
    else emit Start log.

(** "Add audio track": the [try] and its [catch]. *)
Definition audioWarning : string :=
  "Audio processing failed, continuing without audio:".

Definition addAudioTrack (env : Env) : M unit :=
  tryCatch
    (attempt env FetchSource ;;
     attempt env DecodeAudio ;;
     attempt env AttachTrack ;;
     emit AddAudioTrack ;;
     startOutput env ;;
     attempt env AddBuffer ;;
     emit AudioAdd ;;
     attempt env CloseAudio ;;
     emit AudioClose)
    (fun err =>
       emit (Warn audioWarning) ;;
       startOutput env).

(** What the muxer was given, read back from the log. *)
Definition samplesOf (log : list Event) : list (Q * Q) :=
  flat_map (fun e => match e with
                     | VideoAdd timestamp duration => [(timestamp, duration)]
                     | _ => []
                     end) log.

Definition progressOf (log : list Event) : list Q :=
  flat_map (fun e => match e with Progress v => [v] | _ => [] end) log.

Definition hasAudioTrack (log : list Event) : bool :=
  existsb (fun e => match e with AddAudioTrack => true | _ => false end) log.

Definition finalize (env : Env) : M Blob :=
  emit VideoClose ;;
  emit Finalize ;;
  fun log =>
    if hasBuffer env
    then (log, Returned (mkBlob "video/mp4" (hasAudioTrack log) (samplesOf log)))
    else (log, Thrown "No output buffer").

Definition encodeVideoWithOverlay (env : Env) (sections : list Section)
    (duration : Q) (variant : TimelineVariant) (onProgress : bool) : M Blob :=
  (if videoLoads env then ret tt else throw "Failed to load video") ;;
  emit (AddVideoTrack fps) ;;
  addAudioTrack env ;;
  frameLoop env sections duration variant onProgress ;;
  finalize env.

(** A run from the empty log. *)
Definition run {A : Type} (m : M A) : list Event * Completion A := m [].

End Encoder.

(** ** Vocabulary of the specification *)

(** [clamp(x, lo, hi)]. *)
Definition clamp (x lo hi : Q) : Q := JS.max lo (JS.min x hi).

(** Totals of widths, in pixels. *)
Definition sumQ (l : list Q) : Q := fold_left Qplus l 0.

Definition sumZ (l : list Z) : Z := fold_left Z.add l 0%Z.

(** [rawT = min((currentTime - transitionStartTime) / FIXED_WINDOW, 1)], the
    window being 0.3 seconds. *)
Definition rawT (transitionStartTime currentTime : Q) : Q :=
  JS.min ((currentTime - transitionStartTime) / (3 # 10)) 1.

(** [intraSectionFraction = clamp((t - start) / (end - start), 0, 1)]. *)
Definition intraSectionFraction (s : Section) (t : Q) : Q :=
  clamp ((t - startTime s) / (endTime s - startTime s)) 0 1.

(** ** The log a run is expected to leave *)

Module Expected.

Import Encoder.

(** The tracker after the frame at [frameIndex]. *)
Definition nextTracker (sections : list Section) (frameIndex : Z) (tk : Tracker)
  : Tracker :=
  trackTransition tk (findActiveSection sections (frameIndex / fps))
                  (frameIndex / fps).

(** The transition state the frame at [frameIndex] hands to the renderer. *)
Definition frameTransition (sections : list Section) (frameIndex : Z)
    (tk : Tracker) : Transition.State :=
  transitionState (nextTracker sections frameIndex tk)
                  (findActiveSection sections (frameIndex / fps))
                  (frameIndex / fps).

(** What a frame does before it hands the canvas to the muxer. *)
Definition compositing (sections : list Section) (variant : TimelineVariant)
    (frameIndex : Z) (tk : Tracker) : list Event :=
  [ Seek (frameIndex / fps);
    DrawFrame;
    DrawOverlay variant (frameIndex / fps) (frameTransition sections frameIndex tk) ].

(** Appending the frame, then reporting progress. *)
Definition delivery (onProgress : bool) (totalFrames frameIndex : Z) : list Event :=
  VideoAdd (frameIndex / fps) (1 / fps)
  :: (if onProgress then [Progress ((frameIndex + 1)%Z / totalFrames)] else []).

Definition frameEvents (sections : list Section) (variant : TimelineVariant)
    (onProgress : bool) (totalFrames frameIndex : Z) (tk : Tracker) : list Event :=
  compositing sections variant frameIndex tk
  ++ delivery onProgress totalFrames frameIndex.

(** The indices a loop entered at [frameIndex] runs through in [count]
    turns, and those of a whole loop. *)
Fixpoint indicesFrom (frameIndex : Z) (count : nat) : list Z :=
  match count with
  | O => []
  | S count' => frameIndex :: indicesFrom (frameIndex + 1)%Z count'
  end.

Definition frameIndices (totalFrames : Z) : list Z :=
  indicesFrom 0%Z (Z.to_nat totalFrames).

Fixpoint framesLog (sections : list Section) (variant : TimelineVariant)
    (onProgress : bool) (totalFrames : Z) (indices : list Z) (tk : Tracker)
  : list Event :=
  match indices with
  | [] => []
  | frameIndex :: rest =>
      frameEvents sections variant onProgress totalFrames frameIndex tk
      ++ framesLog sections variant onProgress totalFrames rest
           (nextTracker sections frameIndex tk)
  end.

Fixpoint trackerAfter (sections : list Section) (indices : list Z) (tk : Tracker)
  : Tracker :=
  match indices with
  | [] => tk
  | frameIndex :: rest =>
      trackerAfter sections rest (nextTracker sections frameIndex tk)
  end.

(** The whole frame loop of a run. *)
Definition loopLog (sections : list Section) (duration : Q)
    (variant : TimelineVariant) (onProgress : bool) : list Event :=
  framesLog sections variant onProgress (totalFramesOf duration)
            (frameIndices (totalFramesOf duration)) initialTracker.

(** What the audio step adds to the log, which holds the video track when
    the step begins. *)
Definition audioLog (env : Env) : list Event :=
  skipn 1 (fst (addAudioTrack env [AddVideoTrack fps])).

(** The run gets as far as the frame loop: the video loads and, if the audio
    step fails after the output was started, the muxer puts up with the
    second [output.start()]. *)
Definition reachesLoop (env : Env) : bool :=
  videoLoads env
  && match audioFailure env with
     | Some AddBuffer | Some CloseAudio => secondStart env
     | _ => true
     end.

(** The transition states handed to the renderer, frame by frame. *)
Definition overlaysOf (log : list Event) : list Transition.State :=
  flat_map (fun e => match e with
                     | DrawOverlay _ _ transition => [transition]
                     | _ => []
                     end) log.

(** The log reduced to what reaches the muxer as video and the callback. *)
Definition deliveriesOf (log : list Event) : list Event :=
  filter (fun e => match e with
                   | VideoAdd _ _ | Progress _ => true
                   | _ => false
                   end) log.

End Expected.

(** ** The dot row of [drawTimelineOverlay]

    Part 4 of the function, "Dots with gooey metaball effect": what is drawn
    under the pills, from the pill centres and the fraction [pct] that the
    first parts computed. *)

Module DotRow.

(** [Math.abs]. *)
Definition abs (x : Q) : Q := if Qle_bool 0 x then x else - x.

Record Dot : Type := mkDot {
  staticX : Q;   (* where the dot rests *)
  dx : Q;        (* where it is drawn *)
  r : Q          (* its radius *)
}.

Record Bridge : Type := mkBridge {
  x1 : Q;
  x2 : Q;
  bridgeWidth : Q
}.

(** [None] in [totalDots] and [dotSpacing] stands for [NaN]. *)
Record Row : Type := mkRow {
  totalDots : option Z;
  dotY : Q;
  dotR : Z;
  playheadR : Z;
  dotsLeft : Q;
  dotsRight : Q;
  dotSpacing : option Q;
  playheadX : Q;
  dots : list Dot;
  bridges : list Bridge
}.

(** "Cap dots so minimum spacing is ~14px (scaled) between centers".  At the
    scale 0 (a canvas of width 0) the quotient is 0 / 0: it is [NaN], and
    so are its floor, the minimum and the maximum taken with it. *)
Definition countDots (S duration : Q) : option Z :=
  if Qeq_bool S 0 then None
  else
    let maxDotsFromSpacing := JS.floor ((620 * S) / (14 * S)) in
    Some (Z.max 20
            (Z.min maxDotsFromSpacing (JS.round (duration * (115 # 100))))).

(** One turn of the first loop: a dot near the playhead is pulled toward it
    and grows. *)
Definition dotAt (dotsLeft dotSpacing playheadX : Q) (dotR playheadR : Z)
    (i : Z) : Dot :=
  let staticX := dotsLeft + i * dotSpacing in
  let dist := abs (staticX - playheadX) in
  let mergeRange := dotSpacing * 3 in
  if JS.ltb dist mergeRange then
    let influence := 1 - dist / mergeRange in
    let pullStrength := influence * influence in
    mkDot staticX
          (lerp staticX playheadX (pullStrength * (3 # 10)))
          (lerp dotR (playheadR * (6 # 10)) pullStrength)
  else mkDot staticX staticX dotR.

(** One turn of the second loop: the bridge between a dot and the playhead,
    if one is drawn. *)
Definition bridgeAt (dotsLeft dotSpacing playheadX : Q) (dotR playheadR : Z)
    (i : Z) : option Bridge :=
  let staticX := dotsLeft + i * dotSpacing in
  let dist := abs (staticX - playheadX) in
  let bridgeRange := dotSpacing * 2 in
  if JS.ltb dist bridgeRange && JS.ltb (playheadR * (5 # 10)) dist then
    let strength := 1 - dist / bridgeRange in
    Some (mkBridge (JS.min staticX playheadX) (JS.max staticX playheadX)
                   (lerp (dotR * (3 # 10)) (playheadR * (5 # 10)) strength))
  else None.

(** With a count that is [NaN] neither [for] loop is entered ([i < NaN] is
    false): there are no dots and no bridges, only the playhead. *)
Definition row (S duration canvasHeight firstPillCenter lastPillCenter pct : Q)
  : Row :=
  let overlayTop := canvasHeight - JS.round (130 * S) in
  let activePH := JS.round (38 * S) in
  let pillY := overlayTop + JS.round (55 * S) in
  let pillsRange := JS.max (lastPillCenter - firstPillCenter) 1 in
  let totalDots := countDots S duration in
  let dotY := pillY + activePH / 2 + JS.round (22 * S) in
  let dotR := JS.round (3 * S) in
  let playheadR := JS.round (7 * S) in
  let dotsPad := JS.round (28 * S) in
  let dotsLeft := firstPillCenter - dotsPad in
  let dotsRight := lastPillCenter + dotsPad in
  let dotsWidth := dotsRight - dotsLeft in
  let playheadX := firstPillCenter + pct * pillsRange in
  match totalDots with
  | None =>
      mkRow None dotY dotR playheadR dotsLeft dotsRight None playheadX [] []
  | Some count =>
      let dotSpacing := dotsWidth / (count - 1)%Z in
      let indices := Expected.indicesFrom 0 (Z.to_nat count) in
      mkRow (Some count) dotY dotR playheadR dotsLeft dotsRight
            (Some dotSpacing) playheadX
            (map (dotAt dotsLeft dotSpacing playheadX dotR playheadR) indices)
            (flat_map (fun i =>
                         match bridgeAt dotsLeft dotSpacing playheadX dotR
                                 playheadR i with
                         | Some bridge => [bridge]
                         | None => []
                         end) indices)
  end.

(** The dot row of a call of [drawTimelineOverlay]. *)
Definition drawDots (measureText : TextMeasure) (sections : list Section)
    (currentTime duration canvasWidth canvasHeight : Q)
    (transition : Transition.State) : Completion (option Row) :=
  drawn <- Dots.drawTimelineOverlay measureText sections currentTime duration
             canvasWidth canvasHeight transition ;;;
  match drawn with
  | None => Returned None
  | Some o =>
      firstPill <- member (Dots.pills o) 0 ;;;
      lastPill <- member (Dots.pills o) (JS.length sections - 1) ;;;
      Returned (Some (row (canvasWidth / 1280) duration canvasHeight
                          (Dots.centerX firstPill) (Dots.centerX lastPill)
                          (Dots.pct o)))
  end.

End DotRow.

(** ** The live preview, continued: [TimelineDots] and
    [TimelineColoredPills] *)

Module Preview.

(** [totalDots] of [TimelineDots]. *)
Definition totalDots (duration : Q) : Z :=
  let maxFromSpacing := JS.floor (620 / 14) in
  Z.max 20 (Z.min maxFromSpacing (JS.round (duration * (115 # 100)))).

(** What [measurePills] stores: the pixel range between the first and the
    last pill centre, and the padding of the dot row. *)
Record Measured : Type := mkMeasured {
  left : Q;
  width : Q;
  dotsPadding : Q;
  dotsLeft : Q;
  dotsRight : Q
}.

Definition measurePills (containerWidth firstCenter lastCenter : Q) : Measured :=
  let width := JS.max (lastCenter - firstCenter) 1 in
  let dotsPad := 28 in
  let dotsLeft := JS.max 0 (firstCenter - dotsPad) in
  let dotsRight := JS.min containerWidth (lastCenter + dotsPad) in
  mkMeasured firstCenter width (firstCenter - dotsLeft) dotsLeft dotsRight.

(** What one [tick] writes into the page. *)
Record Tick : Type := mkTick {
  idx : Z;
  pct : Q;
  pixelLeft : Q;      (* left of the badge and of the stem, in px *)
  percent : Z;        (* the number in the badge *)
  playheadPct : Q     (* left of the playhead, in % of the dot row *)
}.

Definition tick (sections : list Section) (duration t : Q) (measured : Measured)
  : Completion Tick :=
  pct <- TimelineDots.tickPct sections duration t ;;;
  let rangeLeft := left measured in
  let rangeWidth := width measured in
  let pad := dotsPadding measured in
  let dotsWidth := rangeWidth + pad * 2 in
  Returned (mkTick (findActiveSection sections t) pct
                   (rangeLeft + pct * rangeWidth)
                   (JS.floor (pct * 100))
                   (if JS.ltb 0 dotsWidth
                    then (pct * rangeWidth + pad) / dotsWidth * 100
                    else 0)).

(** [TimelineColoredPills]: how a pill is shown for the active index the
    tick has stored. *)
Record PillLook : Type := mkLook {
  isActive : bool;
  isPast : bool;
  scale : Q;
  opacity : Q;
  label : Z
}.

Definition pillLook (activeSectionIndex : Z) (section : Section) (index : Z)
  : PillLook :=
  let sectionDuration := endTime section - startTime section in
  let isActive := (activeSectionIndex =? index)%Z in
  let isPast := (index <? activeSectionIndex)%Z in
  mkLook isActive isPast
         (if isActive then 104 # 100 else 1)
         (if negb isPast && negb isActive && (0 <=? activeSectionIndex)%Z
          then 55 # 100 else 1)
         (JS.round sectionDuration).

End Preview.

(** ** The analysis route: [POST] of [src/app/api/analyze/route.ts]

    The request body, the fetch of a remote video and the answer of the
    model are given by the environment, each of them as a completion where
    the handler awaits it: what throws there is caught by the outer [catch]
    and answered with the status 500.  The text of the model's answer comes
    parsed, [None] standing for every way in which parsing it throws inside
    the inner [try]; an element of the parsed list may be [null].  A
    duration that [parseFloat] cannot read is outside the model. *)

Module Analyze.

Definition MAX_DURATION_SECONDS : Q := 90.

(** [String.prototype.includes]. *)
Fixpoint includes (needle haystack : string) : bool :=
  String.prefix needle haystack
  || match haystack with
     | EmptyString => false
     | String _ rest => includes needle rest
     end.

(** The [file] entry of the form data.  [arrayBuffer] is
    [await file.arrayBuffer()]: it throws when the file cannot be read, and
    also when the entry is no file at all and has no such method. *)
Record File : Type := mkFile {
  fileType : string;
  fileSize : Z;                      (* bytes *)
  arrayBuffer : Completion unit
}.

Record FormData : Type := mkForm {
  formFile : option File;        (* formData.get("file") *)
  formDuration : Q               (* parseFloat(formData.get("duration")) *)
}.

(** The JSON body as far as the handler looks at it: [null], on which the
    read of [body.url] throws, or a value with its [url]. *)
Inductive Json : Type :=
| JsonNull
| JsonValue (url : option string).

Record Request : Type := mkRequest {
  contentType : option string;        (* the content-type header *)
  formData : Completion FormData;     (* await request.formData() *)
  json : Completion Json              (* await request.json() *)
}.

(** [fetch(url)], and [videoResponse.arrayBuffer()] of an answer. *)
Inductive Fetched : Type :=
| FetchThrows (msg : string)
| FetchAnswers (ok : bool) (contentTypeHeader : option string)
               (body : Completion unit).

(** [model.generateContent] and [response.text()], which throw into the
    outer [catch], and the parse of the text. *)
Inductive Generated : Type :=
| GenerateThrows (msg : string)
| GenerateAnswers (parsed : option (list (option Section))).

Record Env : Type := mkEnv {
  apiKey : bool;           (* GEMINI_API_KEY is set *)
  fetched : Fetched;       (* fetch(url) *)
  generated : Generated    (* model.generateContent and the parse of its text *)
}.

(** The calls the handler makes to the outside. *)
Inductive Call : Type :=
| FetchVideo (url : string)
| GenerateContent (mimeType : string).

Inductive Response : Type :=
| ErrorResponse (status : Z) (error : string)
| SuccessResponse (sections : list Section) (videoDuration : Q)
                  (videoUrl : string).

(** "Fallback: Try to create default sections". *)
Definition fallbackSections (duration : Q) : list Section :=
  [ section "Intro" 0 (duration * (2 # 10));
    section "Features" (duration * (2 # 10)) (duration * (5 # 10));
    section "Best Feature" (duration * (5 # 10)) (duration * (7 # 10));
    section "Outcome" (duration * (7 # 10)) (duration * (9 # 10));
    section "Outro" (duration * (9 # 10)) duration ].

(** [sections.sort((a, b) => a.startTime - b.startTime)]: the stable sorted
    arrangement the language prescribes, built by insertion. *)
Fixpoint insertByStart (s : Section) (sorted : list Section) : list Section :=
  match sorted with
  | [] => [s]
  | x :: rest =>
      if Qle_bool (startTime s) (startTime x)
      then s :: x :: rest
      else x :: insertByStart s rest
  end.

Definition sortByStart (sections : list Section) : list Section :=
  fold_right insertByStart [] sections.

(** What the engine reports for a property read on [null]. *)
Definition nullRead : string := "TypeError: Cannot read properties of null".

(** The elements of a parsed list, if none of them is [null]. *)
Fixpoint present (elements : list (option Section)) : option (list Section) :=
  match elements with
  | [] => Some []
  | None :: _ => None
  | Some s :: rest =>
      match present rest with
      | Some sections => Some (s :: sections)
      | None => None
      end
  end.

(** From "Call Gemini API" to the end of the handler.  On a [null] element
    the comparator of the sort reads [startTime], or, in a list of one
    element that is never compared, the handler reads [endTime]: either
    throws. *)
Definition analyze (env : Env) (mimeType : string) (duration : Q)
    (videoUrl : string) (calls : list Call) : list Call * Response :=
  let calls := calls ++ [GenerateContent mimeType] in
  match generated env with
  | GenerateThrows msg => (calls, ErrorResponse 500 msg)
  | GenerateAnswers parsed =>
      let elements :=
        match parsed with
        | Some detected => detected
        | None => map Some (fallbackSections duration)
        end in
      if (JS.length elements =? 0)%Z
      then (calls, ErrorResponse 500 "Failed to detect sections in video")
      else
        match present elements with
        | None => (calls, ErrorResponse 500 nullRead)
        | Some sections =>
            let sections := sortByStart sections in
            match JS.get sections (JS.length sections - 1) with
            | Some lastSection =>
                (calls, SuccessResponse sections (endTime lastSection) videoUrl)
            | None => (calls, ErrorResponse 500 nullRead)
            end
        end
  end.

Definition isFalsy (s : option string) : bool :=
  match s with
  | None | Some EmptyString => true
  | Some _ => false
  end.

(** [s || fallback] on a string that may be missing. *)
Definition orElse (s : option string) (fallback : string) : string :=
  match s with
  | None | Some EmptyString => fallback
  | Some text => text
  end.

Definition has (needle : string) (header : option string) : bool :=
  match header with
  | Some text => includes needle text
  | None => false
  end.

Definition POST (env : Env) (request : Request) : list Call * Response :=
  if negb (apiKey env)
  then ([], ErrorResponse 500 "Gemini API key not configured")
  else if has "multipart/form-data" (contentType request) then
    match formData request with
    | Thrown msg => ([], ErrorResponse 500 msg)
    | Returned form =>
        match formFile form with
        | None => ([], ErrorResponse 400 "No file provided")
        | Some file =>
            let duration := formDuration form in
            if JS.ltb MAX_DURATION_SECONDS duration
            then ([], ErrorResponse 400
                        "Video duration must be 90 seconds or less")
            else
              match arrayBuffer file with
              | Thrown msg => ([], ErrorResponse 500 msg)
              | Returned _ => analyze env (fileType file) duration "" []
              end
        end
    end
  else if has "application/json" (contentType request) then
    match json request with
    | Thrown msg => ([], ErrorResponse 500 msg)
    | Returned JsonNull => ([], ErrorResponse 500 nullRead)
    | Returned (JsonValue None) => ([], ErrorResponse 400 "No URL provided")
    | Returned (JsonValue (Some url)) =>
        if isFalsy (Some url) then ([], ErrorResponse 400 "No URL provided")
        else
          match fetched env with
          | FetchThrows msg => ([FetchVideo url], ErrorResponse 500 msg)
          | FetchAnswers false _ _ =>
              ([FetchVideo url],
               ErrorResponse 400 "Failed to fetch video from URL")
          | FetchAnswers true _ (Thrown msg) =>
              ([FetchVideo url], ErrorResponse 500 msg)
          | FetchAnswers true contentTypeHeader (Returned _) =>
              let mimeType := orElse contentTypeHeader "video/mp4" in
              analyze env mimeType 90 url [FetchVideo url]
          end
    end
  else ([], ErrorResponse 400 "Invalid content type").

End Analyze.

(** ** The upload form: [VideoUploader] *)

Module Uploader.

Definition MAX_DURATION_SECONDS : Q := 90.
Definition MAX_FILE_SIZE_MB : Q := 100.

Definition SUPPORTED_FORMATS : list string :=
  ["video/mp4"; "video/webm"; "video/quicktime"; "video/x-msvideo"]%string.

(** [Array.prototype.includes] on strings. *)
Definition listed (format : string) (formats : list string) : bool :=
  existsb (String.eqb format) formats.

(** The digits of an integer, as a template literal prints them. *)
Definition digits (n : Z) : string := NilZero.string_of_int (Z.to_int n).

(** [validateVideoDuration]; [None] is the [onerror] of the video element. *)
Definition validateVideoDuration (metadata : option Q) : Completion Q :=
  match metadata with
  | None => Thrown "Failed to load video metadata"
  | Some duration =>
      if JS.ltb MAX_DURATION_SECONDS duration
      then Thrown ("Video must be 90 seconds or less. Your video is "
                   ++ digits (JS.floor duration) ++ " seconds.")%string
      else Returned duration
  end.

(** [AnalysisResult], as the form stores it for the preview page. *)
Record AnalysisResult : Type := mkResult {
  sections : list Section;
  videoDuration : Q;
  videoUrl : string
}.

(** What [handleFileUpload] leaves behind. *)
Record Upload : Type := mkUpload {
  stored : option AnalysisResult;   (* sessionStorage "analysisResult" *)
  error : option string;            (* the error shown in the form *)
  calls : list Analyze.Call         (* what the server did for it *)
}.

(** The request the browser sends for the form data. *)
Definition formRequest (file : Analyze.File) (duration : Q) : Analyze.Request :=
  Analyze.mkRequest (Some "multipart/form-data; boundary=----form"%string)
                    (Returned (Analyze.mkForm (Some file) duration))
                    (Thrown "SyntaxError: Unexpected token").

(** The [try] of [handleFileUpload], with the calls the server has made for
    it. *)
Definition tryUpload (server : Analyze.Env) (file : Analyze.File)
    (previewUrl : string) (metadata : option Q)
  : list Analyze.Call * Completion AnalysisResult :=
  if negb (listed (Analyze.fileType file) SUPPORTED_FORMATS)
  then ([], Thrown "Unsupported format. Please use MP4, WebM, MOV, or AVI.")
  else
    let fileSizeMB := Analyze.fileSize file / (1024 * 1024) in
    if JS.ltb MAX_FILE_SIZE_MB fileSizeMB
    then ([], Thrown "File size must be less than 100MB")
    else
      match validateVideoDuration metadata with
      | Thrown msg => ([], Thrown msg)
      | Returned duration =>
          match Analyze.POST server (formRequest file duration) with
          | (calls, Analyze.ErrorResponse _ msg) =>
              (calls, Thrown (Analyze.orElse (Some msg) "Failed to analyze video"))
          | (calls, Analyze.SuccessResponse sections videoDuration _) =>
              (calls, Returned (mkResult sections videoDuration previewUrl))
          end
      end.

Definition handleFileUpload (server : Analyze.Env) (file : Analyze.File)
    (previewUrl : string) (metadata : option Q) : Upload :=
  match tryUpload server file previewUrl metadata with
  | (calls, Returned result) => mkUpload (Some result) None calls
  | (calls, Thrown msg) => mkUpload None (Some msg) calls
  end.

End Uploader.

(** ** The preview page: [handleDownload] *)

Module Page.

Inductive Event : Type :=
| SetIsEncoding (value : bool)
| SetProgress (value : Z)
| ToastSuccess (msg : string)
| ToastError (msg : string)
| Download (blob : Encoder.Blob).

(** The progress callback the page hands to the encoder. *)
Definition onProgress (p : Q) : Event := SetProgress (JS.floor (p * 100)).

Definition handleDownload (analysisResult : option Uploader.AnalysisResult)
    (env : Encoder.Env) (timelineVariant : Encoder.TimelineVariant)
  : list Event :=
  match analysisResult with
  | None => []
  | Some result =>
      let outcome :=
        Encoder.run (Encoder.encodeVideoWithOverlay env
                       (Uploader.sections result) (Uploader.videoDuration result)
                       timelineVariant true) in
      [SetIsEncoding true; SetProgress 0]
      ++ map onProgress (Encoder.progressOf (fst outcome))
      ++ match snd outcome with
         | Returned blob =>
             [ ToastSuccess "Video encoded successfully!";
               Download blob;
               ToastSuccess "Download started! Check your downloads folder." ]
         | Thrown msg => [ToastError msg]
         end
      ++ [SetIsEncoding false; SetProgress 0]
  end.

(** The percentages shown while encoding. *)
Definition shown (events : list Event) : list Z :=
  flat_map (fun e => match e with SetProgress value => [value] | _ => [] end)
           events.

End Page.

(** ** More vocabulary *)

(** Every section starts where the one before it ends. *)
Fixpoint gapless (sections : list Section) : Prop :=
  match sections with
  | a :: (b :: _) as rest => endTime a == startTime b /\ gapless rest
  | _ => True
  end.

(** One list of sections rearranges the other. *)
Definition rearranges (a b : list Section) : Prop := Permutation a b.

(** A transition state as a renderer expects it for [numSections] sections:
    a progress in the unit interval, indices that are -1 or in the list, and
    a leaving pill, if any, that is not the active one. *)
Definition sound (numSections : Z) (transition : Transition.State) : Prop :=
  0 <= Transition.transitionT transition <= 1
  /\ (-1 <= Transition.activeIdx transition < numSections)%Z
  /\ (-1 <= Transition.leavingIdx transition < numSections)%Z
  /\ (Transition.leavingIdx transition = (-1)%Z
      \/ Transition.leavingIdx transition <> Transition.activeIdx transition).

(** What the frame loop keeps true of its tracker, [now] being the time of
    the next frame. *)
Definition tracked (numSections : Z) (now : Q) (tk : Encoder.Tracker) : Prop :=
  (-1 <= Encoder.prevActiveIdx tk < numSections)%Z
  /\ (-1 <= Encoder.leavingIdx tk < numSections)%Z
  /\ (Encoder.transitionStartTime tk < 0 -> Encoder.leavingIdx tk = (-1)%Z)
  /\ (0 <= Encoder.transitionStartTime tk ->
      Encoder.transitionStartTime tk <= now
      /\ Encoder.leavingIdx tk <> Encoder.prevActiveIdx tk).

(** ** Sample inputs *)

Module Sample.

(** The sections of the end-to-end example of the specification. *)
Definition sections : list Section :=
  [section "Intro" 0 10; section "Features" 10 40].

(** Two sections with a second of nothing between them. *)
Definition gapped : list Section :=
  [section "A" 0 1; section "B" 2 3].

(** Ascending start times, but the second section lies inside the first. *)
Definition nested : list Section :=
  [section "A" 0 10; section "B" 5 8].

(** Six sections of ten seconds each. *)
Definition sixths : list Section :=
  [section "A" 0 10; section "B" 10 20; section "C" 20 30;
   section "Dd" 30 40; section "Ee" 40 50; section "Ff" 50 60].

(** Eight pixels a character, whatever the font. *)
Definition measureText : TextMeasure :=
  fun _ _ text => 8 * Z.of_nat (String.length text).

(** Seven pixels a character. *)
Definition narrowText : TextMeasure :=
  fun _ _ text => 7 * Z.of_nat (String.length text).

Definition env : Encoder.Env :=
  Encoder.mkEnv true 1280 720 measureText None true true.

Definition silent : Encoder.Env :=
  Encoder.mkEnv true 1280 720 measureText (Some Encoder.DecodeAudio) true true.

(** The doubles nearest to 0.1 and to 8.3, the durations a video element
    reports for videos of these lengths. *)
Definition tenth : Q := JS.toDouble (1 # 10).
Definition eightThree : Q := JS.toDouble (83 # 10).

(** The tracker while the first sample section is active, from time 0 on. *)
Definition tracking : Encoder.Tracker := Encoder.mkTracker 0 (-1) 0.

(** A server with an API key whose model lists the sections out of order. *)
Definition server : Analyze.Env :=
  Analyze.mkEnv true (Analyze.FetchAnswers true None (Returned tt))
    (Analyze.GenerateAnswers
       (Some [Some (section "Features" 10 40); Some (section "Intro" 0 10)])).

(** A server whose model cannot be reached. *)
Definition failing : Analyze.Env :=
  Analyze.mkEnv true (Analyze.FetchAnswers true None (Returned tt))
    (Analyze.GenerateThrows "quota exceeded").

(** A request whose content type is none of the two the handler knows. *)
Definition plainText : Analyze.Request :=
  Analyze.mkRequest (Some "text/plain"%string)
                    (Thrown "TypeError: Content-Type was not multipart")
                    (Thrown "SyntaxError: Unexpected token").

(** An MP4 of one megabyte. *)
Definition file : Analyze.File :=
  Analyze.mkFile "video/mp4" 1048576 (Returned tt).

(** The first pill of the sample sections as [drawColoredPillsOverlay] may
    lay it out. *)
Definition pill : Pills.ColoredPillInfo :=
  Pills.mkPill 191 334 (334 + 191 / 2) (10 - 0)
               (Pills.mkColor 245 158 11 245 158 11).

End Sample.

(** * Properties *)

(** ** Numbers *)

Lemma ltb_iff (a b : Q) : JS.ltb a b = true <-> a < b.
Proof.
  unfold JS.ltb. rewrite negb_true_iff.
  destruct (Qle_bool b a) eqn:E.
  - apply Qle_bool_iff in E. split; [discriminate | intro H; lra].
  - split; [intros _ | reflexivity].
    destruct (Qlt_le_dec a b) as [H | H]; [exact H |].
    apply Qle_bool_iff in H. congruence.
Qed.

Lemma ltb_false_iff (a b : Q) : JS.ltb a b = false <-> b <= a.
Proof.
  unfold JS.ltb. rewrite negb_false_iff. apply Qle_bool_iff.
Qed.

Lemma leb_false_iff (a b : Q) : Qle_bool a b = false <-> b < a.
Proof.
  rewrite <- ltb_iff. unfold JS.ltb. rewrite negb_true_iff. reflexivity.
Qed.

Lemma min_le_l (a b : Q) : JS.min a b <= a.
Proof.
  unfold JS.min. destruct (Qle_bool a b) eqn:E; [lra |].
  apply leb_false_iff in E. lra.
Qed.

Lemma min_le_r (a b : Q) : JS.min a b <= b.
Proof.
  unfold JS.min. destruct (Qle_bool a b) eqn:E; [| lra].
  apply Qle_bool_iff in E. exact E.
Qed.

Lemma min_glb (a b c : Q) : c <= a -> c <= b -> c <= JS.min a b.
Proof.
  intros Ha Hb. unfold JS.min. destruct (Qle_bool a b); assumption.
Qed.

Lemma min_left (a b : Q) : a <= b -> JS.min a b = a.
Proof.
  intro H. unfold JS.min. apply Qle_bool_iff in H. rewrite H. reflexivity.
Qed.

Lemma min_right (a b : Q) : b <= a -> JS.min a b == b.
Proof.
  intro H. unfold JS.min. destruct (Qle_bool a b) eqn:E; [| reflexivity].
  apply Qle_bool_iff in E. lra.
Qed.

Lemma min_mono (a a' b : Q) : a <= a' -> JS.min a b <= JS.min a' b.
Proof.
  intro H. apply min_glb.
  - pose proof (min_le_l a b). lra.
  - apply min_le_r.
Qed.

(** ** Doubles *)

Lemma two_power (s : Z) : (0 <= s)%Z -> 2 ^ s == inject_Z (2 ^ s).
Proof. intro H. rewrite (Zpower_Qpower 2 s H). reflexivity. Qed.

Lemma two_power_pos (k : Z) : 0 < 2 ^ k.
Proof. apply Qpower_0_lt. reflexivity. Qed.

Lemma exponent_le (x : Q) : 0 < x -> 2 ^ JS.exponent x <= x.
Proof.
  intro Hx. unfold JS.exponent.
  set (n := Qnum x). set (d := Zpos (Qden x)).
  destruct (Qle_bool (2 ^ (Z.log2 n - Z.log2 d)) x) eqn:E;
    [apply Qle_bool_iff; exact E |].
  assert (Hn : (0 < n)%Z).
  { unfold n. unfold Qlt in Hx. simpl in Hx. lia. }
  assert (Hd : (0 < d)%Z) by (unfold d; lia).
  destruct (Z.log2_spec n Hn) as [Ln _].
  destruct (Z.log2_spec d Hd) as [_ Ud].
  pose proof (Z.log2_nonneg n) as Nn. pose proof (Z.log2_nonneg d) as Nd.
  assert (Ex : x == inject_Z n / inject_Z d).
  { unfold n, d. destruct x as [p q]. simpl. apply Qmake_Qdiv. }
  assert (Ek : 2 ^ (Z.log2 n - Z.log2 d - 1)
               == inject_Z (2 ^ Z.log2 n) / inject_Z (2 ^ Z.succ (Z.log2 d))).
  { replace (Z.log2 n - Z.log2 d - 1)%Z
      with (Z.log2 n + - Z.succ (Z.log2 d))%Z by lia.
    rewrite Qpower_plus by discriminate.
    rewrite Qpower_opp, !two_power by lia. reflexivity. }
  rewrite Ek, Ex.
  assert (A : 0 < inject_Z (2 ^ Z.log2 n) <= inject_Z n).
  { split; [| rewrite <- Zle_Qle; exact Ln].
    change 0 with (inject_Z 0). rewrite <- Zlt_Qlt. lia. }
  assert (B : 0 < inject_Z d < inject_Z (2 ^ Z.succ (Z.log2 d))).
  { split; [change 0 with (inject_Z 0) |]; rewrite <- Zlt_Qlt; lia. }
  revert A B. generalize (inject_Z (2 ^ Z.log2 n)) (inject_Z n) (inject_Z d)
    (inject_Z (2 ^ Z.succ (Z.log2 d))).
  intros a b c e [A0 A1] [B0 B1].
  apply Qle_shift_div_l; [lra |].
  assert (E1 : a / e * c == a * (c / e)) by (field; lra).
  assert (E2 : c / e <= 1) by (apply Qle_shift_div_r; lra).
  assert (E3 : 0 <= c / e) by (apply Qle_shift_div_l; lra).
  rewrite E1. nra.
Qed.

Lemma roundEven_bounds (x : Q) :
  (Qfloor x <= JS.roundEven x <= Qfloor x + 1)%Z.
Proof.
  unfold JS.roundEven.
  destruct (JS.ltb x (Qfloor x + (1 # 2))); [lia |].
  destruct (JS.ltb (Qfloor x + (1 # 2)) x); [lia |].
  destruct (Z.even (Qfloor x)); lia.
Qed.

Lemma roundEven_ge (x : Q) (k : Z) : inject_Z k <= x -> (k <= JS.roundEven x)%Z.
Proof.
  intro H. apply Qfloor_resp_le in H. rewrite Qfloor_Z in H.
  pose proof (roundEven_bounds x). lia.
Qed.

Lemma roundEven_le (x : Q) (k : Z) : x <= inject_Z k -> (JS.roundEven x <= k)%Z.
Proof.
  intro H. pose proof (roundEven_bounds x) as B.
  destruct (Z_lt_le_dec (Qfloor x) k) as [L | L]; [lia |].
  (* the floor is [k]: [x] is that integer *)
  pose proof (Qfloor_le x) as F.
  assert (Hk : inject_Z k <= inject_Z (Qfloor x)) by (rewrite <- Zle_Qle; exact L).
  unfold JS.roundEven.
  assert (T : JS.ltb x (Qfloor x + (1 # 2)) = true) by (apply ltb_iff; lra).
  rewrite T. apply Qfloor_resp_le in H. rewrite Qfloor_Z in H. exact H.
Qed.

Lemma nearest_pos (x : Q) : 0 < x -> 0 < JS.nearest x.
Proof.
  intro Hx. unfold JS.nearest.
  set (e := (JS.exponent x - 52)%Z).
  pose proof (two_power_pos e) as He.
  assert (Hy : inject_Z (2 ^ 52) <= x / 2 ^ e).
  { apply Qle_shift_div_l; [exact He |].
    rewrite <- (two_power 52) by lia.
    rewrite <- Qpower_plus by discriminate.
    replace (52 + e)%Z with (JS.exponent x) by (unfold e; lia).
    apply exponent_le. exact Hx. }
  apply roundEven_ge in Hy.
  assert (Hm : 0 < inject_Z (JS.roundEven (x / 2 ^ e))).
  { change 0 with (inject_Z 0). rewrite <- Zlt_Qlt.
    assert ((0 < 2 ^ 52)%Z) by reflexivity. lia. }
  nra.
Qed.

Lemma toDouble_pos (x : Q) : 0 < x -> 0 < JS.toDouble x.
Proof.
  intro Hx. unfold JS.toDouble.
  assert (B : JS.ltb 0 x = true) by (apply ltb_iff; exact Hx).
  rewrite B. apply nearest_pos. exact Hx.
Qed.

Lemma toDouble_nonpos (x : Q) : x <= 0 -> JS.toDouble x <= 0.
Proof.
  intro Hx. unfold JS.toDouble.
  assert (B : JS.ltb 0 x = false) by (apply ltb_false_iff; exact Hx).
  rewrite B. destruct (JS.ltb x 0) eqn:N; [| lra].
  apply ltb_iff in N.
  assert (P : 0 < - x) by lra.
  pose proof (nearest_pos _ P). lra.
Qed.

(** Below 2^53 the spacing of the doubles is at most 1: rounding does not
    cross an integer. *)
Lemma nearest_scaled (x : Q) :
  0 < x -> x < 2 ^ 53 ->
  exists s : Z, (0 <= s)%Z
    /\ JS.nearest x
       == inject_Z (JS.roundEven (x * inject_Z (2 ^ s))) / inject_Z (2 ^ s).
Proof.
  intros Hx Hbig. unfold JS.nearest.
  set (e := (JS.exponent x - 52)%Z).
  assert (He : (e <= 0)%Z).
  { pose proof (exponent_le x Hx) as L.
    assert (Hlt : 2 ^ JS.exponent x < 2 ^ 53) by lra.
    apply Qpower_lt_compat_l_inv in Hlt; [| reflexivity]. unfold e. lia. }
  exists (- e)%Z. split; [lia |].
  assert (Ee : 2 ^ e == / inject_Z (2 ^ (- e))).
  { replace e with (- - e)%Z at 1 by lia.
    rewrite Qpower_opp, two_power by lia. reflexivity. }
  assert (Hp : 0 < inject_Z (2 ^ (- e))).
  { change 0 with (inject_Z 0). rewrite <- Zlt_Qlt. lia. }
  assert (Ey : x / 2 ^ e == x * inject_Z (2 ^ (- e))).
  { rewrite Ee. field. lra. }
  assert (Er : JS.roundEven (x / 2 ^ e) = JS.roundEven (x * inject_Z (2 ^ (- e)))).
  { unfold JS.roundEven. rewrite (Qfloor_comp _ _ Ey).
    unfold JS.ltb.
    assert (B1 : Qle_bool (Qfloor (x * inject_Z (2 ^ (- e))) + (1 # 2)) (x / 2 ^ e)
                 = Qle_bool (Qfloor (x * inject_Z (2 ^ (- e))) + (1 # 2))
                            (x * inject_Z (2 ^ (- e)))).
    { apply eq_true_iff_eq. rewrite !Qle_bool_iff, Ey. reflexivity. }
    assert (B2 : Qle_bool (x / 2 ^ e) (Qfloor (x * inject_Z (2 ^ (- e))) + (1 # 2))
                 = Qle_bool (x * inject_Z (2 ^ (- e)))
                            (Qfloor (x * inject_Z (2 ^ (- e))) + (1 # 2))).
    { apply eq_true_iff_eq. rewrite !Qle_bool_iff, Ey. reflexivity. }
    rewrite B1, B2. reflexivity. }
  rewrite Er, Ee. field. lra.
Qed.

Lemma toDouble_le_integer (x : Q) (n : Z) :
  0 < x -> x < 2 ^ 53 -> x <= inject_Z n -> JS.toDouble x <= inject_Z n.
Proof.
  intros Hx Hbig Hn. unfold JS.toDouble.
  assert (B : JS.ltb 0 x = true) by (apply ltb_iff; exact Hx).
  rewrite B. destruct (nearest_scaled x Hx Hbig) as (s & Hs & ->).
  assert (Hp : 0 < inject_Z (2 ^ s)).
  { change 0 with (inject_Z 0). rewrite <- Zlt_Qlt. lia. }
  assert (Hy : x * inject_Z (2 ^ s) <= inject_Z (n * 2 ^ s)).
  { rewrite inject_Z_mult. nra. }
  apply roundEven_le in Hy. rewrite Zle_Qle, inject_Z_mult in Hy.
  apply Qle_shift_div_r; [exact Hp | exact Hy].
Qed.

Lemma toDouble_ge_integer (x : Q) (n : Z) :
  0 < x -> x < 2 ^ 53 -> inject_Z n <= x -> inject_Z n <= JS.toDouble x.
Proof.
  intros Hx Hbig Hn. unfold JS.toDouble.
  assert (B : JS.ltb 0 x = true) by (apply ltb_iff; exact Hx).
  rewrite B. destruct (nearest_scaled x Hx Hbig) as (s & Hs & ->).
  assert (Hp : 0 < inject_Z (2 ^ s)).
  { change 0 with (inject_Z 0). rewrite <- Zlt_Qlt. lia. }
  assert (Hy : inject_Z (n * 2 ^ s) <= x * inject_Z (2 ^ s)).
  { rewrite inject_Z_mult. nra. }
  apply roundEven_ge in Hy. rewrite Zle_Qle, inject_Z_mult in Hy.
  apply Qle_shift_div_l; [exact Hp | exact Hy].
Qed.

(** The ceiling of the rounded value is the exact ceiling or one less. *)
Lemma ceil_toDouble (x : Q) :
  0 < x -> x < 2 ^ 53 ->
  (JS.ceil x - 1 <= JS.ceil (JS.toDouble x) <= JS.ceil x)%Z.
Proof.
  intros Hx Hbig. unfold JS.ceil. split.
  - pose proof (Qceiling_lt x) as L.
    assert (Hn : inject_Z (Qceiling x - 1) <= x) by lra.
    apply (toDouble_ge_integer x _ Hx Hbig) in Hn.
    apply Qceiling_resp_le in Hn. rewrite Qceiling_Z in Hn. exact Hn.
  - pose proof (Qle_ceiling x) as U.
    apply (toDouble_le_integer x _ Hx Hbig) in U.
    apply Qceiling_resp_le in U. rewrite Qceiling_Z in U. exact U.
Qed.

(** ** Arrays *)

Lemma get_Some {A : Type} (l : list A) (i : Z) (a : A) :
  JS.get l i = Some a ->
  (0 <= i < JS.length l)%Z /\ nth_error l (Z.to_nat i) = Some a.
Proof.
  unfold JS.get, JS.length. destruct (Z.ltb_spec i 0) as [H | H]; [discriminate |].
  intro E. split; [| exact E].
  assert (Z.to_nat i < List.length l)%nat by (apply nth_error_Some; congruence).
  lia.
Qed.

Lemma get_in_range {A : Type} (l : list A) (i : Z) :
  (0 <= i < JS.length l)%Z -> exists a, JS.get l i = Some a.
Proof.
  unfold JS.get, JS.length. intro H.
  destruct (Z.ltb_spec i 0) as [H0 | H0]; [lia |].
  destruct (nth_error l (Z.to_nat i)) eqn:E; [eauto |].
  apply nth_error_None in E. lia.
Qed.

(** [findIndex] finds nothing exactly when nothing satisfies the test. *)
Lemma findIndexFrom_none {A : Type} (p : A -> bool) (l : list A) (i : Z) :
  (0 <= i)%Z ->
  (JS.findIndexFrom p l i = (-1)%Z <-> forall a, In a l -> p a = false).
Proof.
  revert i. induction l as [| a l IH]; intros i Hi; simpl.
  - split; [intros _ a [] | reflexivity].
  - destruct (p a) eqn:E.
    + split; [lia | intro H; specialize (H a (or_introl eq_refl)); congruence].
    + rewrite IH by lia. split.
      * intros H b [<- | Hb]; auto.
      * intros H b Hb. apply H. right. exact Hb.
Qed.

(** [findIndex] returns the first position that satisfies the test. *)
Lemma findIndexFrom_first {A : Type} (p : A -> bool) (l : list A) (i : Z)
    (n : nat) (a : A) :
  nth_error l n = Some a -> p a = true ->
  (forall m b, (m < n)%nat -> nth_error l m = Some b -> p b = false) ->
  JS.findIndexFrom p l i = (i + Z.of_nat n)%Z.
Proof.
  revert i n. induction l as [| x l IH]; intros i n Hn Hp Hbefore.
  - destruct n; discriminate.
  - destruct n as [| n]; simpl in *.
    + injection Hn as ->. rewrite Hp. lia.
    + rewrite (Hbefore 0%nat x) by (simpl; (lia || reflexivity)).
      rewrite (IH (i + 1)%Z n Hn Hp).
      * lia.
      * intros m b Hm Hb. apply (Hbefore (S m) b); [lia | exact Hb].
Qed.

(** What [findIndex] returns, when it returns an index. *)
Lemma findIndexFrom_found {A : Type} (p : A -> bool) (l : list A) (i k : Z) :
  (0 <= i)%Z -> JS.findIndexFrom p l i = k -> k <> (-1)%Z ->
  exists a, (i <= k)%Z /\ nth_error l (Z.to_nat (k - i)) = Some a /\ p a = true.
Proof.
  revert i. induction l as [| x l IH]; intros i Hi Hk Hne; simpl in Hk.
  - congruence.
  - destruct (p x) eqn:E.
    + subst k. exists x. rewrite Z.sub_diag. auto with zarith.
    + destruct (IH (i + 1)%Z ltac:(lia) Hk Hne) as (a & Hle & Hnth & Hp).
      exists a. split; [lia |]. split; [| exact Hp].
      replace (Z.to_nat (k - i)) with (S (Z.to_nat (k - (i + 1)))) by lia.
      exact Hnth.
Qed.

Lemma findIndex_found {A : Type} (p : A -> bool) (l : list A) (k : Z) :
  JS.findIndex p l = k -> k <> (-1)%Z ->
  exists a, JS.get l k = Some a /\ p a = true.
Proof.
  intros Hk Hne.
  destruct (findIndexFrom_found p l 0 k ltac:(lia) Hk Hne) as (a & Hle & Hnth & Hp).
  exists a. split; [| exact Hp].
  unfold JS.get. destruct (Z.ltb_spec k 0); [lia |].
  rewrite Z.sub_0_r in Hnth. exact Hnth.
Qed.

(** ** Section resolution *)

Lemma contains_iff (t : Q) (s : Section) : contains t s = true <-> within t s.
Proof.
  unfold contains, within. rewrite andb_true_iff, Qle_bool_iff, ltb_iff.
  reflexivity.
Qed.

Lemma contains_false_iff (t : Q) (s : Section) :
  contains t s = false <-> ~ within t s.
Proof.
  rewrite <- contains_iff. destruct (contains t s); split; congruence.
Qed.

Lemma ordered_head (a : Section) (rest : list Section) :
  ordered (a :: rest) -> forall b, In b rest -> startTime a <= startTime b.
Proof.
  revert a. induction rest as [| c rest IH]; intros a Hord b Hb.
  - destruct Hb.
  - destruct Hord as [Hac Hrest]. destruct Hb as [<- | Hb]; [exact Hac |].
    specialize (IH c Hrest b Hb). lra.
Qed.

Lemma ordered_tail (a : Section) (rest : list Section) :
  ordered (a :: rest) -> ordered rest.
Proof. destruct rest; [trivial | intros [_ H]; exact H]. Qed.

Lemma non_overlapping_tail (a : Section) (rest : list Section) :
  non_overlapping (a :: rest) -> non_overlapping rest.
Proof. destruct rest; [trivial | intros [_ H]; exact H]. Qed.

(** In an ordered list without overlap, a section ends before every later
    one starts. *)
Lemma ends_before_later (sections : list Section) (m n : nat) (a b : Section) :
  ordered sections -> non_overlapping sections ->
  (m < n)%nat -> nth_error sections m = Some a -> nth_error sections n = Some b ->
  endTime a <= startTime b.
Proof.
  revert m n. induction sections as [| x rest IH]; intros m n Hord Hno Hmn Ha Hb.
  - destruct m; discriminate.
  - destruct n as [| n]; [lia |]. simpl in Hb.
    destruct m as [| m]; simpl in Ha.
    + injection Ha as ->.
      destruct rest as [| y rest']; [destruct n; discriminate |].
      destruct Hno as [Hay _]. destruct Hord as [_ Hord].
      destruct n as [| n]; simpl in Hb.
      * injection Hb as ->. exact Hay.
      * apply nth_error_In in Hb.
        pose proof (ordered_head y rest' Hord b Hb). lra.
    + apply (IH m n); try assumption; try lia.
      * eapply ordered_tail; eassumption.
      * eapply non_overlapping_tail; eassumption.
Qed.

(** The fallback of the resolution, when [findIndex] found nothing. *)
Lemma findActiveSection_unfound (sections : list Section) (t : Q) :
  (forall s, In s sections -> ~ within t s) ->
  findActiveSection sections t =
    match JS.get sections (JS.length sections - 1) with
    | Some lastSection =>
        if Qle_bool (startTime lastSection) t
        then (JS.length sections - 1)%Z else (-1)%Z
    | None => (-1)%Z
    end.
Proof.
  intro Hnone. unfold findActiveSection.
  assert (E : JS.findIndex (contains t) sections = (-1)%Z).
  { apply findIndexFrom_none; [lia |].
    intros s Hs. apply contains_false_iff. auto. }
  rewrite E. simpl.
  destruct (Z.ltb_spec 0 (JS.length sections)) as [H | H].
  - reflexivity.
  - destruct (JS.get sections (JS.length sections - 1)) eqn:G; [| reflexivity].
    apply get_Some in G. lia.
Qed.

Lemma findActiveSection_found (sections : list Section) (t : Q) (n : nat)
    (s : Section) :
  nth_error sections n = Some s -> within t s ->
  (forall m b, (m < n)%nat -> nth_error sections m = Some b -> ~ within t b) ->
  findActiveSection sections t = Z.of_nat n.
Proof.
  intros Hn Hs Hbefore. unfold findActiveSection.
  assert (E : JS.findIndex (contains t) sections = Z.of_nat n).
  { unfold JS.findIndex.
    rewrite (findIndexFrom_first _ _ 0 n s Hn); [lia | now apply contains_iff |].
    intros m b Hm Hb. apply contains_false_iff. eauto. }
  rewrite E. destruct (Z.eqb_spec (Z.of_nat n) (-1)); [lia | reflexivity].
Qed.

(** In an ordered list without overlap, the section that holds [t] is the
    one the resolution finds. *)
Lemma findActiveSection_holder (sections : list Section) (t : Q) (i : Z)
    (s : Section) :
  ordered sections -> non_overlapping sections ->
  JS.get sections i = Some s -> within t s ->
  findActiveSection sections t = i.
Proof.
  intros Hord Hno Hi Hs.
  destruct (get_Some _ _ _ Hi) as [Hrange Hnth].
  rewrite <- (Z2Nat.id i) by lia.
  apply (findActiveSection_found sections t (Z.to_nat i) s Hnth Hs).
  intros m b Hm Hb [_ Hlt].
  pose proof (ends_before_later sections m (Z.to_nat i) b s Hord Hno Hm Hb Hnth).
  destruct Hs as [Hs _]. lra.
Qed.

(** When no section holds [t], the last section is found from its start on,
    and nothing before. *)
Lemma findActiveSection_fallback (sections : list Section) (t : Q)
    (lastSection : Section) :
  (forall s, In s sections -> ~ within t s) ->
  JS.get sections (JS.length sections - 1) = Some lastSection ->
  (startTime lastSection <= t ->
     findActiveSection sections t = (JS.length sections - 1)%Z)
  /\ (t < startTime lastSection -> findActiveSection sections t = (-1)%Z).
Proof.
  intros Hnone Hlast.
  rewrite (findActiveSection_unfound sections t Hnone), Hlast. split; intro H.
  - apply Qle_bool_iff in H. rewrite H. reflexivity.
  - apply leb_false_iff in H. rewrite H. reflexivity.
Qed.

(** C3.  For a list of sections in ascending order of start time in which no
    section reaches into the next, the resolution at time [t] returns the
    index of the section whose range [[startTime, endTime)] holds [t]; when
    no section holds [t], it returns the last index if the list is not empty
    and [t] is at or after the last section's start, and -1 otherwise (the
    list is empty, or [t] is before the last section's start). *)
Theorem findActiveSection_contract (sections : list Section) (t : Q) :
  ordered sections -> non_overlapping sections ->
  (forall i s, JS.get sections i = Some s -> within t s ->
     findActiveSection sections t = i)
  /\ ((forall s, In s sections -> ~ within t s) ->
      forall lastSection,
        JS.get sections (JS.length sections - 1) = Some lastSection ->
        (startTime lastSection <= t ->
           findActiveSection sections t = (JS.length sections - 1)%Z)
        /\ (t < startTime lastSection -> findActiveSection sections t = (-1)%Z))
  /\ ((forall s, In s sections -> ~ within t s) -> sections = [] ->
      findActiveSection sections t = (-1)%Z).
Proof.
  intros Hord Hno. split; [| split].
  - intros i s. apply findActiveSection_holder; assumption.
  - intros Hnone lastSection. apply findActiveSection_fallback. exact Hnone.
  - intros _ ->. reflexivity.
Qed.

(** The resolved index is -1 or the index of a section that has started. *)
Lemma findActiveSection_range (sections : list Section) (t : Q) :
  findActiveSection sections t = (-1)%Z
  \/ exists s, JS.get sections (findActiveSection sections t) = Some s
               /\ startTime s <= t.
Proof.
  unfold findActiveSection.
  destruct (Z.eqb_spec (JS.findIndex (contains t) sections) (-1)) as [E | E].
  - rewrite E. simpl.
    destruct (0 <? JS.length sections)%Z; [| now left].
    destruct (JS.get sections (JS.length sections - 1)) as [lastSection |] eqn:G;
      [| now left].
    destruct (Qle_bool (startTime lastSection) t) eqn:L; [| now left].
    right. exists lastSection. split; [exact G | now apply Qle_bool_iff].
  - simpl. right.
    destruct (findIndex_found _ _ _ eq_refl E) as (s & G & C).
    exists s. split; [exact G |]. apply contains_iff in C. apply C.
Qed.

(** ** The progress fraction of [drawTimelineOverlay] *)

Lemma mapiFrom_length {A B : Type} (f : A -> Z -> B) (l : list A) (i : Z) :
  List.length (mapiFrom f l i) = List.length l.
Proof. revert i. induction l; intro i; simpl; [| rewrite IHl]; reflexivity. Qed.

Lemma placePills_length (pillGap : Z) (posX : Q) (ps : list Dots.PillInfo) :
  List.length (Dots.placePills pillGap posX ps) = List.length ps.
Proof. revert posX. induction ps; intro posX; simpl; [| rewrite IHps]; reflexivity. Qed.

Lemma member_in_range {A : Type} (l : list A) (i : Z) :
  (0 <= i < JS.length l)%Z -> exists a, member l i = Returned a.
Proof.
  intro H. destruct (get_in_range l i H) as [a G].
  exists a. unfold member. rewrite G. reflexivity.
Qed.

Lemma length_pos {A : Type} (l : list A) : l <> [] -> (0 < JS.length l)%Z.
Proof. destruct l; [congruence | intros _; unfold JS.length; simpl; lia]. Qed.

Section DotsProgress.

Variable measureText : TextMeasure.
Variable sections : list Section.
Variables currentTime duration canvasWidth canvasHeight : Q.
Variable transition : Transition.State.
Hypothesis nonempty : sections <> [].

(** With an active section, the renderer returns and the badge shows
    [(activeIdx + sectionProg) / numSections]. *)
Lemma drawTimelineOverlay_active (s : Section) :
  JS.get sections (Transition.activeIdx transition) = Some s ->
  exists o, Dots.drawTimelineOverlay measureText sections currentTime duration
              canvasWidth canvasHeight transition
            = Returned (Some o)
    /\ Dots.pct o = (Transition.activeIdx transition + sectionProg s currentTime)
                    / JS.length sections
    /\ Dots.sectionProgress o = sectionProg s currentTime
    /\ Dots.percent o = JS.floor (Dots.pct o * 100).
Proof.
  intro G. pose proof (length_pos _ nonempty) as Hlen.
  destruct (get_Some _ _ _ G) as [Hrange _].
  unfold Dots.drawTimelineOverlay.
  destruct (Z.eqb_spec (JS.length sections) 0) as [E | _]; [lia |].
  destruct (Z.leb_spec 0 (Transition.activeIdx transition)) as [_ | E]; [| lia].
  unfold member at 1 2. rewrite G. cbn [andThen].
  match goal with |- context [member ?ps 0%Z] =>
    destruct (member_in_range ps 0) as [firstPill ->];
    [ unfold JS.length; rewrite placePills_length; unfold mapi;
      rewrite mapiFrom_length; fold (JS.length sections); lia |];
    destruct (member_in_range ps (JS.length sections - 1)) as [lastPill ->];
    [ unfold JS.length; rewrite placePills_length; unfold mapi;
      rewrite mapiFrom_length; fold (JS.length sections); lia |]
  end.
  cbn [andThen]. eexists. split; [reflexivity |]. simpl. auto.
Qed.

(** Without one, it returns and the badge shows 0, or 1 once the last
    section has ended. *)
Lemma drawTimelineOverlay_inactive (lastSection : Section) :
  (Transition.activeIdx transition < 0)%Z ->
  JS.get sections (JS.length sections - 1) = Some lastSection ->
  exists o, Dots.drawTimelineOverlay measureText sections currentTime duration
              canvasWidth canvasHeight transition
            = Returned (Some o)
    /\ Dots.pct o = (if Qle_bool (endTime lastSection) currentTime then 1 else 0)
    /\ Dots.percent o = JS.floor (Dots.pct o * 100).
Proof.
  intros Hneg G. pose proof (length_pos _ nonempty) as Hlen.
  unfold Dots.drawTimelineOverlay.
  destruct (Z.eqb_spec (JS.length sections) 0) as [E | _]; [lia |].
  destruct (Z.leb_spec 0 (Transition.activeIdx transition)) as [E | _]; [lia |].
  unfold member at 1. rewrite G. cbn [andThen].
  match goal with |- context [member ?ps 0%Z] =>
    destruct (member_in_range ps 0) as [firstPill ->];
    [ unfold JS.length; rewrite placePills_length; unfold mapi;
      rewrite mapiFrom_length; fold (JS.length sections); lia |];
    destruct (member_in_range ps (JS.length sections - 1)) as [lastPill ->];
    [ unfold JS.length; rewrite placePills_length; unfold mapi;
      rewrite mapiFrom_length; fold (JS.length sections); lia |]
  end.
  cbn [andThen]. eexists. split; [reflexivity |]. simpl. auto.
Qed.

End DotsProgress.

Lemma sectionProg_le_1 (s : Section) (t : Q) : sectionProg s t <= 1.
Proof. apply min_le_r. Qed.

Lemma sectionProg_nonneg (s : Section) (t : Q) :
  startTime s < endTime s -> startTime s <= t -> 0 <= sectionProg s t.
Proof.
  intros Hs Ht. unfold sectionProg. apply min_glb; [| lra].
  apply Qle_shift_div_l; lra.
Qed.

Lemma sectionProg_at_start (s : Section) :
  startTime s < endTime s -> sectionProg s (startTime s) == 0.
Proof.
  intro Hs. unfold sectionProg.
  assert (E : (startTime s - startTime s) / (endTime s - startTime s) == 0).
  { field. lra. }
  rewrite min_left; [exact E | rewrite E; lra].
Qed.

Lemma sectionProg_past_end (s : Section) (t : Q) :
  startTime s < endTime s -> endTime s <= t -> sectionProg s t == 1.
Proof.
  intros Hs Ht. unfold sectionProg. apply min_right.
  apply Qle_shift_div_l; lra.
Qed.

(** The code takes only the upper half of the clamp; once the section has
    started the lower half has nothing to do. *)
Lemma sectionProg_is_clamp (s : Section) (t : Q) :
  startTime s < endTime s -> startTime s <= t ->
  sectionProg s t = intraSectionFraction s t.
Proof.
  intros Hs Ht. pose proof (sectionProg_nonneg s t Hs Ht) as H.
  unfold intraSectionFraction, clamp. fold (sectionProg s t).
  unfold JS.max. apply Qle_bool_iff in H. rewrite H. reflexivity.
Qed.

Lemma positive_length_get (sections : list Section) (i : Z) (s : Section) :
  positive_length sections -> JS.get sections i = Some s ->
  startTime s < endTime s.
Proof.
  intros Hpos G. destruct (get_Some _ _ _ G) as [_ Hnth].
  apply nth_error_In in Hnth.
  unfold positive_length in Hpos. rewrite Forall_forall in Hpos. auto.
Qed.

Lemma inject_Z_nonneg (k : Z) : (0 <= k)%Z -> 0 <= inject_Z k.
Proof. intro H. unfold Qle. simpl. lia. Qed.

Lemma inject_Z_succ_le (k n : Z) : (k < n)%Z -> inject_Z k + 1 <= inject_Z n.
Proof. intro H. unfold Qle, Qplus. simpl. lia. Qed.

Lemma fraction_in_unit (k n : Z) (x : Q) :
  (0 <= k < n)%Z -> 0 <= x <= 1 -> 0 <= (k + x) / n <= 1.
Proof.
  intros [Hk Hn] [Hx0 Hx1].
  pose proof (inject_Z_nonneg k Hk) as Hk'.
  pose proof (inject_Z_succ_le k n Hn) as Hn'.
  assert (Hpos : 0 < inject_Z n) by lra.
  split.
  - apply Qle_shift_div_l; [exact Hpos | rewrite Qmult_0_l; lra].
  - apply Qle_shift_div_r; [exact Hpos | rewrite Qmult_1_l; lra].
Qed.

Lemma percent_in_range (pct : Q) :
  0 <= pct <= 1 -> (0 <= JS.floor (pct * 100) <= 100)%Z.
Proof.
  intros [H0 H1]. unfold JS.floor.
  assert (L : 0 <= pct * 100) by lra.
  assert (U : pct * 100 <= 100) by lra.
  apply Qfloor_resp_le in L, U. split; [exact L | exact U].
Qed.

(** C10.  For a non-empty list of sections that each end after they start,
    and the active index the encoder resolves for the current time (any
    time, so the time of any frame of the loop), [drawTimelineOverlay]
    returns, its fraction [pct] lies between 0 and 1, and the number printed
    in the badge, [floor(pct * 100)], lies between 0 and 100.  The order of
    the sections plays no part. *)
Theorem badge_fraction_in_unit_interval (measureText : TextMeasure)
    (sections : list Section) (currentTime duration canvasWidth canvasHeight : Q)
    (transition : Transition.State) :
  sections <> [] -> positive_length sections ->
  Transition.activeIdx transition = findActiveSection sections currentTime ->
  exists o,
    Dots.drawTimelineOverlay measureText sections currentTime duration
      canvasWidth canvasHeight transition = Returned (Some o)
    /\ 0 <= Dots.pct o <= 1
    /\ Dots.percent o = JS.floor (Dots.pct o * 100)
    /\ (0 <= Dots.percent o <= 100)%Z.
Proof.
  intros Hne Hpos Hact.
  assert (Hgoal : exists o,
    Dots.drawTimelineOverlay measureText sections currentTime duration
      canvasWidth canvasHeight transition = Returned (Some o)
    /\ 0 <= Dots.pct o <= 1
    /\ Dots.percent o = JS.floor (Dots.pct o * 100)).
  { destruct (findActiveSection_range sections currentTime) as [E | (s & G & Hs)].
    - destruct (get_in_range sections (JS.length sections - 1)) as [lastSection L].
      { pose proof (length_pos _ Hne). lia. }
      destruct (drawTimelineOverlay_inactive measureText sections currentTime
                  duration canvasWidth canvasHeight transition Hne lastSection)
        as (o & Ho & Hpct & Hper); [lia | exact L |].
      exists o. split; [exact Ho |]. split; [| exact Hper].
      rewrite Hpct. destruct (Qle_bool (endTime lastSection) currentTime); lra.
    - rewrite <- Hact in G.
      destruct (drawTimelineOverlay_active measureText sections currentTime
                  duration canvasWidth canvasHeight transition Hne s G)
        as (o & Ho & Hpct & _ & Hper).
      exists o. split; [exact Ho |]. split; [| exact Hper].
      rewrite Hpct. apply fraction_in_unit.
      + apply (get_Some _ _ _ G).
      + split; [| apply sectionProg_le_1].
        apply sectionProg_nonneg; [| exact Hs].
        eapply positive_length_get; eassumption. }
  destruct Hgoal as (o & Ho & Hpct & Hper).
  exists o. repeat split; try assumption; try apply Hpct;
    rewrite Hper; apply percent_in_range; exact Hpct.
Qed.

(** At the start of a section of a well-formed list, that section is the
    active one. *)
Lemma active_at_start (sections : list Section) (k : Z) (s : Section) :
  positive_length sections -> ordered sections -> non_overlapping sections ->
  JS.get sections k = Some s ->
  findActiveSection sections (startTime s) = k.
Proof.
  intros Hpos Hord Hno G.
  apply (findActiveSection_holder sections (startTime s) k s Hord Hno G).
  pose proof (positive_length_get _ _ _ Hpos G). unfold within. lra.
Qed.

(** At the end of the last section of a well-formed list, the last section
    is the active one: no range holds that time, and the fallback applies. *)
Lemma active_at_end (sections : list Section) (lastSection : Section) :
  positive_length sections -> ordered sections -> non_overlapping sections ->
  JS.get sections (JS.length sections - 1) = Some lastSection ->
  findActiveSection sections (endTime lastSection) = (JS.length sections - 1)%Z.
Proof.
  intros Hpos Hord Hno G.
  pose proof (positive_length_get _ _ _ Hpos G) as Hlast.
  destruct (get_Some _ _ _ G) as [Hrange Hnth].
  apply (findActiveSection_fallback sections (endTime lastSection) lastSection);
    [| exact G | lra].
  intros b Hb [_ Hlt].
  destruct (In_nth_error _ _ Hb) as [m Hm].
  assert (Hm' : (m < List.length sections)%nat) by (apply nth_error_Some; congruence).
  unfold JS.length in *.
  destruct (Nat.eq_dec m (Z.to_nat (Z.of_nat (List.length sections) - 1))) as [-> | Hne].
  - rewrite Hnth in Hm. injection Hm as <-. lra.
  - assert (Hlt' : (m < Z.to_nat (Z.of_nat (List.length sections) - 1))%nat) by lia.
    pose proof (ends_before_later sections m _ b lastSection Hord Hno Hlt' Hm Hnth).
    lra.
Qed.

Lemma whole_fraction (n : Z) (x : Q) :
  (0 < n)%Z -> x == 1 -> ((n - 1)%Z + x) / n == 1.
Proof.
  intros Hn Hx. rewrite Hx.
  assert (E : inject_Z (n - 1) + 1 == inject_Z n).
  { unfold Qeq, Qplus. simpl. lia. }
  rewrite E. field.
  intro H. assert (0 < inject_Z n) by (unfold Qlt; simpl; lia). lra.
Qed.

Lemma start_fraction (k n : Z) (x : Q) : x == 0 -> (k + x) / n == k / n.
Proof. intro Hx. rewrite Hx, Qplus_0_r. reflexivity. Qed.

(** C2, as amended.  For a non-empty list of sections that each end after
    they start: whenever the encoder resolves the active index [k] at time
    [t], the badge fraction of [drawTimelineOverlay] is
    [(k + intraSectionFraction) / numSections].  If moreover the sections
    are in ascending order of start time and none reaches into the next,
    the fraction at the start of section [k] is [k / N] and the fraction at
    the end of the last section is 1. *)
Theorem section_weighted_progress (measureText : TextMeasure)
    (sections : list Section) (duration canvasWidth canvasHeight : Q) :
  sections <> [] -> positive_length sections ->
  (forall t transition k s,
     Transition.activeIdx transition = findActiveSection sections t ->
     findActiveSection sections t = k -> JS.get sections k = Some s ->
     exists o,
       Dots.drawTimelineOverlay measureText sections t duration
         canvasWidth canvasHeight transition = Returned (Some o)
       /\ Dots.pct o = (k + intraSectionFraction s t) / JS.length sections)
  /\ (ordered sections -> non_overlapping sections ->
      (forall k s transition,
         JS.get sections k = Some s ->
         Transition.activeIdx transition = findActiveSection sections (startTime s) ->
         exists o,
           Dots.drawTimelineOverlay measureText sections (startTime s) duration
             canvasWidth canvasHeight transition = Returned (Some o)
           /\ Dots.pct o == k / JS.length sections)
      /\ (forall lastSection transition,
            JS.get sections (JS.length sections - 1) = Some lastSection ->
            Transition.activeIdx transition
              = findActiveSection sections (endTime lastSection) ->
            exists o,
              Dots.drawTimelineOverlay measureText sections (endTime lastSection)
                duration canvasWidth canvasHeight transition = Returned (Some o)
              /\ Dots.pct o == 1)).
Proof.
  intros Hne Hpos. split; [| intros Hord Hno; split].
  - intros t transition k s Hact Hk G.
    assert (Hs : startTime s <= t).
    { destruct (findActiveSection_range sections t) as [E | (s' & G' & Hs')].
      - rewrite Hk in E. rewrite E in G. discriminate G.
      - rewrite Hk, G in G'. injection G' as <-. exact Hs'. }
    rewrite <- Hk, <- Hact in G.
    destruct (drawTimelineOverlay_active measureText sections t duration
                canvasWidth canvasHeight transition Hne s G) as (o & Ho & Hpct & _).
    exists o. split; [exact Ho |].
    rewrite Hpct, Hact, Hk. rewrite sectionProg_is_clamp; [reflexivity | | exact Hs].
    rewrite Hact in G. eapply positive_length_get; eassumption.
  - intros k s transition G Hact.
    rewrite (active_at_start sections k s Hpos Hord Hno G) in Hact.
    pose proof G as G'. rewrite <- Hact in G'.
    destruct (drawTimelineOverlay_active measureText sections (startTime s) duration
                canvasWidth canvasHeight transition Hne s G') as (o & Ho & Hpct & _).
    exists o. split; [exact Ho |].
    rewrite Hpct, Hact. apply start_fraction, sectionProg_at_start.
    eapply positive_length_get; eassumption.
  - intros lastSection transition G Hact.
    rewrite (active_at_end sections lastSection Hpos Hord Hno G) in Hact.
    pose proof G as G'. rewrite <- Hact in G'.
    destruct (drawTimelineOverlay_active measureText sections (endTime lastSection)
                duration canvasWidth canvasHeight transition Hne lastSection G')
      as (o & Ho & Hpct & _).
    exists o. split; [exact Ho |].
    rewrite Hpct, Hact. apply whole_fraction.
    + apply length_pos. exact Hne.
    + apply sectionProg_past_end; [| lra].
      eapply positive_length_get; eassumption.
Qed.

(** ** The transition tracker *)

Lemma easeOut_mono (a b : Q) : a <= b -> b <= 1 -> easeOut a <= easeOut b.
Proof. intros Hab Hb. unfold easeOut. nra. Qed.

Lemma easeOut_1 (x : Q) : x == 1 -> easeOut x == 1.
Proof. intro H. unfold easeOut. rewrite H. reflexivity. Qed.

Lemma rawT_le_1 (start t : Q) : rawT start t <= 1.
Proof. apply min_le_r. Qed.

Lemma rawT_mono (start t1 t2 : Q) : t1 <= t2 -> rawT start t1 <= rawT start t2.
Proof.
  intro H. unfold rawT. apply min_mono.
  unfold Qdiv. apply Qmult_le_compat_r; [lra | discriminate].
Qed.

Lemma window_fraction (x : Q) : x == (x / (3 # 10)) * (3 # 10).
Proof. field. Qed.

Lemma rawT_done (start t : Q) : start + (3 # 10) <= t <-> rawT start t == 1.
Proof.
  unfold rawT, JS.min.
  pose proof (window_fraction (t - start)) as W.
  destruct (Qle_bool ((t - start) / (3 # 10)) 1) eqn:E.
  - apply Qle_bool_iff in E.
    generalize dependent ((t - start) / (3 # 10)). intros y W E.
    split; intro H; lra.
  - apply leb_false_iff in E.
    generalize dependent ((t - start) / (3 # 10)). intros y W E.
    split; intro H; [reflexivity | lra].
Qed.

Section TransitionWindow.

Import Encoder.

Variable tk : Tracker.
Variable activeIdx : Z.
Variable currentTime : Q.
Hypothesis time_nonneg : 0 <= currentTime.
Hypothesis changed : activeIdx <> prevActiveIdx tk.

Lemma tracker_records :
  trackTransition tk activeIdx currentTime
  = mkTracker activeIdx (prevActiveIdx tk) currentTime.
Proof.
  unfold trackTransition.
  destruct (Z.eqb_spec activeIdx (prevActiveIdx tk)); [contradiction | reflexivity].
Qed.

Lemma tracker_keeps (later : Q) :
  trackTransition (trackTransition tk activeIdx currentTime) activeIdx later
  = trackTransition tk activeIdx currentTime.
Proof.
  rewrite tracker_records. unfold trackTransition. simpl.
  rewrite Z.eqb_refl. reflexivity.
Qed.

Lemma passed_transitionT (later : Q) :
  Transition.transitionT
    (transitionState (trackTransition tk activeIdx currentTime) activeIdx later)
  = rawT currentTime later.
Proof.
  rewrite tracker_records. unfold transitionState, transitionT. simpl.
  apply Qle_bool_iff in time_nonneg. rewrite time_nonneg. reflexivity.
Qed.

Lemma passed_leavingIdx (later : Q) :
  Transition.leavingIdx
    (transitionState (trackTransition tk activeIdx currentTime) activeIdx later)
  = if JS.ltb (rawT currentTime later) 1 then prevActiveIdx tk else (-1)%Z.
Proof.
  pose proof (passed_transitionT later) as T.
  unfold transitionState in *. simpl in *. rewrite T.
  rewrite tracker_records. reflexivity.
Qed.

End TransitionWindow.

(** C4, as amended.  On a frame (at a time >= 0) whose resolved active index
    differs from the tracker's previous one, the tracker records the
    previous index as leaving index and the current time as start of the
    transition.  On that frame and on every later frame with the same
    active index, the renderer is given [rawT] as [transitionT] and computes
    [easedT = 1 - (1 - rawT)^2]; the leaving index it is given is the
    recorded one while [rawT < 1] and -1 once [rawT] has reached 1, which is
    from [transitionStartTime + 0.3] on.  While a pill is leaving (recorded
    index >= 0, [rawT < 1]) the active pill's weight is [easedT] and the
    leaving pill's is [1 - easedT]; once [rawT] has reached 1 the active
    pill's weight is 1, which is [easedT]; when nothing is leaving (recorded
    index -1, as on the first frame) the active pill's weight is 1 for the
    whole window.  [easedT] does not decrease with time in the window and is
    1 from [transitionStartTime + 0.3] on. *)
Theorem transition_window (tk : Encoder.Tracker) (activeIdx : Z) (currentTime : Q) :
  0 <= currentTime -> activeIdx <> Encoder.prevActiveIdx tk ->
  let tk' := Encoder.trackTransition tk activeIdx currentTime in
  let leaving := Encoder.prevActiveIdx tk in
  (Encoder.leavingIdx tk' = leaving
   /\ Encoder.transitionStartTime tk' = currentTime
   /\ Encoder.prevActiveIdx tk' = activeIdx)
  /\ (forall later,
        let transition := Encoder.transitionState tk' activeIdx later in
        let easedT := easeOut (Transition.transitionT transition) in
        Encoder.trackTransition tk' activeIdx later = tk'
        /\ Transition.activeIdx transition = activeIdx
        /\ Transition.transitionT transition = rawT currentTime later
        /\ easedT = 1 - (1 - rawT currentTime later) * (1 - rawT currentTime later)
        /\ (rawT currentTime later < 1 ->
              Transition.leavingIdx transition = leaving)
        /\ (rawT currentTime later == 1 ->
              Transition.leavingIdx transition = (-1)%Z
              /\ pillT transition easedT activeIdx = 1 /\ easedT == 1)
        /\ (rawT currentTime later < 1 -> (0 <= leaving)%Z ->
              pillT transition easedT activeIdx = easedT
              /\ pillT transition easedT leaving = 1 - easedT)
        /\ ((leaving < 0)%Z -> pillT transition easedT activeIdx = 1))
  /\ (forall later, currentTime + (3 # 10) <= later <-> rawT currentTime later == 1)
  /\ (forall earlier later, earlier <= later ->
        easeOut (rawT currentTime earlier) <= easeOut (rawT currentTime later)).
Proof.
  intros Hnonneg Hchanged tk' leaving. subst leaving.
  pose proof (tracker_records tk activeIdx currentTime Hchanged) as R.
  fold tk' in R.
  split; [| split; [| split]].
  - rewrite R. auto.
  - intros later transition easedT.
    pose proof (passed_transitionT tk activeIdx currentTime Hnonneg Hchanged later) as T.
    pose proof (passed_leavingIdx tk activeIdx currentTime Hnonneg Hchanged later) as L.
    fold tk' in T, L. fold transition in T, L.
    assert (A : Transition.activeIdx transition = activeIdx) by reflexivity.
    split; [apply tracker_keeps; assumption |].
    split; [exact A |]. split; [exact T |].
    split; [subst easedT; rewrite T; reflexivity |].
    split; [| split; [| split]].
    + intro Hlt. apply ltb_iff in Hlt. rewrite L, Hlt. reflexivity.
    + intro Hdone.
      assert (Hge : JS.ltb (rawT currentTime later) 1 = false)
        by (apply ltb_false_iff; lra).
      rewrite Hge in L. split; [exact L |]. split.
      * unfold pillT. rewrite A, L, Z.eqb_refl. reflexivity.
      * subst easedT. rewrite T. apply easeOut_1. exact Hdone.
    + intros Hlt Hleaving. apply ltb_iff in Hlt. rewrite Hlt in L.
      unfold pillT. rewrite A, L, Z.eqb_refl.
      destruct (Z.leb_spec 0 (Encoder.prevActiveIdx tk)) as [_ | H]; [| lia].
      split; [reflexivity |].
      destruct (Z.eqb_spec (Encoder.prevActiveIdx tk) activeIdx) as [E | _];
        [congruence |].
      rewrite Z.eqb_refl. reflexivity.
    + intro Hnone. unfold pillT. rewrite A, L, Z.eqb_refl.
      destruct (JS.ltb (rawT currentTime later) 1);
        [destruct (Z.leb_spec 0 (Encoder.prevActiveIdx tk)) as [H | _];
           [lia | reflexivity]
        | reflexivity].
  - intro later. apply rawT_done.
  - intros earlier later Hle. apply easeOut_mono.
    + apply rawT_mono. exact Hle.
    + apply rawT_le_1.
Qed.

(** ** The renderers return *)

Lemma layoutPills_returns (pillGap : Z) (items : list (Section * Z)) :
  forall (startX : Q) (index : Z), (0 <= index)%Z ->
  exists ps, Pills.layoutPills pillGap startX index items = Returned ps.
Proof.
  induction items as [| [section pw] rest IH]; intros startX index Hindex; simpl.
  - eauto.
  - destruct (member_in_range Pills.PILL_COLORS_CANVAS
                (Z.rem index (JS.length Pills.PILL_COLORS_CANVAS))) as [c ->].
    { apply Z.rem_bound_pos; [exact Hindex | reflexivity]. }
    cbn [andThen].
    destruct (IH (startX + pw + pillGap) (index + 1)%Z ltac:(lia)) as [ps ->].
    cbn [andThen]. eauto.
Qed.

Lemma drawColoredPillsOverlay_returns (measureText : TextMeasure)
    (sections : list Section) (currentTime duration canvasWidth canvasHeight : Q)
    (transition : Transition.State) :
  exists o, Pills.drawColoredPillsOverlay measureText sections currentTime
              duration canvasWidth canvasHeight transition = Returned o.
Proof.
  unfold Pills.drawColoredPillsOverlay.
  destruct (JS.length sections =? 0)%Z; [eauto |].
  match goal with |- context [Pills.layoutPills ?g ?x 0%Z ?items] =>
    destruct (layoutPills_returns g items x 0%Z ltac:(lia)) as [ps ->]
  end.
  cbn [andThen]. eauto.
Qed.

Lemma drawTimelineOverlay_returns (measureText : TextMeasure)
    (sections : list Section) (currentTime duration canvasWidth canvasHeight : Q)
    (transition : Transition.State) :
  Transition.activeIdx transition = findActiveSection sections currentTime ->
  exists o, Dots.drawTimelineOverlay measureText sections currentTime
              duration canvasWidth canvasHeight transition = Returned o.
Proof.
  intro Hact. destruct sections as [| s0 rest] eqn:Hsections.
  - exists None. reflexivity.
  - rewrite <- Hsections in *.
    assert (Hne : sections <> []) by (rewrite Hsections; discriminate).
    destruct (findActiveSection_range sections currentTime) as [E | (s & G & _)].
    + destruct (get_in_range sections (JS.length sections - 1)) as [lastSection L].
      { pose proof (length_pos _ Hne). lia. }
      destruct (drawTimelineOverlay_inactive measureText sections currentTime
                  duration canvasWidth canvasHeight transition Hne lastSection)
        as (o & Ho & _); [lia | exact L | eauto].
    + rewrite <- Hact in G.
      destruct (drawTimelineOverlay_active measureText sections currentTime
                  duration canvasWidth canvasHeight transition Hne s G)
        as (o & Ho & _). eauto.
Qed.

Lemma drawOverlay_returns (env : Encoder.Env) (variant : Encoder.TimelineVariant)
    (sections : list Section) (currentTime duration : Q)
    (transition : Transition.State) :
  Transition.activeIdx transition = findActiveSection sections currentTime ->
  Encoder.drawOverlay env variant sections currentTime duration transition
  = Returned tt.
Proof.
  intro Hact. unfold Encoder.drawOverlay. destruct variant.
  - destruct (drawTimelineOverlay_returns (Encoder.measureText env) sections
                currentTime duration (Encoder.videoWidth env)
                (Encoder.videoHeight env) transition Hact) as [o ->].
    reflexivity.
  - destruct (drawColoredPillsOverlay_returns (Encoder.measureText env) sections
                currentTime duration (Encoder.videoWidth env)
                (Encoder.videoHeight env) transition) as [o ->].
    reflexivity.
Qed.

(** ** Runs of the encoder *)

Section Runs.

Import Encoder Expected.

Variable env : Env.
Variable sections : list Section.
Variable duration : Q.
Variable variant : TimelineVariant.
Variable onProgress : bool.

(** One turn of the loop body: it returns, and appends the events of the
    frame to the log. *)
Lemma processFrame_run (totalFrames frameIndex : Z) (tk : Tracker)
    (log : list Event) :
  processFrame env sections duration variant onProgress totalFrames frameIndex
               tk log
  = (log ++ frameEvents sections variant onProgress totalFrames frameIndex tk,
     Returned (nextTracker sections frameIndex tk)).
Proof.
  unfold processFrame, bind, emit, lift, ret.
  rewrite drawOverlay_returns by reflexivity.
  unfold frameEvents, compositing, delivery, frameTransition, nextTracker.
  destruct onProgress; repeat rewrite <- app_assoc; reflexivity.
Qed.

Lemma forEachFrame_run (totalFrames : Z) (count : nat) :
  forall (frameIndex : Z) (tk : Tracker) (log : list Event),
  Z.to_nat (totalFrames - frameIndex) = count ->
  forEachFrame totalFrames
    (processFrame env sections duration variant onProgress totalFrames)
    frameIndex tk log
  = (log ++ framesLog sections variant onProgress totalFrames
              (indicesFrom frameIndex count) tk,
     Returned (trackerAfter sections (indicesFrom frameIndex count) tk)).
Proof.
  induction count as [| count IH]; intros frameIndex tk log Hcount;
    rewrite forEachFrame_equation_1;
    destruct (Z_lt_dec frameIndex totalFrames) as [Hlt | Hge];
    try lia; cbn [forEachFrame_unfold_clause_1].
  - unfold ret. simpl. rewrite app_nil_r. reflexivity.
  - rewrite processFrame_run. cbn [forEachFrame_unfold_clause_1_clause_1].
    rewrite IH by lia.
    cbn [indicesFrom framesLog trackerAfter]. rewrite <- app_assoc. reflexivity.
Qed.

(** The loop runs to its end, whatever the log so far. *)
Lemma frameLoop_run (log : list Event) :
  frameLoop env sections duration variant onProgress log
  = (log ++ loopLog sections duration variant onProgress,
     Returned (trackerAfter sections (frameIndices (totalFramesOf duration))
                            initialTracker)).
Proof.
  unfold frameLoop, loopLog, frameIndices. apply forEachFrame_run.
  rewrite Z.sub_0_r. reflexivity.
Qed.

Lemma addAudioTrack_run :
  reachesLoop env = true ->
  addAudioTrack env [AddVideoTrack fps]
  = ([AddVideoTrack fps] ++ audioLog env, Returned tt).
Proof.
  unfold reachesLoop, audioLog, addAudioTrack, tryCatch, attempt, startOutput.
  intro H. apply andb_true_iff in H. destruct H as [_ H].
  destruct (audioFailure env) as [[| | | |] |]; try rewrite H; reflexivity.
Qed.

(** A run that reaches the loop: the log, and how the run ends. *)
Lemma encodeVideoWithOverlay_run :
  reachesLoop env = true ->
  let log := [AddVideoTrack fps] ++ audioLog env
             ++ loopLog sections duration variant onProgress
             ++ [VideoClose; Finalize] in
  run (encodeVideoWithOverlay env sections duration variant onProgress)
  = (log,
     if hasBuffer env
     then Returned (mkBlob "video/mp4" (hasAudioTrack log) (samplesOf log))
     else Thrown "No output buffer").
Proof.
  intro H. pose proof H as Hloads.
  unfold reachesLoop in Hloads. apply andb_true_iff in Hloads.
  destruct Hloads as [Hloads _].
  unfold run, encodeVideoWithOverlay, finalize.
  unfold bind at 1. rewrite Hloads. unfold ret at 1.
  unfold bind at 1. unfold emit at 1. cbn [app].
  unfold bind at 1. rewrite (addAudioTrack_run H).
  unfold bind at 1. rewrite frameLoop_run.
  unfold bind, emit. simpl.
  repeat rewrite <- app_assoc. simpl.
  destruct (hasBuffer env); reflexivity.
Qed.

End Runs.

(** ** What the muxer and the callback receive *)

Section Deliveries.

Import Encoder Expected.

Lemma samplesOf_app (a b : list Event) :
  samplesOf (a ++ b) = samplesOf a ++ samplesOf b.
Proof. apply flat_map_app. Qed.

Lemma progressOf_app (a b : list Event) :
  progressOf (a ++ b) = progressOf a ++ progressOf b.
Proof. apply flat_map_app. Qed.

Lemma samplesOf_framesLog (sections : list Section) (variant : TimelineVariant)
    (onProgress : bool) (totalFrames : Z) (indices : list Z) :
  forall tk,
  samplesOf (framesLog sections variant onProgress totalFrames indices tk)
  = map (fun frameIndex : Z => (frameIndex / fps, 1 / fps)) indices.
Proof.
  induction indices as [| frameIndex rest IH]; intro tk; [reflexivity |].
  cbn [framesLog map]. rewrite samplesOf_app, IH.
  destruct onProgress; reflexivity.
Qed.

Lemma progressOf_framesLog (sections : list Section) (variant : TimelineVariant)
    (totalFrames : Z) (indices : list Z) :
  forall tk,
  progressOf (framesLog sections variant true totalFrames indices tk)
  = map (fun frameIndex : Z => (frameIndex + 1)%Z / totalFrames) indices.
Proof.
  induction indices as [| frameIndex rest IH]; intro tk; [reflexivity |].
  cbn [framesLog map]. rewrite progressOf_app, IH. reflexivity.
Qed.

Lemma audioLog_quiet (env : Env) :
  samplesOf (audioLog env) = [] /\ progressOf (audioLog env) = [].
Proof.
  unfold audioLog, addAudioTrack, tryCatch, attempt, startOutput.
  destruct (audioFailure env) as [[| | | |] |]; try destruct (secondStart env);
    split; reflexivity.
Qed.

Lemma samplesOf_log (env : Env) (sections : list Section) (duration : Q)
    (variant : TimelineVariant) (onProgress : bool) :
  samplesOf ([AddVideoTrack fps] ++ audioLog env
             ++ loopLog sections duration variant onProgress
             ++ [VideoClose; Finalize])
  = map (fun frameIndex : Z => (frameIndex / fps, 1 / fps))
        (frameIndices (totalFramesOf duration)).
Proof.
  repeat rewrite samplesOf_app.
  rewrite (proj1 (audioLog_quiet env)). unfold loopLog.
  rewrite samplesOf_framesLog. simpl. rewrite app_nil_r. reflexivity.
Qed.

(** The video samples in the log of a run that reaches the loop. *)
Lemma samplesOf_run (env : Env) (sections : list Section) (duration : Q)
    (variant : TimelineVariant) (onProgress : bool) :
  reachesLoop env = true ->
  samplesOf (fst (run (encodeVideoWithOverlay env sections duration variant
                                               onProgress)))
  = map (fun frameIndex : Z => (frameIndex / fps, 1 / fps))
        (frameIndices (totalFramesOf duration)).
Proof.
  intro H. rewrite (encodeVideoWithOverlay_run _ _ _ _ _ H). cbn [fst].
  repeat rewrite samplesOf_app.
  rewrite (proj1 (audioLog_quiet env)). unfold loopLog.
  rewrite samplesOf_framesLog. simpl. rewrite app_nil_r. reflexivity.
Qed.

(** The values reported to a callback in such a run. *)
Lemma progressOf_run (env : Env) (sections : list Section) (duration : Q)
    (variant : TimelineVariant) :
  reachesLoop env = true ->
  progressOf (fst (run (encodeVideoWithOverlay env sections duration variant true)))
  = map (fun frameIndex : Z => (frameIndex + 1)%Z / totalFramesOf duration)
        (frameIndices (totalFramesOf duration)).
Proof.
  intro H. rewrite (encodeVideoWithOverlay_run _ _ _ _ _ H). cbn [fst].
  repeat rewrite progressOf_app.
  rewrite (proj2 (audioLog_quiet env)). unfold loopLog.
  rewrite progressOf_framesLog. simpl. rewrite app_nil_r. reflexivity.
Qed.

Lemma indicesFrom_length (frameIndex : Z) (count : nat) :
  List.length (indicesFrom frameIndex count) = count.
Proof.
  revert frameIndex. induction count as [| count IH]; intro frameIndex; simpl;
    [| rewrite IH]; reflexivity.
Qed.

Lemma indicesFrom_nth (count : nat) :
  forall (frameIndex : Z) (i : nat), (i < count)%nat ->
  nth_error (indicesFrom frameIndex count) i = Some (frameIndex + Z.of_nat i)%Z.
Proof.
  induction count as [| count IH]; intros frameIndex i Hi; [lia |].
  destruct i as [| i]; simpl.
  - rewrite Z.add_0_r. reflexivity.
  - rewrite IH by lia. f_equal. lia.
Qed.

Lemma frameIndices_length (totalFrames : Z) :
  List.length (frameIndices totalFrames) = Z.to_nat totalFrames.
Proof. apply indicesFrom_length. Qed.

Lemma frameIndices_nth (totalFrames : Z) (i : nat) :
  (i < Z.to_nat totalFrames)%nat ->
  nth_error (frameIndices totalFrames) i = Some (Z.of_nat i).
Proof. intro H. unfold frameIndices. rewrite indicesFrom_nth by exact H. reflexivity. Qed.

Lemma totalFrames_positive (duration : Q) :
  0 < duration -> (0 < totalFramesOf duration)%Z.
Proof.
  intro H. unfold totalFramesOf, JS.ceil, JS.mul.
  assert (P : 0 < duration * fps).
  { change (inject_Z fps) with 30. lra. }
  pose proof (toDouble_pos _ P) as D.
  pose proof (Qle_ceiling (JS.toDouble (duration * fps))) as C.
  assert (Q0 : 0 < inject_Z (Qceiling (JS.toDouble (duration * fps)))) by lra.
  unfold Qlt in Q0. simpl in Q0. lia.
Qed.

Lemma totalFrames_none (duration : Q) :
  duration <= 0 -> (totalFramesOf duration <= 0)%Z.
Proof.
  intro H. unfold totalFramesOf, JS.ceil, JS.mul.
  assert (P : duration * fps <= 0).
  { change (inject_Z fps) with 30. lra. }
  apply toDouble_nonpos in P.
  apply Qceiling_resp_le in P. exact P.
Qed.

(** Below 2^53 the frame count is the ceiling of the exact product or one
    less. *)
Lemma totalFrames_exact (duration : Q) :
  0 < duration -> duration * 30 < 2 ^ 53 ->
  (JS.ceil (duration * 30) - 1 <= totalFramesOf duration
   <= JS.ceil (duration * 30))%Z.
Proof.
  intros H Hbig. unfold totalFramesOf, JS.mul.
  change (inject_Z fps) with 30.
  apply ceil_toDouble; [lra | exact Hbig].
Qed.

End Deliveries.

Section Order.

Import Encoder Expected.

Lemma deliveriesOf_app (a b : list Event) :
  deliveriesOf (a ++ b) = deliveriesOf a ++ deliveriesOf b.
Proof. apply filter_app. Qed.

Lemma deliveriesOf_framesLog (sections : list Section) (variant : TimelineVariant)
    (onProgress : bool) (totalFrames : Z) (indices : list Z) :
  forall tk,
  deliveriesOf (framesLog sections variant onProgress totalFrames indices tk)
  = flat_map (delivery onProgress totalFrames) indices.
Proof.
  induction indices as [| frameIndex rest IH]; intro tk; [reflexivity |].
  cbn [framesLog flat_map]. rewrite deliveriesOf_app, IH.
  destruct onProgress; reflexivity.
Qed.

Lemma audioLog_no_delivery (env : Env) : deliveriesOf (audioLog env) = [].
Proof.
  unfold audioLog, addAudioTrack, tryCatch, attempt, startOutput.
  destruct (audioFailure env) as [[| | | |] |]; try destruct (secondStart env);
    reflexivity.
Qed.

(** Frame by frame: the frame is appended, then the progress is reported. *)
Lemma deliveriesOf_run (env : Env) (sections : list Section) (duration : Q)
    (variant : TimelineVariant) (onProgress : bool) :
  reachesLoop env = true ->
  deliveriesOf (fst (run (encodeVideoWithOverlay env sections duration variant
                                                  onProgress)))
  = flat_map (delivery onProgress (totalFramesOf duration))
             (frameIndices (totalFramesOf duration)).
Proof.
  intro H. rewrite (encodeVideoWithOverlay_run _ _ _ _ _ H). cbn [fst].
  repeat rewrite deliveriesOf_app.
  rewrite audioLog_no_delivery. unfold loopLog.
  rewrite deliveriesOf_framesLog. simpl. rewrite app_nil_r. reflexivity.
Qed.

End Order.

Lemma timestamp_step (i : nat) :
  Z.of_nat i / 30 < Z.of_nat (S i) / 30
  /\ Z.of_nat (S i) / 30 - Z.of_nat i / 30 == 1 / 30.
Proof.
  assert (E : inject_Z (Z.of_nat (S i)) == inject_Z (Z.of_nat i) + 1).
  { unfold Qeq, Qplus. simpl. lia. }
  generalize dependent (inject_Z (Z.of_nat (S i))).
  generalize (inject_Z (Z.of_nat i)). intros x y E.
  split.
  - unfold Qdiv. apply Qmult_lt_compat_r; [reflexivity | lra].
  - rewrite E. field.
Qed.

(** C1, as amended.  In a run that reaches the frame loop, for every
    duration > 0 whose thirtyfold is below 2^53 (so that the loop counter
    counts exactly), the muxer receives exactly [Math.ceil(duration * 30)]
    video frames (at least one), the product being the rounded product of
    the machine: that is the ceiling of the exact product or one less.  The
    frame of loop index [i] comes with timestamp [i / 30] and duration
    [1 / 30]; each timestamp is greater than the one before it, by [1 / 30],
    up to and including the last frame.  For duration 40 these are 1200
    frames, the first at 0 and the last at [1199 / 30]. *)
Theorem frames_and_timestamps (env : Encoder.Env) (sections : list Section)
    (variant : Encoder.TimelineVariant) (onProgress : bool) :
  Expected.reachesLoop env = true ->
  (forall duration, 0 < duration -> duration * 30 < 2 ^ 53 ->
     let totalFrames := JS.ceil (JS.mul duration 30) in
     let samples :=
       Encoder.samplesOf
         (fst (Encoder.run (Encoder.encodeVideoWithOverlay env sections duration
                                                            variant onProgress))) in
     (0 < totalFrames)%Z
     /\ (JS.ceil (duration * 30) - 1 <= totalFrames
         <= JS.ceil (duration * 30))%Z
     /\ List.length samples = Z.to_nat totalFrames
     /\ (forall i, (i < Z.to_nat totalFrames)%nat ->
           nth_error samples i = Some (Z.of_nat i / 30, 1 / 30))
     /\ (forall i a b,
           nth_error samples i = Some a -> nth_error samples (S i) = Some b ->
           fst a < fst b /\ fst b - fst a == 1 / 30))
  /\ (let samples :=
        Encoder.samplesOf
          (fst (Encoder.run (Encoder.encodeVideoWithOverlay env sections 40
                                                             variant onProgress))) in
      List.length samples = 1200%nat
      /\ nth_error samples 0 = Some (0%Z / 30, 1 / 30)
      /\ nth_error samples 1199 = Some (1199%Z / 30, 1 / 30)
      /\ 0%Z / 30 == 0 /\ 1199%Z / 30 == 1199 # 30).
Proof.
  intro Hreach.
  assert (General : forall duration,
    let totalFrames := JS.ceil (JS.mul duration 30) in
    let samples :=
      Encoder.samplesOf
        (fst (Encoder.run (Encoder.encodeVideoWithOverlay env sections duration
                                                           variant onProgress))) in
    List.length samples = Z.to_nat totalFrames
    /\ (forall i, (i < Z.to_nat totalFrames)%nat ->
          nth_error samples i = Some (Z.of_nat i / 30, 1 / 30))).
  { intros duration totalFrames samples. subst samples.
    rewrite (samplesOf_run env sections duration variant onProgress Hreach).
    fold (Encoder.totalFramesOf duration) in totalFrames. split.
    - rewrite length_map. apply frameIndices_length.
    - intros i Hi. rewrite nth_error_map, frameIndices_nth by exact Hi.
      reflexivity. }
  split.
  - intros duration Hpos Hbig totalFrames samples.
    destruct (General duration) as [Hlen Hnth].
    fold totalFrames samples in Hlen, Hnth.
    split; [apply totalFrames_positive; exact Hpos |].
    split; [apply totalFrames_exact; assumption |].
    split; [exact Hlen |]. split; [exact Hnth |].
    intros i a b Ha Hb.
    assert (Hi : (S i < Z.to_nat totalFrames)%nat).
    { rewrite <- Hlen. apply nth_error_Some. congruence. }
    rewrite Hnth in Ha, Hb by lia.
    injection Ha as <-. injection Hb as <-. cbn [fst].
    apply timestamp_step.
  - destruct (General 40) as [Hlen Hnth]. cbv zeta.
    split; [exact Hlen |].
    split; [apply (Hnth 0%nat); vm_compute; lia |].
    split; [apply (Hnth 1199%nat); vm_compute; lia |].
    split; reflexivity.
Qed.

Lemma report_mono (i j n : Z) :
  (0 < n)%Z -> (i <= j)%Z -> (i + 1)%Z / n <= (j + 1)%Z / n.
Proof.
  intros Hn Hij. unfold Qdiv. apply Qmult_le_compat_r.
  - rewrite <- Zle_Qle. lia.
  - apply Qinv_le_0_compat. unfold Qle. simpl. lia.
Qed.

Lemma report_final (n : Z) : (0 < n)%Z -> n / n == 1.
Proof.
  intro Hn. unfold Qdiv. apply Qmult_inv_r.
  intro H. unfold Qeq in H. simpl in H. lia.
Qed.

(** C5.  In a run that reaches the frame loop with a progress callback, for
    every duration > 0: frame by frame the log shows the frame appended and
    then, once, the callback invoked with [(frameIndex + 1) / totalFrames];
    there are as many reports as frames; the reported values never
    decrease; the last one is 1. *)
Theorem progress_reports (env : Encoder.Env) (sections : list Section)
    (variant : Encoder.TimelineVariant) (duration : Q) :
  Expected.reachesLoop env = true -> 0 < duration ->
  let totalFrames := JS.ceil (JS.mul duration 30) in
  let log :=
    fst (Encoder.run (Encoder.encodeVideoWithOverlay env sections duration
                                                      variant true)) in
  let reports := Encoder.progressOf log in
  Expected.deliveriesOf log
  = flat_map (fun frameIndex : Z =>
                [ Encoder.VideoAdd (frameIndex / 30) (1 / 30);
                  Encoder.Progress ((frameIndex + 1)%Z / totalFrames) ])
             (Expected.frameIndices totalFrames)
  /\ List.length reports = Z.to_nat totalFrames
  /\ List.length (Encoder.samplesOf log) = Z.to_nat totalFrames
  /\ (forall i, (i < Z.to_nat totalFrames)%nat ->
        nth_error reports i = Some ((Z.of_nat i + 1)%Z / totalFrames))
  /\ (forall i j a b, (i <= j)%nat ->
        nth_error reports i = Some a -> nth_error reports j = Some b -> a <= b)
  /\ (exists final, last reports 0 = final /\ reports <> [] /\ final == 1).
Proof.
  intros Hreach Hpos totalFrames log reports.
  assert (Htotal : (0 < totalFrames)%Z) by (apply totalFrames_positive; exact Hpos).
  assert (Hreports : reports
    = map (fun frameIndex : Z => (frameIndex + 1)%Z / totalFrames)
          (Expected.frameIndices totalFrames)).
  { subst reports log. apply progressOf_run. exact Hreach. }
  assert (Hlen : List.length reports = Z.to_nat totalFrames).
  { rewrite Hreports, length_map. apply frameIndices_length. }
  assert (Hnth : forall i, (i < Z.to_nat totalFrames)%nat ->
            nth_error reports i = Some ((Z.of_nat i + 1)%Z / totalFrames)).
  { intros i Hi. rewrite Hreports, nth_error_map, frameIndices_nth by exact Hi.
    reflexivity. }
  split; [subst log; apply deliveriesOf_run; exact Hreach |].
  split; [exact Hlen |].
  split.
  { subst log. rewrite (samplesOf_run _ _ _ _ _ Hreach), length_map.
    apply frameIndices_length. }
  split; [exact Hnth |]. split.
  - intros i j a b Hij Ha Hb.
    assert (Hj : (j < Z.to_nat totalFrames)%nat).
    { rewrite <- Hlen. apply nth_error_Some. congruence. }
    rewrite Hnth in Ha, Hb by lia.
    injection Ha as <-. injection Hb as <-.
    apply report_mono; lia.
  - exists (last reports 0).
    assert (Hne : reports <> []).
    { intro E. rewrite E in Hlen. simpl in Hlen. lia. }
    split; [reflexivity |]. split; [exact Hne |].
    destruct (exists_last Hne) as (front & final & E).
    rewrite E, last_last.
    assert (Hfinal : nth_error reports (Z.to_nat totalFrames - 1) = Some final).
    { rewrite <- Hlen, E, length_app. simpl.
      rewrite nth_error_app2 by lia.
      replace (List.length front + 1 - 1 - List.length front)%nat with 0%nat by lia.
      reflexivity. }
    rewrite Hnth in Hfinal by lia. injection Hfinal as <-.
    replace (Z.of_nat (Z.to_nat totalFrames - 1) + 1)%Z with totalFrames by lia.
    apply report_final. exact Htotal.
Qed.

(** ** Audio *)

Section Audio.

Import Encoder Expected.

Lemma hasAudioTrack_app (a b : list Event) :
  hasAudioTrack (a ++ b) = hasAudioTrack a || hasAudioTrack b.
Proof. apply existsb_app. Qed.

(** The frame loop never touches the audio track. *)
Lemma hasAudioTrack_framesLog (sections : list Section) (variant : TimelineVariant)
    (onProgress : bool) (totalFrames : Z) (indices : list Z) :
  forall tk,
  hasAudioTrack (framesLog sections variant onProgress totalFrames indices tk)
  = false.
Proof.
  induction indices as [| frameIndex rest IH]; intro tk; [reflexivity |].
  cbn [framesLog]. rewrite hasAudioTrack_app, IH.
  destruct onProgress; reflexivity.
Qed.

Lemma hasAudioTrack_run (env : Env) (sections : list Section) (duration : Q)
    (variant : TimelineVariant) (onProgress : bool) :
  hasAudioTrack ([AddVideoTrack fps] ++ audioLog env
                 ++ loopLog sections duration variant onProgress
                 ++ [VideoClose; Finalize])
  = hasAudioTrack (audioLog env).
Proof.
  repeat rewrite hasAudioTrack_app. unfold loopLog.
  rewrite hasAudioTrack_framesLog. simpl. rewrite orb_false_r. reflexivity.
Qed.

End Audio.

(** C6.  With the video loaded and a buffer produced by the muxer: if the
    fetch of the source, the audio decode or the attachment of the audio
    track fails, the run does not abort; the failure is logged, the output
    is started, the frame loop runs over all its frames and the Blob that
    is returned holds them and no audio track.  If no audio step fails, the
    audio track is attached and the output started (and the audio buffer
    added) before the frame loop, which is where every video frame is
    appended; the Blob holds the track and the frames. *)
Theorem audio_step (env : Encoder.Env) (sections : list Section)
    (duration : Q) (variant : Encoder.TimelineVariant) (onProgress : bool) :
  Encoder.videoLoads env = true -> Encoder.hasBuffer env = true ->
  let frames :=
    map (fun frameIndex : Z => (frameIndex / 30, 1 / 30))
        (Expected.frameIndices (JS.ceil (JS.mul duration 30))) in
  let outcome :=
    Encoder.run (Encoder.encodeVideoWithOverlay env sections duration variant
                                                 onProgress) in
  (forall step,
     Encoder.audioFailure env = Some step ->
     step = Encoder.FetchSource \/ step = Encoder.DecodeAudio
       \/ step = Encoder.AttachTrack ->
     fst outcome
       = [Encoder.AddVideoTrack 30; Encoder.Warn Encoder.audioWarning; Encoder.Start]
         ++ Expected.loopLog sections duration variant onProgress
         ++ [Encoder.VideoClose; Encoder.Finalize]
     /\ Encoder.samplesOf (Expected.loopLog sections duration variant onProgress)
        = frames
     /\ snd outcome = Returned (Encoder.mkBlob "video/mp4" false frames))
  /\ (Encoder.audioFailure env = None ->
      fst outcome
        = [Encoder.AddVideoTrack 30; Encoder.AddAudioTrack; Encoder.Start;
           Encoder.AudioAdd; Encoder.AudioClose]
          ++ Expected.loopLog sections duration variant onProgress
          ++ [Encoder.VideoClose; Encoder.Finalize]
      /\ Encoder.samplesOf (Expected.loopLog sections duration variant onProgress)
         = frames
      /\ snd outcome = Returned (Encoder.mkBlob "video/mp4" true frames)).
Proof.
  intros Hloads Hbuffer frames outcome.
  assert (Hframes :
    Encoder.samplesOf (Expected.loopLog sections duration variant onProgress)
    = frames).
  { unfold Expected.loopLog. apply samplesOf_framesLog. }
  assert (Hrun : Expected.reachesLoop env = true ->
    outcome
    = ([Encoder.AddVideoTrack 30] ++ Expected.audioLog env
         ++ Expected.loopLog sections duration variant onProgress
         ++ [Encoder.VideoClose; Encoder.Finalize],
       Returned (Encoder.mkBlob "video/mp4"
                   (Encoder.hasAudioTrack (Expected.audioLog env)) frames))).
  { intro Hreach. subst outcome.
    rewrite (encodeVideoWithOverlay_run _ _ _ _ _ Hreach), Hbuffer.
    rewrite hasAudioTrack_run, samplesOf_log. reflexivity. }
  split.
  - intros step Hstep Hearly.
    assert (Hlog : Expected.audioLog env
                   = [Encoder.Warn Encoder.audioWarning; Encoder.Start]).
    { unfold Expected.audioLog, Encoder.addAudioTrack, Encoder.tryCatch,
        Encoder.attempt, Encoder.startOutput.
      rewrite Hstep. destruct Hearly as [-> | [-> | ->]]; reflexivity. }
    rewrite Hrun.
    + rewrite Hlog. cbn [fst snd]. repeat split; [exact Hframes].
    + unfold Expected.reachesLoop. rewrite Hloads, Hstep.
      destruct Hearly as [-> | [-> | ->]]; reflexivity.
  - intro Hnone.
    assert (Hlog : Expected.audioLog env
                   = [Encoder.AddAudioTrack; Encoder.Start; Encoder.AudioAdd;
                      Encoder.AudioClose]).
    { unfold Expected.audioLog, Encoder.addAudioTrack, Encoder.tryCatch,
        Encoder.attempt, Encoder.startOutput.
      rewrite Hnone. reflexivity. }
    rewrite Hrun.
    + rewrite Hlog. cbn [fst snd]. repeat split; [exact Hframes].
    + unfold Expected.reachesLoop. rewrite Hloads, Hnone. reflexivity.
Qed.

(** ** A duration of zero *)

(** C7, as amended.  A duration of 0 is not rejected.  In a run that reaches
    the frame loop, [ceil(0 * 30)] is 0, the loop body never runs, no frame
    is appended and no progress is reported; the output is finalized and,
    when the muxer has produced a buffer, a Blob without video frames is
    returned, otherwise the run ends with "No output buffer".  Nothing is
    divided by the duration. *)
Theorem zero_duration_run (env : Encoder.Env) (sections : list Section)
    (variant : Encoder.TimelineVariant) (onProgress : bool) :
  Expected.reachesLoop env = true ->
  let outcome :=
    Encoder.run (Encoder.encodeVideoWithOverlay env sections 0 variant
                                                 onProgress) in
  JS.ceil (JS.mul 0 30) = 0%Z
  /\ Expected.loopLog sections 0 variant onProgress = []
  /\ fst outcome
     = [Encoder.AddVideoTrack 30] ++ Expected.audioLog env
       ++ [Encoder.VideoClose; Encoder.Finalize]
  /\ Encoder.samplesOf (fst outcome) = []
  /\ Encoder.progressOf (fst outcome) = []
  /\ snd outcome
     = if Encoder.hasBuffer env
       then Returned (Encoder.mkBlob "video/mp4"
                        (Encoder.hasAudioTrack (Expected.audioLog env)) [])
       else Thrown "No output buffer".
Proof.
  intros Hreach outcome.
  assert (Hloop : Expected.loopLog sections 0 variant onProgress = [])
    by reflexivity.
  assert (Hout : outcome
    = ([Encoder.AddVideoTrack 30] ++ Expected.audioLog env
         ++ [Encoder.VideoClose; Encoder.Finalize],
       if Encoder.hasBuffer env
       then Returned (Encoder.mkBlob "video/mp4"
                        (Encoder.hasAudioTrack (Expected.audioLog env)) [])
       else Thrown "No output buffer")).
  { subst outcome. rewrite (encodeVideoWithOverlay_run _ _ _ _ _ Hreach).
    rewrite hasAudioTrack_run, samplesOf_log, Hloop. reflexivity. }
  rewrite Hout. cbn [fst snd].
  destruct (audioLog_quiet env) as [Hs Hp].
  repeat split; try reflexivity.
  - repeat rewrite samplesOf_app. rewrite Hs. reflexivity.
  - repeat rewrite progressOf_app. rewrite Hp. reflexivity.
Qed.

(** ** Widths of the duration-proportional pills *)

Lemma round_error (x : Q) : - (1 # 2) <= JS.round x - x <= 1 # 2.
Proof.
  unfold JS.round.
  pose proof (Qfloor_le (x + (1 # 2))) as L.
  pose proof (Qlt_floor (x + (1 # 2))) as U.
  rewrite inject_Z_plus in U.
  generalize dependent (inject_Z (Qfloor (x + (1 # 2)))). intros y L U.
  change (inject_Z 1) with 1 in U. split; lra.
Qed.

Lemma fold_Qplus_acc (l : list Q) (a : Q) :
  fold_left Qplus l a == a + sumQ l.
Proof.
  unfold sumQ. revert a. induction l as [| x l IH]; intro a; simpl.
  - ring.
  - rewrite (IH (a + x)), (IH (0 + x)). ring.
Qed.

Lemma sumQ_cons (x : Q) (l : list Q) : sumQ (x :: l) == x + sumQ l.
Proof. unfold sumQ at 1. simpl. rewrite fold_Qplus_acc. ring. Qed.

Lemma fold_Zadd_acc (l : list Z) (a : Z) :
  fold_left Z.add l a = (a + sumZ l)%Z.
Proof.
  unfold sumZ. revert a. induction l as [| x l IH]; intro a; simpl.
  - lia.
  - rewrite (IH (a + x)%Z), (IH x). lia.
Qed.

Lemma sumZ_cons (x : Z) (l : list Z) : sumZ (x :: l) = (x + sumZ l)%Z.
Proof. unfold sumZ at 1. simpl. apply fold_Zadd_acc. Qed.

Lemma sumDurations_acc (sections : list Section) (a : Q) :
  fold_left (fun sum s => sum + (endTime s - startTime s)) sections a
  == a + sumQ (map (fun s => endTime s - startTime s) sections).
Proof.
  revert a. induction sections as [| s rest IH]; intro a; simpl.
  - unfold sumQ. simpl. ring.
  - rewrite IH, sumQ_cons. ring.
Qed.

Lemma sumDurations_sumQ (sections : list Section) :
  Pills.sumDurations sections
  == sumQ (map (fun s => endTime s - startTime s) sections).
Proof. unfold Pills.sumDurations. rewrite sumDurations_acc. ring. Qed.

(** Rounding each width moves the total by at most half a pixel a pill. *)
Lemma rounded_total (xs : list Q) :
  - (Z.of_nat (List.length xs) / 2)
  <= sumZ (map JS.round xs) - sumQ xs
  <= Z.of_nat (List.length xs) / 2.
Proof.
  induction xs as [| x xs IH].
  - unfold sumZ, sumQ. simpl. split; vm_compute; discriminate.
  - cbn [map List.length]. rewrite sumZ_cons, sumQ_cons.
    rewrite Nat2Z.inj_succ. unfold Z.succ. rewrite !inject_Z_plus.
    pose proof (round_error x) as E. revert IH E.
    generalize (inject_Z (sumZ (map JS.round xs))).
    generalize (inject_Z (JS.round x)).
    generalize (inject_Z (Z.of_nat (List.length xs))).
    intros n rx rs IH E. change (inject_Z 1) with 1.
    assert (H1 : (n + 1) / 2 == n / 2 + (1 # 2)) by field.
    rewrite H1. split; lra.
Qed.

(** The exact widths add up to the minimum widths plus the shares. *)
Lemma exact_total (minWidth share : Section -> Q) (sections : list Section) :
  sumQ (map (fun s => minWidth s + share s) sections)
  == sumQ (map minWidth sections) + sumQ (map share sections).
Proof.
  induction sections as [| s rest IH]; simpl.
  - unfold sumQ. simpl. ring.
  - rewrite !sumQ_cons, IH. ring.
Qed.

(** The shares use up the extra space. *)
Lemma shares_total (total extra : Q) (sections : list Section) :
  sumQ (map (fun s => (endTime s - startTime s) / total * extra) sections)
  == sumQ (map (fun s => endTime s - startTime s) sections) / total * extra.
Proof.
  induction sections as [| s rest IH]; simpl.
  - unfold sumQ. simpl. unfold Qdiv. ring.
  - rewrite !sumQ_cons, IH. unfold Qdiv. ring.
Qed.

Lemma combine_map_self {A B : Type} (f : A -> B) (l : list A) :
  combine l (map f l) = map (fun a => (a, f a)) l.
Proof. induction l; simpl; [| rewrite IHl]; reflexivity. Qed.

Section PillWidths.

Variable measureText : TextMeasure.
Variable sections : list Section.
Variables currentTime duration canvasWidth canvasHeight : Q.
Variable transition : Transition.State.
Hypothesis nonempty : sections <> [].

(** What the renderer computes for the widths, read off its text. *)
Lemma drawColoredPillsOverlay_widths :
  let S := canvasWidth / 1280 in
  let pillGap := JS.round (10 * S) in
  let minWidth := fun s : Section =>
    measureText 600%Z (JS.round (14 * S)) (name s) + JS.round (24 * S) * 2 in
  let available :=
    (JS.round (620 * S) - pillGap * (JS.length sections - 1))%Z in
  exists o,
    Pills.drawColoredPillsOverlay measureText sections currentTime duration
      canvasWidth canvasHeight transition = Returned (Some o)
    /\ Pills.totalDuration o = Pills.sumDurations sections
    /\ Pills.availableWidth o = available
    /\ Pills.minWidths o = map minWidth sections
    /\ Pills.extraSpace o = JS.max 0 (available - sumQ (map minWidth sections))
    /\ Pills.pillWidths o
       = map (fun sm => Pills.pillWidth (Pills.sumDurations sections)
                          (Pills.extraSpace o) (fst sm) (snd sm))
             (combine sections (map minWidth sections))
    /\ Pills.actualTotalWidth o
       = (sumZ (Pills.pillWidths o) + pillGap * (JS.length sections - 1))%Z.
Proof.
  cbv zeta. pose proof (length_pos _ nonempty) as Hlen.
  unfold Pills.drawColoredPillsOverlay.
  destruct (Z.eqb_spec (JS.length sections) 0) as [E | _]; [lia |].
  match goal with |- context [Pills.layoutPills ?g ?x 0%Z ?items] =>
    destruct (layoutPills_returns g items x 0%Z ltac:(lia)) as [ps ->]
  end.
  cbn [andThen]. eexists. split; [reflexivity |]. simpl.
  repeat split; reflexivity.
Qed.

End PillWidths.

(** C8, as amended.  In the duration-proportional variant, for a non-empty
    list of sections, the renderer returns; each pill's width is its minimum
    (text width plus the padding on both sides) plus its extra share,
    rounded to a whole pixel, so that it differs from minimum plus share by
    at most half a pixel.  The extra space is the available width minus the
    total of the minimums, floored at 0.  When the total duration is
    positive, the share is the section's duration over the total duration
    times the extra space, the shares add up to the extra space and, if the
    minimums fit into the available width, the widths add up to the
    available width to within half a pixel a pill.  The renderer centres the
    group on the total of the rounded widths and the gaps. *)
Theorem duration_proportional_widths (measureText : TextMeasure)
    (sections : list Section)
    (currentTime duration canvasWidth canvasHeight : Q)
    (transition : Transition.State) :
  sections <> [] ->
  let S := canvasWidth / 1280 in
  let pillGap := JS.round (10 * S) in
  let minWidth := fun s : Section =>
    measureText 600%Z (JS.round (14 * S)) (name s) + JS.round (24 * S) * 2 in
  let available :=
    (JS.round (620 * S) - pillGap * (JS.length sections - 1))%Z in
  let extraSpace := JS.max 0 (available - sumQ (map minWidth sections)) in
  let totalDuration := Pills.sumDurations sections in
  let share := fun s : Section =>
    (endTime s - startTime s) / totalDuration * extraSpace in
  let extraShare := fun s : Section =>
    if JS.ltb 0 totalDuration then share s else 0 in
  exists o,
    Pills.drawColoredPillsOverlay measureText sections currentTime duration
      canvasWidth canvasHeight transition = Returned (Some o)
    /\ Pills.minWidths o = map minWidth sections
    /\ Pills.extraSpace o = extraSpace
    /\ Pills.pillWidths o
       = map (fun s => JS.round (minWidth s + extraShare s)) sections
    /\ (forall s,
          - (1 # 2)
          <= (JS.round (minWidth s + extraShare s) - minWidth s) - extraShare s
          <= 1 # 2)
    /\ (0 < totalDuration ->
        (forall s, extraShare s = share s)
        /\ sumQ (map share sections) == extraSpace
        /\ (sumQ (map minWidth sections) <= available ->
            - (JS.length sections / 2)
            <= sumZ (Pills.pillWidths o) - available
            <= JS.length sections / 2))
    /\ Pills.actualTotalWidth o
       = (sumZ (Pills.pillWidths o) + pillGap * (JS.length sections - 1))%Z.
Proof.
  intros Hne S pillGap minWidth available extraSpace totalDuration share
         extraShare.
  destruct (drawColoredPillsOverlay_widths measureText sections currentTime
              duration canvasWidth canvasHeight transition Hne)
    as (o & Ho & _ & _ & Hmin & Hextra & Hwidths & Hactual).
  fold S in Hmin, Hextra, Hwidths, Hactual.
  fold pillGap in Hextra, Hactual. fold minWidth in Hmin, Hextra, Hwidths.
  fold available in Hextra. fold extraSpace in Hextra.
  assert (Hw : Pills.pillWidths o
               = map (fun s => JS.round (minWidth s + extraShare s)) sections).
  { rewrite Hwidths, Hextra, combine_map_self, map_map. reflexivity. }
  exists o. split; [exact Ho |]. split; [exact Hmin |]. split; [exact Hextra |].
  split; [exact Hw |]. split; [| split; [| exact Hactual]].
  - intro s. pose proof (round_error (minWidth s + extraShare s)) as E.
    split; lra.
  - intro Htotal.
    assert (Hsame : forall s, extraShare s = share s).
    { intro s. unfold extraShare. apply ltb_iff in Htotal. rewrite Htotal.
      reflexivity. }
    assert (Hshares : sumQ (map share sections) == extraSpace).
    { unfold share. rewrite shares_total. unfold totalDuration in *.
      rewrite <- sumDurations_sumQ. field. lra. }
    split; [exact Hsame |]. split; [exact Hshares |].
    intro Hfit.
    assert (Hexact : sumQ (map (fun s => minWidth s + share s) sections)
                     == available).
    { rewrite exact_total, Hshares. unfold extraSpace, JS.max.
      destruct (Qle_bool 0 (available - sumQ (map minWidth sections))) eqn:E.
      - ring.
      - apply leb_false_iff in E. lra. }
    pose proof (rounded_total (map (fun s => minWidth s + share s) sections)) as R.
    rewrite map_map, length_map, Hexact in R. rewrite Hw.
    rewrite (map_ext (fun s => JS.round (minWidth s + extraShare s))
                     (fun s => JS.round (minWidth s + share s))).
    + exact R.
    + intro s. rewrite Hsame. reflexivity.
Qed.

(** ** No sections *)

(** C9, as amended.  With no sections, both renderers of the encoder return
    without drawing anything (no badge, hence no progress value) and without
    throwing, whatever the duration, and so does the renderer call of a
    frame.  It is the live preview that falls back to the raw position: for
    a duration > 0 its tick computes [min(t / duration, 1)], which for
    [t >= 0] is [t / duration] clamped to [[0, 1]]. *)
Theorem no_sections (measureText : TextMeasure)
    (currentTime duration canvasWidth canvasHeight : Q)
    (transition : Transition.State) :
  Dots.drawTimelineOverlay measureText [] currentTime duration canvasWidth
    canvasHeight transition = Returned None
  /\ Pills.drawColoredPillsOverlay measureText [] currentTime duration
       canvasWidth canvasHeight transition = Returned None
  /\ (forall env variant,
        Encoder.drawOverlay env variant [] currentTime duration transition
        = Returned tt)
  /\ (0 < duration ->
      TimelineDots.tickPct [] duration currentTime
        = Returned (JS.min (currentTime / duration) 1)
      /\ (0 <= currentTime ->
          JS.min (currentTime / duration) 1 = clamp (currentTime / duration) 0 1
          /\ 0 <= JS.min (currentTime / duration) 1 <= 1)).
Proof.
  split; [reflexivity |]. split; [reflexivity |]. split.
  - intros env [|]; reflexivity.
  - intro Hpos. split.
    + unfold TimelineDots.tickPct. simpl.
      apply ltb_iff in Hpos. rewrite Hpos. reflexivity.
    + intro Ht.
      assert (H0 : 0 <= JS.min (currentTime / duration) 1).
      { apply min_glb; [| lra]. apply Qle_shift_div_l; lra. }
      split.
      * unfold clamp, JS.max. apply Qle_bool_iff in H0. rewrite H0. reflexivity.
      * split; [exact H0 | apply min_le_r].
Qed.

(** * The theorems at sample inputs *)

Lemma sample_sections_positive : positive_length Sample.sections.
Proof. repeat constructor. Defined.

Lemma sample_sections_ordered : ordered Sample.sections.
Proof. simpl. split; [intro H; discriminate H | exact I]. Defined.

Lemma sample_sections_apart : non_overlapping Sample.sections.
Proof. simpl. split; [intro H; discriminate H | exact I]. Defined.

Lemma sample_sections_nonempty : Sample.sections <> [].
Proof. intro H. discriminate H. Defined.

(** The example of the specification: 40 seconds make 1200 frames. *)
Lemma frames_and_timestamps_witness :
  Expected.reachesLoop Sample.env = true /\ 0 < 40 /\ 40 * 30 < 2 ^ 53
  /\ List.length
       (Encoder.samplesOf
          (fst (Encoder.run (Encoder.encodeVideoWithOverlay Sample.env
                               Sample.sections 40 Encoder.dots true))))
     = Z.to_nat (JS.ceil (JS.mul 40 30)).
Proof.
  split; [reflexivity |]. split; [reflexivity |]. split; [reflexivity |].
  exact (proj1 (proj2 (proj2 (proj1 (frames_and_timestamps Sample.env
                                       Sample.sections Encoder.dots true
                                       eq_refl) 40 eq_refl eq_refl)))).
Defined.

(** The badge at the start of the second of two sections shows one half. *)
Lemma section_weighted_progress_witness :
  Sample.sections <> [] /\ positive_length Sample.sections
  /\ ordered Sample.sections /\ non_overlapping Sample.sections
  /\ exists o,
       Dots.drawTimelineOverlay Sample.measureText Sample.sections 10 40 1280 720
         (Transition.mkState (findActiveSection Sample.sections 10) (-1) 1)
       = Returned (Some o)
       /\ Dots.pct o == 1%Z / JS.length Sample.sections.
Proof.
  split; [exact sample_sections_nonempty |].
  split; [exact sample_sections_positive |].
  split; [exact sample_sections_ordered |].
  split; [exact sample_sections_apart |].
  exact (proj1 (proj2 (section_weighted_progress Sample.measureText
                         Sample.sections 40 1280 720 sample_sections_nonempty
                         sample_sections_positive)
                  sample_sections_ordered sample_sections_apart)
           1%Z (section "Features" 10 40)
           (Transition.mkState (findActiveSection Sample.sections 10) (-1) 1)
           eq_refl eq_refl).
Defined.

(** Fifteen seconds in, the second section is the active one. *)
Lemma findActiveSection_contract_witness :
  ordered Sample.sections /\ non_overlapping Sample.sections
  /\ findActiveSection Sample.sections 15 = 1%Z.
Proof.
  split; [exact sample_sections_ordered |].
  split; [exact sample_sections_apart |].
  apply (proj1 (findActiveSection_contract Sample.sections 15
                  sample_sections_ordered sample_sections_apart)
           1%Z (section "Features" 10 40)).
  - reflexivity.
  - split; [intro H; discriminate H | reflexivity].
Defined.

(** The change from the first to the second sample section, at 10 seconds:
    the tracker records section 0 as leaving; a tenth of a second later
    [rawT] is 1/3 and [easedT] 5/9, the weight of the entering pill, and the
    leaving pill has the weight 4/9; three tenths of a second after the
    change nothing is leaving any more and the active pill's weight is 1. *)
Lemma transition_window_witness :
  0 <= 10 /\ 1%Z <> Encoder.prevActiveIdx Sample.tracking
  /\ (let tk' := Encoder.trackTransition Sample.tracking 1 10 in
      Encoder.leavingIdx tk' = 0%Z
      /\ Encoder.transitionStartTime tk' = 10
      /\ (let transition := Encoder.transitionState tk' 1 (101 # 10) in
          let easedT := easeOut (Transition.transitionT transition) in
          rawT 10 (101 # 10) == 1 # 3 /\ easedT == 5 # 9
          /\ Transition.leavingIdx transition = 0%Z
          /\ pillT transition easedT 1 = easedT
          /\ pillT transition easedT 0 = 1 - easedT)
      /\ (let transition := Encoder.transitionState tk' 1 (103 # 10) in
          let easedT := easeOut (Transition.transitionT transition) in
          rawT 10 (103 # 10) == 1
          /\ Transition.leavingIdx transition = (-1)%Z
          /\ pillT transition easedT 1 = 1)).
Proof.
  assert (H0 : 0 <= 10) by (intro H; discriminate H).
  assert (Hne : 1%Z <> Encoder.prevActiveIdx Sample.tracking)
    by (intro H; discriminate H).
  split; [exact H0 |]. split; [exact Hne |].
  destruct (transition_window Sample.tracking 1 10 H0 Hne)
    as ((Hleaving & Hstart & _) & Hlater & Hwindow & _).
  cbv zeta in Hleaving, Hstart, Hlater, Hwindow |- *.
  split; [exact Hleaving |]. split; [exact Hstart |].
  assert (Hearly : rawT 10 (101 # 10) < 1) by reflexivity.
  assert (Hdone : rawT 10 (103 # 10) == 1).
  { apply (proj1 (Hwindow (103 # 10))). intro H; discriminate H. }
  split.
  - destruct (Hlater (101 # 10)) as (_ & _ & _ & _ & Hl & _ & Hw & _).
    split; [reflexivity |]. split; [reflexivity |].
    split; [exact (Hl Hearly) |].
    exact (Hw Hearly ltac:(simpl; lia)).
  - destruct (Hlater (103 # 10)) as (_ & _ & _ & _ & _ & Hc & _).
    split; [exact Hdone |].
    split; [exact (proj1 (Hc Hdone)) | exact (proj1 (proj2 (Hc Hdone)))].
Defined.

(** A tenth of a second makes three frames and three reports. *)
Lemma progress_reports_witness :
  Expected.reachesLoop Sample.env = true /\ 0 < 1 # 10
  /\ List.length
       (Encoder.progressOf
          (fst (Encoder.run (Encoder.encodeVideoWithOverlay Sample.env
                               Sample.sections (1 # 10) Encoder.dots true))))
     = Z.to_nat (JS.ceil (JS.mul (1 # 10) 30)).
Proof.
  split; [reflexivity |]. split; [reflexivity |].
  exact (proj1 (proj2 (progress_reports Sample.env Sample.sections Encoder.dots
                         (1 # 10) eq_refl eq_refl))).
Defined.

(** The audio of the source cannot be decoded: three frames, no audio. *)
Lemma audio_step_witness :
  Encoder.videoLoads Sample.silent = true /\ Encoder.hasBuffer Sample.silent = true
  /\ Encoder.audioFailure Sample.silent = Some Encoder.DecodeAudio
  /\ snd (Encoder.run (Encoder.encodeVideoWithOverlay Sample.silent
                         Sample.sections (1 # 10) Encoder.pills true))
     = Returned (Encoder.mkBlob "video/mp4" false
                   (map (fun frameIndex : Z => (frameIndex / 30, 1 / 30))
                        (Expected.frameIndices (JS.ceil (JS.mul (1 # 10) 30))))).
Proof.
  split; [reflexivity |]. split; [reflexivity |]. split; [reflexivity |].
  exact (proj2 (proj2 (proj1 (audio_step Sample.silent Sample.sections (1 # 10)
                                Encoder.pills true eq_refl eq_refl)
                         Encoder.DecodeAudio eq_refl
                         (or_intror (or_introl eq_refl))))).
Defined.

(** A duration of zero: the muxer receives no frame. *)
Lemma zero_duration_run_witness :
  Expected.reachesLoop Sample.env = true
  /\ Encoder.samplesOf
       (fst (Encoder.run (Encoder.encodeVideoWithOverlay Sample.env
                            Sample.sections 0 Encoder.dots true)))
     = [].
Proof.
  split; [reflexivity |].
  exact (proj1 (proj2 (proj2 (proj2 (zero_duration_run Sample.env Sample.sections
                                       Encoder.dots true eq_refl))))).
Defined.

(** The pills of the two sample sections: 610 pixels to share, and widths
    that add up to them to within a pixel. *)
Lemma duration_proportional_widths_witness :
  Sample.sections <> [] /\ 0 < Pills.sumDurations Sample.sections
  /\ exists o,
       Pills.drawColoredPillsOverlay Sample.measureText Sample.sections 0 40
         1280 720 (Transition.mkState 0 (-1) 0) = Returned (Some o)
       /\ - (2%Z / 2) <= sumZ (Pills.pillWidths o) - 610%Z <= 2%Z / 2.
Proof.
  split; [exact sample_sections_nonempty |]. split; [reflexivity |].
  destruct (duration_proportional_widths Sample.measureText Sample.sections
              0 40 1280 720 (Transition.mkState 0 (-1) 0)
              sample_sections_nonempty)
    as (o & Ho & _ & _ & _ & _ & Hpositive & _).
  destruct (Hpositive eq_refl) as (_ & _ & Hsum).
  exists o. split; [exact Ho |].
  refine (Hsum _). intro H. vm_compute in H. discriminate H.
Defined.

(** The preview half-way through a video without sections. *)
Lemma no_sections_witness :
  0 < 40 /\ 0 <= 20
  /\ TimelineDots.tickPct [] 40 20 = Returned (JS.min (20 / 40) 1)
  /\ 0 <= JS.min (20 / 40) 1 <= 1.
Proof.
  assert (H20 : 0 <= 20) by (intro H; discriminate H).
  split; [reflexivity |]. split; [exact H20 |].
  destruct (proj2 (proj2 (proj2 (no_sections Sample.measureText 20 40 1280 720
                                   (Transition.mkState (-1) (-1) 1)))) eq_refl)
    as [Htick Hclamp].
  split; [exact Htick | exact (proj2 (Hclamp H20))].
Defined.

(** The badge at the very end of the video. *)
Lemma badge_fraction_in_unit_interval_witness :
  Sample.sections <> [] /\ positive_length Sample.sections
  /\ exists o,
       Dots.drawTimelineOverlay Sample.measureText Sample.sections 40 40 1280 720
         (Transition.mkState (findActiveSection Sample.sections 40) (-1) 1)
       = Returned (Some o)
       /\ 0 <= Dots.pct o <= 1 /\ (0 <= Dots.percent o <= 100)%Z.
Proof.
  split; [exact sample_sections_nonempty |].
  split; [exact sample_sections_positive |].
  destruct (badge_fraction_in_unit_interval Sample.measureText Sample.sections
              40 40 1280 720
              (Transition.mkState (findActiveSection Sample.sections 40) (-1) 1)
              sample_sections_nonempty sample_sections_positive eq_refl)
    as (o & Ho & Hpct & _ & Hpercent).
  exists o. split; [exact Ho |]. split; [exact Hpct | exact Hpercent].
Defined.

(** * Where the code goes its own way *)

(** Against C1 as stated.  The frames are counted by the ceiling of the
    rounded product.  A video of 0.1 seconds has the double nearest to 0.1
    as its duration, a little more than a tenth: thirty times that number is
    a little more than 3 and its ceiling is 4, but the product rounds to 3
    and three frames are appended.  A video of 8.3 seconds has the double
    nearest to 8.3 as its duration, again a little more: the ceiling of
    8.3 * 30 is 249, but 250 frames are appended, the last one at
    249/30 = 8.3 seconds. *)
Lemma rounded_product_frames :
  Expected.reachesLoop Sample.env = true
  /\ (0 < Sample.tenth /\ 1 # 10 < Sample.tenth
      /\ List.length
           (Encoder.samplesOf
              (fst (Encoder.run (Encoder.encodeVideoWithOverlay Sample.env
                                   Sample.sections Sample.tenth Encoder.dots
                                   true))))
         = 3%nat
      /\ JS.ceil (Sample.tenth * 30) = 4%Z)
  /\ (0 < Sample.eightThree /\ 83 # 10 < Sample.eightThree
      /\ List.length
           (Encoder.samplesOf
              (fst (Encoder.run (Encoder.encodeVideoWithOverlay Sample.env
                                   Sample.sections Sample.eightThree
                                   Encoder.dots true))))
         = 250%nat
      /\ JS.ceil ((83 # 10) * 30) = 249%Z).
Proof.
  split; [reflexivity |].
  split; (split; [reflexivity |]); (split; [reflexivity |]);
    (split; [| reflexivity]);
    rewrite samplesOf_run by reflexivity;
    rewrite length_map, frameIndices_length; reflexivity.
Qed.

(** Against C2 as stated.  Sections in ascending order of start time may
    still overlap: with the second section inside the first, the first
    stays the active one until its own end; at the start of the second
    section the badge fraction is 1/4, not 1/2, and at the end of the last
    section it is 2/5, not 1. *)
Lemma nested_sections_fraction :
  Sample.nested <> [] /\ positive_length Sample.nested /\ ordered Sample.nested
  /\ JS.get Sample.nested 1 = Some (section "B" 5 8)
  /\ JS.get Sample.nested (JS.length Sample.nested - 1) = Some (section "B" 5 8)
  /\ (findActiveSection Sample.nested 5 = 0%Z
      /\ exists o,
           Dots.drawTimelineOverlay Sample.measureText Sample.nested 5 40 1280 720
             (Transition.mkState (findActiveSection Sample.nested 5) (-1) 1)
           = Returned (Some o)
           /\ Dots.pct o == 1 # 4 /\ ~ Dots.pct o == 1%Z / 2%Z)
  /\ (findActiveSection Sample.nested 8 = 0%Z
      /\ exists o,
           Dots.drawTimelineOverlay Sample.measureText Sample.nested 8 40 1280 720
             (Transition.mkState (findActiveSection Sample.nested 8) (-1) 1)
           = Returned (Some o)
           /\ Dots.pct o == 2 # 5 /\ ~ Dots.pct o == 1).
Proof.
  split; [intro H; discriminate H |].
  split; [repeat constructor |].
  split; [simpl; split; [intro H; discriminate H | exact I] |].
  split; [reflexivity |]. split; [reflexivity |].
  split; (split; [reflexivity |]); eexists;
    (split; [vm_compute; reflexivity |]);
    (split; [reflexivity | intro H; discriminate H]).
Qed.

(** Against C4 as stated.  When nothing was active before, the pill that
    becomes active is drawn fully active at once: on the first frame of the
    sample video, and on the frame that ends a gap between two sections,
    [easedT] is 0 and the active pill's weight is 1. *)
Lemma entering_without_leaving :
  (let activeIdx := findActiveSection Sample.sections (0%Z / 30) in
   let tk := Encoder.trackTransition Encoder.initialTracker activeIdx (0%Z / 30) in
   let transition := Encoder.transitionState tk activeIdx (0%Z / 30) in
   let easedT := easeOut (Transition.transitionT transition) in
   activeIdx = 0%Z /\ activeIdx <> Encoder.prevActiveIdx Encoder.initialTracker
   /\ easedT == 0 /\ pillT transition easedT activeIdx == 1
   /\ ~ pillT transition easedT activeIdx == easedT)
  /\ (let overlays :=
        Expected.overlaysOf
          (fst (Encoder.run (Encoder.encodeVideoWithOverlay Sample.env
                               Sample.gapped 3 Encoder.dots false))) in
      exists before transition,
        nth_error overlays 59 = Some before
        /\ nth_error overlays 60 = Some transition
        /\ Transition.activeIdx before = (-1)%Z
        /\ Transition.activeIdx transition = 1%Z
        /\ easeOut (Transition.transitionT transition) == 0
        /\ ~ pillT transition (easeOut (Transition.transitionT transition)) 1
             == easeOut (Transition.transitionT transition)).
Proof.
  split.
  - cbv zeta. split; [reflexivity |]. split; [intro H; discriminate H |].
    split; [reflexivity |]. split; [reflexivity |]. intro H; discriminate H.
  - cbv zeta. eexists. eexists.
    split; [vm_compute; reflexivity |]. split; [vm_compute; reflexivity |].
    split; [reflexivity |]. split; [reflexivity |].
    split; [reflexivity |]. intro H; discriminate H.
Qed.

(** Against C7 as stated.  A duration of 0 is accepted: the run returns a
    Blob. *)
Lemma zero_duration_accepted :
  snd (Encoder.run (Encoder.encodeVideoWithOverlay Sample.env Sample.sections 0
                      Encoder.dots true))
  = Returned (Encoder.mkBlob "video/mp4" true []).
Proof. reflexivity. Qed.

(** Against C8 as stated.  The widths are rounded one by one: for the two
    sample sections the pills are 191 and 420 pixels wide, one pixel more
    than the 610 pixels available to them; for six sections of equal length
    every share ends in half a pixel and the pills take 573 pixels of the
    570 available. *)
Lemma rounded_widths_overshoot :
  (exists o,
     Pills.drawColoredPillsOverlay Sample.measureText Sample.sections 0 40
       1280 720 (Transition.mkState 0 (-1) 0) = Returned (Some o)
     /\ Pills.minWidths o = [88; 112]
     /\ Pills.pillWidths o = [191%Z; 420%Z]
     /\ Pills.availableWidth o = 610%Z
     /\ sumZ (Pills.pillWidths o) = 611%Z
     /\ Pills.actualTotalWidth o = 621%Z
     /\ JS.round (620 * (1280 / 1280)) = 620%Z)
  /\ (exists o,
        Pills.drawColoredPillsOverlay Sample.narrowText Sample.sixths 0 60
          1280 720 (Transition.mkState 0 (-1) 0) = Returned (Some o)
        /\ Pills.minWidths o = [55; 55; 55; 62; 62; 62]
        /\ Pills.extraSpace o = 219
        /\ Pills.pillWidths o = [92%Z; 92%Z; 92%Z; 99%Z; 99%Z; 99%Z]
        /\ Pills.availableWidth o = 570%Z
        /\ sumZ (Pills.pillWidths o) = 573%Z
        /\ Pills.actualTotalWidth o = 623%Z
        /\ JS.round (620 * (1280 / 1280)) = 620%Z).
Proof.
  split; eexists; (split; [vm_compute; reflexivity |]); repeat split.
Qed.

(** Against C9 as stated.  Half-way through a 40-second video without
    sections the encoder's renderer returns without having drawn anything:
    no overlay carries the fraction 1/2. *)
Lemma no_sections_no_fraction :
  Dots.drawTimelineOverlay Sample.measureText [] 20 40 1280 720
    (Transition.mkState (findActiveSection [] 20) (-1) 1) = Returned None
  /\ ~ (exists o,
          Dots.drawTimelineOverlay Sample.measureText [] 20 40 1280 720
            (Transition.mkState (findActiveSection [] 20) (-1) 1)
          = Returned (Some o)
          /\ Dots.pct o == 20 / 40).
Proof.
  split; [reflexivity |]. intros (o & H & _). discriminate H.
Qed.

(** * Further properties *)

(** ** Section resolution, continued *)

(** X1.  Whatever the list and the time, the resolution returns -1 or the
    index of a section of the list that has started by then: never an index
    outside the list, never a section that starts later. *)
Theorem findActiveSection_started (sections : list Section) (t : Q) :
  (-1 <= findActiveSection sections t < JS.length sections)%Z
  /\ (findActiveSection sections t = (-1)%Z
      \/ exists s, JS.get sections (findActiveSection sections t) = Some s
                   /\ startTime s <= t)
  /\ findActiveSection [] t = (-1)%Z.
Proof.
  split; [| split; [apply findActiveSection_range | reflexivity]].
  destruct (findActiveSection_range sections t) as [E | (s & G & _)].
  - rewrite E. unfold JS.length. lia.
  - apply get_Some in G. lia.
Qed.

(** Past the start of the first section of a gapless list, a time that no
    section holds is past the start of every section. *)
Lemma gapless_reaches (sections : list Section) (t : Q) :
  gapless sections ->
  (forall s, In s sections -> ~ within t s) ->
  (forall first, hd_error sections = Some first -> startTime first <= t) ->
  forall s, In s sections -> startTime s <= t.
Proof.
  induction sections as [| a rest IH]; intros Hgap Hnone Hfirst s Hs.
  - destruct Hs.
  - assert (Ha : startTime a <= t) by (apply Hfirst; reflexivity).
    destruct Hs as [<- | Hs]; [exact Ha |].
    apply IH; try assumption.
    + destruct rest; [exact I | apply Hgap].
    + intros x Hx. apply Hnone. right. exact Hx.
    + intros b Hb. destruct rest as [| b' rest']; [discriminate |].
      injection Hb as <-. destruct Hgap as [Hab _].
      assert (Hna : ~ within t a) by (apply Hnone; left; reflexivity).
      unfold within in Hna.
      destruct (Qlt_le_dec t (endTime a)) as [Hlt | Hge]; [tauto | lra].
Qed.

(** From the start of the first section of a non-empty gapless list on, the
    resolution finds or falls back on a section. *)
Lemma gapless_active_index (sections : list Section) (t : Q) :
  sections <> [] -> gapless sections ->
  (forall first, hd_error sections = Some first -> startTime first <= t) ->
  (0 <= findActiveSection sections t < JS.length sections)%Z.
Proof.
  intros Hne Hgap Hfirst.
  pose proof (length_pos _ Hne) as Hlen.
  destruct (findActiveSection_range sections t) as [E | (s & G & _)];
    [| apply get_Some in G; lia].
  exfalso.
  assert (Hnone : forall s, In s sections -> ~ within t s).
  { intros s Hs. apply contains_false_iff.
    unfold findActiveSection in E.
    destruct (Z.eqb_spec (JS.findIndex (contains t) sections) (-1)) as [F | F].
    - apply (proj1 (findIndexFrom_none (contains t) sections 0 ltac:(lia)) F s Hs).
    - simpl in E. contradiction. }
  destruct (get_in_range sections (JS.length sections - 1) ltac:(lia))
    as [lastSection L].
  rewrite (findActiveSection_unfound sections t Hnone), L in E.
  assert (Hlast : startTime lastSection <= t).
  { apply (gapless_reaches sections t Hgap Hnone Hfirst).
    apply get_Some in L. destruct L as [_ L]. eapply nth_error_In. exact L. }
  apply Qle_bool_iff in Hlast. rewrite Hlast in E. lia.
Qed.

(** X2.  For a non-empty list in which every section starts where the one
    before it ends, from the start of the first section on some section is
    always active: the resolution does not return -1, wherever the sections
    end. *)
Theorem gapless_always_active (sections : list Section) (t : Q) :
  sections <> [] -> gapless sections ->
  (forall first, hd_error sections = Some first -> startTime first <= t) ->
  (0 <= findActiveSection sections t < JS.length sections)%Z.
Proof. apply gapless_active_index. Qed.

(** X3.  For an ordered list without overlap the active index does not go
    back as time advances: of two times at which a section is active, the
    later one has the greater or equal index. *)
Theorem active_index_monotone (sections : list Section) (t1 t2 : Q) :
  ordered sections -> non_overlapping sections -> t1 <= t2 ->
  (0 <= findActiveSection sections t1)%Z ->
  (0 <= findActiveSection sections t2)%Z ->
  (findActiveSection sections t1 <= findActiveSection sections t2)%Z.
Proof.
  intros Hord Hno Ht H1 H2.
  destruct (findActiveSection_range sections t1) as [E1 | (s1 & G1 & Hs1)];
    [lia |].
  destruct (findActiveSection_range sections t2) as [E2 | (s2 & G2 & Hs2)];
    [lia |].
  destruct (Z_le_gt_dec (findActiveSection sections t1)
                        (findActiveSection sections t2)) as [Hle | Hgt];
    [exact Hle | exfalso].
  destruct (get_Some _ _ _ G1) as [R1 N1]. destruct (get_Some _ _ _ G2) as [R2 N2].
  (* the later time resolves an earlier section: it was found by its range *)
  assert (Hends : endTime s2 <= startTime s1).
  { apply (ends_before_later sections (Z.to_nat (findActiveSection sections t2))
             (Z.to_nat (findActiveSection sections t1)) s2 s1 Hord Hno);
      [lia | exact N2 | exact N1]. }
  assert (Hin : within t2 s2).
  { apply contains_iff.
    remember (findActiveSection sections t2) as k eqn:Hk.
    unfold findActiveSection in Hk.
    destruct (Z.eqb_spec (JS.findIndex (contains t2) sections) (-1)) as [F | F].
    - rewrite F in Hk. simpl in Hk.
      destruct (0 <? JS.length sections)%Z; [| lia].
      destruct (JS.get sections (JS.length sections - 1)); [| lia].
      destruct (Qle_bool (startTime s) t2); lia.
    - simpl in Hk.
      destruct (findIndex_found (contains t2) sections _ eq_refl F) as (a & Ga & Ca).
      rewrite <- Hk in Ga. rewrite G2 in Ga. injection Ga as ->. exact Ca. }
  destruct Hin as [_ Hlt]. lra.
Qed.

(** ** Easing and interpolation *)

(** X4.  On the unit interval [easeOut] stays in the unit interval, runs
    ahead of the linear ramp, is strictly increasing, and is 0 only at 0 and
    1 only at 1. *)
Theorem easeOut_unit_interval (t : Q) :
  0 <= t <= 1 ->
  (t <= easeOut t <= 1)
  /\ (forall u, t < u -> u <= 1 -> easeOut t < easeOut u)
  /\ (easeOut t == 0 <-> t == 0)
  /\ (easeOut t == 1 <-> t == 1).
Proof.
  intros [H0 H1]. unfold easeOut. repeat split; try nra.
  - intros u Htu Hu. nra.
Qed.

Lemma round_integer (z : Z) : JS.round z = z.
Proof.
  unfold JS.round.
  assert (L : inject_Z z <= inject_Z z + (1 # 2)) by lra.
  assert (U : inject_Z z + (1 # 2) < inject_Z (z + 1)).
  { rewrite inject_Z_plus. change (inject_Z 1) with 1. lra. }
  apply Qfloor_resp_le in L. rewrite Qfloor_Z in L.
  pose proof (Qfloor_le (inject_Z z + (1 # 2))) as F.
  assert (F' : inject_Z (Qfloor (inject_Z z + (1 # 2))) < inject_Z (z + 1)) by lra.
  rewrite <- Zlt_Qlt in F'. lia.
Qed.

Lemma round_at_integer (x : Q) (z : Z) : x == z -> JS.round x = z.
Proof.
  intro H. rewrite <- (round_integer z). unfold JS.round.
  apply Qfloor_comp. rewrite H. reflexivity.
Qed.

Lemma round_mono (x y : Q) : x <= y -> (JS.round x <= JS.round y)%Z.
Proof. intro H. unfold JS.round. apply Qfloor_resp_le. lra. Qed.

Lemma lerp_between (a b t : Q) :
  0 <= t <= 1 -> a <= b -> a <= lerp a b t <= b.
Proof. intros [H0 H1] Hab. unfold lerp. split; nra. Qed.

Lemma lerp_between_rev (a b t : Q) :
  0 <= t <= 1 -> b <= a -> b <= lerp a b t <= a.
Proof. intros [H0 H1] Hab. unfold lerp. split; nra. Qed.

(** A rounded interpolation between two integers stays between them. *)
Lemma channel_between (c1 c2 : Z) (t : Q) :
  0 <= t <= 1 ->
  (Z.min c1 c2 <= JS.round (lerp c1 c2 t) <= Z.max c1 c2)%Z.
Proof.
  intro Ht. destruct (Z_le_gt_dec c1 c2) as [H | H].
  - assert (Hq : inject_Z c1 <= inject_Z c2) by (rewrite <- Zle_Qle; exact H).
    destruct (lerp_between c1 c2 t Ht Hq) as [L U].
    apply round_mono in L, U. rewrite round_integer in L, U. lia.
  - assert (Hq : inject_Z c2 <= inject_Z c1) by (rewrite <- Zle_Qle; lia).
    destruct (lerp_between_rev c1 c2 t Ht Hq) as [L U].
    apply round_mono in L, U. rewrite round_integer in L, U. lia.
Qed.

(** X5.  For a weight in the unit interval, every channel of [lerpColor]
    between two colours with whole channels lies between the two
    corresponding channels, so a blend of two displayable colours is
    displayable; at weight 0 it is the first colour and at weight 1 the
    second. *)
Theorem lerpColor_between (r1 g1 b1 r2 g2 b2 : Z) (t : Q) :
  0 <= t <= 1 ->
  (let '(r, g, b) := lerpColor r1 g1 b1 r2 g2 b2 t in
   (Z.min r1 r2 <= r <= Z.max r1 r2)%Z
   /\ (Z.min g1 g2 <= g <= Z.max g1 g2)%Z
   /\ (Z.min b1 b2 <= b <= Z.max b1 b2)%Z)
  /\ lerpColor r1 g1 b1 r2 g2 b2 0 = (r1, g1, b1)
  /\ lerpColor r1 g1 b1 r2 g2 b2 1 = (r2, g2, b2).
Proof.
  intro Ht. unfold lerpColor. repeat split;
    try (apply channel_between; exact Ht).
  - f_equal; [f_equal |]; apply round_at_integer; unfold lerp; ring.
  - f_equal; [f_equal |]; apply round_at_integer; unfold lerp; ring.
Qed.

(** ** The tracker over a whole run *)

Lemma findActiveSection_bounds (sections : list Section) (t : Q) :
  (-1 <= findActiveSection sections t < JS.length sections)%Z.
Proof.
  destruct (findActiveSection_range sections t) as [E | (s & G & _)].
  - rewrite E. unfold JS.length. lia.
  - apply get_Some in G. lia.
Qed.

Lemma tracked_later (numSections : Z) (now later : Q) (tk : Encoder.Tracker) :
  now <= later -> tracked numSections now tk -> tracked numSections later tk.
Proof.
  intros Hle (Hp & Hl & Hneg & Hpos).
  split; [exact Hp |]. split; [exact Hl |]. split; [exact Hneg |].
  intro H. destruct (Hpos H) as [Hstart Hne]. split; [lra | exact Hne].
Qed.

(** One frame: the tracker stays as the loop needs it, it remembers the
    active index, and the renderer is given a sound transition state. *)
Lemma tracked_step (sections : list Section) (now : Q) (tk : Encoder.Tracker) :
  0 <= now -> tracked (JS.length sections) now tk ->
  let activeIdx := findActiveSection sections now in
  let tk' := Encoder.trackTransition tk activeIdx now in
  tracked (JS.length sections) now tk'
  /\ Encoder.prevActiveIdx tk' = activeIdx
  /\ sound (JS.length sections) (Encoder.transitionState tk' activeIdx now).
Proof.
  intros Hnow (Hp & Hl & Hneg & Hpos) activeIdx tk'.
  pose proof (findActiveSection_bounds sections now) as Ha. fold activeIdx in Ha.
  assert (Htk : tracked (JS.length sections) now tk'
                /\ Encoder.prevActiveIdx tk' = activeIdx).
  { subst tk'. unfold Encoder.trackTransition.
    destruct (Z.eqb_spec activeIdx (Encoder.prevActiveIdx tk)) as [E | E]; simpl.
    - split; [exact (conj Hp (conj Hl (conj Hneg Hpos))) | symmetry; exact E].
    - split; [| reflexivity]. unfold tracked. simpl.
      split; [lia |]. split; [lia |]. split; [intro C; lra |].
      intros _. split; [lra | congruence]. }
  destruct Htk as [Htk' Hprev]. pose proof Htk' as (Hp' & Hl' & Hneg' & Hpos').
  split; [exact Htk' |]. split; [exact Hprev |].
  unfold sound, Encoder.transitionState, Encoder.transitionT. simpl.
  destruct (Qle_bool 0 (Encoder.transitionStartTime tk')) eqn:Hstart.
  - apply Qle_bool_iff in Hstart. destruct (Hpos' Hstart) as [Hle Hne].
    assert (Hraw : 0 <= JS.min ((now - Encoder.transitionStartTime tk')
                                / Encoder.TRANSITION_DURATION) 1).
    { apply min_glb; [| lra]. apply Qle_shift_div_l; [reflexivity | lra]. }
    split; [split; [exact Hraw | apply min_le_r] |].
    split; [exact Ha |].
    destruct (JS.ltb _ 1); [| split; [lia | left; reflexivity]].
    split; [exact Hl' |]. right. rewrite <- Hprev. exact Hne.
  - apply leb_false_iff in Hstart.
    split; [lra |]. split; [exact Ha |].
    assert (E : JS.ltb 1 1 = false) by reflexivity. rewrite E.
    split; [lia | left; reflexivity].
Qed.

Section LoopOverlays.

Import Encoder Expected.

Variable sections : list Section.
Variable variant : TimelineVariant.
Variable onProgress : bool.
Variable totalFrames : Z.

(** Every renderer call in the log of the loop comes from a frame of the
    loop, at the time of that frame, with the index resolved at that time
    and a sound transition state. *)
Lemma framesLog_overlays (count : nat) :
  forall (frameIndex : Z) (tk : Tracker),
  (0 <= frameIndex)%Z ->
  tracked (JS.length sections) (frameIndex / fps) tk ->
  forall v t transition,
  In (DrawOverlay v t transition)
     (framesLog sections variant onProgress totalFrames
                (indicesFrom frameIndex count) tk) ->
  v = variant
  /\ (exists i, (frameIndex <= i < frameIndex + Z.of_nat count)%Z /\ t = i / fps)
  /\ Transition.activeIdx transition = findActiveSection sections t
  /\ sound (JS.length sections) transition.
Proof.
  induction count as [| count IH]; intros frameIndex tk Hindex Htk v t transition Hin.
  - destruct Hin.
  - cbn [indicesFrom framesLog] in Hin. apply in_app_or in Hin.
    assert (Hnow : 0 <= frameIndex / fps).
    { apply Qle_shift_div_l; [reflexivity |].
      rewrite Qmult_0_l. apply inject_Z_nonneg. exact Hindex. }
    destruct (tracked_step sections (frameIndex / fps) tk Hnow Htk)
      as (Hnext & _ & Hsound).
    destruct Hin as [Hin | Hin].
    + unfold frameEvents, compositing, delivery in Hin.
      assert (E : DrawOverlay variant (frameIndex / fps)
                    (frameTransition sections frameIndex tk)
                  = DrawOverlay v t transition).
      { simpl in Hin.
        destruct Hin as [H | [H | [H | [H | H]]]]; try discriminate H;
          [exact H |].
        destruct onProgress; simpl in H; [destruct H as [H | []] | destruct H];
          discriminate H. }
      injection E as <- <- <-.
      split; [reflexivity |]. split; [exists frameIndex; split; [lia | reflexivity] |].
      split; [reflexivity | exact Hsound].
    + destruct (IH (frameIndex + 1)%Z (nextTracker sections frameIndex tk)
                  ltac:(lia)) with (v := v) (t := t) (transition := transition)
        as (Hv & (i & Hi & Ht) & Hact & Hs); [| exact Hin |].
      * apply (tracked_later _ (frameIndex / fps)); [| exact Hnext].
        unfold Qdiv. apply Qmult_le_compat_r; [| discriminate].
        rewrite <- Zle_Qle. lia.
      * split; [exact Hv |]. split; [exists i; split; [lia | exact Ht] |].
        split; assumption.
Qed.

End LoopOverlays.

Lemma tracked_initially (numSections : Z) (now : Q) :
  (0 <= numSections)%Z -> tracked numSections now Encoder.initialTracker.
Proof.
  intro H. unfold tracked, Encoder.initialTracker. simpl.
  split; [lia |]. split; [lia |]. split; [reflexivity |].
  intro C. exfalso. lra.
Qed.

(** A run that does not reach the loop never calls a renderer. *)
Lemma no_overlay_before_loop (env : Encoder.Env) (sections : list Section)
    (duration : Q) (variant : Encoder.TimelineVariant) (onProgress : bool) :
  Expected.reachesLoop env = false ->
  forall v t transition,
  ~ In (Encoder.DrawOverlay v t transition)
       (fst (Encoder.run (Encoder.encodeVideoWithOverlay env sections duration
                                                          variant onProgress))).
Proof.
  unfold Expected.reachesLoop. intros H v t transition.
  unfold Encoder.run, Encoder.encodeVideoWithOverlay.
  destruct (Encoder.videoLoads env) eqn:Hloads.
  - simpl in H. unfold Encoder.bind at 1. unfold Encoder.ret at 1.
    unfold Encoder.bind at 1. unfold Encoder.emit at 1. cbn [app].
    unfold Encoder.bind at 1.
    unfold Encoder.addAudioTrack, Encoder.tryCatch, Encoder.attempt,
      Encoder.startOutput.
    destruct (Encoder.audioFailure env) as [[| | | |] |]; try discriminate H;
      rewrite H; simpl; intuition discriminate.
  - unfold Encoder.bind at 1. unfold Encoder.throw. simpl. tauto.
Qed.

Lemma audioLog_no_overlay (env : Encoder.Env) v t transition :
  ~ In (Encoder.DrawOverlay v t transition) (Expected.audioLog env).
Proof.
  unfold Expected.audioLog, Encoder.addAudioTrack, Encoder.tryCatch,
    Encoder.attempt, Encoder.startOutput.
  destruct (Encoder.audioFailure env) as [[| | | |] |];
    try destruct (Encoder.secondStart env); simpl; intuition discriminate.
Qed.

(** X6.  In every run of the encoder, every call of a renderer is the call
    of a frame of the loop: it is made for the variant asked for, at the
    time [i / 30] of a frame index below the frame count (which, for an
    exact product below 2^53, is at most the ceiling of the exact product),
    with the active index resolved for that time, a transition progress in
    the unit interval, and a leaving index that is -1 or the index of
    another section than the active one. *)
Theorem renderer_calls_sound (env : Encoder.Env) (sections : list Section)
    (duration : Q) (variant : Encoder.TimelineVariant) (onProgress : bool)
    (v : Encoder.TimelineVariant) (t : Q) (transition : Transition.State) :
  In (Encoder.DrawOverlay v t transition)
     (fst (Encoder.run (Encoder.encodeVideoWithOverlay env sections duration
                                                        variant onProgress))) ->
  v = variant
  /\ (exists i, (0 <= i < JS.ceil (JS.mul duration 30))%Z
                /\ (duration * 30 < 2 ^ 53 -> (i < JS.ceil (duration * 30))%Z)
                /\ t = i / 30)
  /\ Transition.activeIdx transition = findActiveSection sections t
  /\ sound (JS.length sections) transition.
Proof.
  intro Hin. destruct (Expected.reachesLoop env) eqn:Hreach.
  - rewrite (encodeVideoWithOverlay_run _ _ _ _ _ Hreach) in Hin. cbn [fst] in Hin.
    apply in_app_or in Hin. destruct Hin as [[H | []] | Hin]; [discriminate H |].
    apply in_app_or in Hin.
    destruct Hin as [Hin | Hin]; [exfalso; eapply audioLog_no_overlay; eassumption |].
    apply in_app_or in Hin.
    destruct Hin as [Hin | [H | [H | []]]]; try discriminate H.
    unfold Expected.loopLog, Expected.frameIndices in Hin.
    assert (Hzero : (0 <= 0)%Z) by lia.
    assert (Hinit : tracked (JS.length sections) (0%Z / Encoder.fps)
                      Encoder.initialTracker).
    { apply tracked_initially. unfold JS.length. lia. }
    destruct (framesLog_overlays sections variant onProgress
                (Encoder.totalFramesOf duration)
                (Z.to_nat (Encoder.totalFramesOf duration)) 0
                Encoder.initialTracker Hzero Hinit v t transition Hin)
      as (Hv & (i & Hi & Ht) & Hact & Hsound).
    split; [exact Hv |]. split; [| split; assumption].
    exists i.
    change (JS.ceil (JS.mul duration 30)) with (Encoder.totalFramesOf duration).
    split; [lia |]. split; [| exact Ht].
    intro Hbig. destruct (Qlt_le_dec 0 duration) as [Hpos | Hneg].
    + pose proof (totalFrames_exact duration Hpos Hbig). lia.
    + pose proof (totalFrames_none duration Hneg). lia.
  - exfalso. eapply no_overlay_before_loop; eassumption.
Qed.

Lemma sumQ_map_plus {A : Type} (f g : A -> Q) (l : list A) :
  sumQ (map (fun a => f a + g a) l) == sumQ (map f l) + sumQ (map g l).
Proof.
  induction l as [| a l IH]; simpl.
  - unfold sumQ. simpl. ring.
  - rewrite !sumQ_cons, IH. ring.
Qed.

Lemma sumQ_map_ext {A : Type} (f g : A -> Q) (l : list A) :
  (forall a, In a l -> f a == g a) -> sumQ (map f l) == sumQ (map g l).
Proof.
  induction l as [| a l IH]; intro H; simpl; [reflexivity |].
  rewrite !sumQ_cons.
  assert (Ha : f a == g a) by (apply H; left; reflexivity).
  assert (Hl : sumQ (map f l) == sumQ (map g l))
    by (apply IH; intros b Hb; apply H; right; exact Hb).
  rewrite Ha, Hl. reflexivity.
Qed.

(** A weight that sits on one index counts once over a range that holds the
    index, and not at all over one that does not. *)
Lemma sumQ_single (x : Q) (a : Z) (count : nat) :
  forall start,
  sumQ (map (fun i => if (i =? a)%Z then x else 0)
            (Expected.indicesFrom start count))
  == if ((start <=? a) && (a <? start + Z.of_nat count))%Z then x else 0.
Proof.
  induction count as [| count IH]; intro start.
  - simpl. replace (start + 0)%Z with start by lia.
    destruct (Z.leb_spec start a), (Z.ltb_spec a start); simpl;
      try reflexivity; lia.
  - cbn [Expected.indicesFrom map]. rewrite sumQ_cons, IH.
    destruct (Z.eqb_spec start a) as [E | E].
    + subst a.
      destruct (Z.leb_spec (start + 1) start); [lia |].
      destruct (Z.leb_spec start start); [| lia].
      destruct (Z.ltb_spec start (start + Z.of_nat (S count))); [| lia].
      simpl. ring.
    + destruct (Z.leb_spec (start + 1) a), (Z.leb_spec start a),
        (Z.ltb_spec a (start + 1 + Z.of_nat count)),
        (Z.ltb_spec a (start + Z.of_nat (S count))); simpl; try ring; lia.
Qed.

Lemma indicesFrom_In (count : nat) :
  forall start i, In i (Expected.indicesFrom start count) ->
  (start <= i < start + Z.of_nat count)%Z.
Proof.
  induction count as [| count IH]; intros start i Hi; [destruct Hi |].
  destruct Hi as [<- | Hi]; [lia |]. apply IH in Hi. lia.
Qed.

(** X7.  For a sound transition state, every pill's animated weight lies in
    the unit interval, at most the active and the leaving pill have a weight
    other than 0, and while a section is active the weights of all pills add
    up to 1. *)
Theorem pill_weights (numSections : Z) (transition : Transition.State) :
  sound numSections transition ->
  let easedT := easeOut (Transition.transitionT transition) in
  (forall index, 0 <= pillT transition easedT index <= 1)
  /\ (forall index,
        index <> Transition.activeIdx transition ->
        index <> Transition.leavingIdx transition ->
        pillT transition easedT index = 0)
  /\ ((0 <= Transition.activeIdx transition)%Z ->
      sumQ (map (pillT transition easedT)
                (Expected.indicesFrom 0 (Z.to_nat numSections)))
      == 1).
Proof.
  intros (HT & Ha & Hl & Hne) easedT.
  assert (He : 0 <= easedT <= 1).
  { subst easedT. unfold easeOut. split; nra. }
  split; [| split].
  - intro index. unfold pillT.
    destruct (index =? Transition.activeIdx transition)%Z.
    + destruct (0 <=? Transition.leavingIdx transition)%Z; lra.
    + destruct (index =? Transition.leavingIdx transition)%Z; lra.
  - intros index H1 H2. unfold pillT.
    destruct (Z.eqb_spec index (Transition.activeIdx transition)); [contradiction |].
    destruct (Z.eqb_spec index (Transition.leavingIdx transition)); [contradiction |].
    reflexivity.
  - intro Hactive.
    set (a := Transition.activeIdx transition) in *.
    set (l := Transition.leavingIdx transition) in *.
    set (x := if (0 <=? l)%Z then easedT else 1).
    rewrite (sumQ_map_ext _
               (fun i => (if (i =? a)%Z then x else 0)
                         + (if (i =? l)%Z then 1 - easedT else 0))).
    + rewrite sumQ_map_plus, !sumQ_single. subst x.
      replace (0 + Z.of_nat (Z.to_nat numSections))%Z with numSections by lia.
      destruct (Z.leb_spec 0 a); [| lia]. destruct (Z.ltb_spec a numSections); [| lia].
      destruct (Z.leb_spec 0 l), (Z.ltb_spec l numSections); simpl; try ring; lia.
    + intros i Hi. apply indicesFrom_In in Hi. unfold pillT. fold a l. subst x.
      destruct (Z.eqb_spec i a) as [Ea | Ea], (Z.eqb_spec i l) as [El | El];
        try ring.
      destruct Hne as [Hne | Hne]; [lia | congruence].
Qed.

(** ** The layout of the pills in [drawTimelineOverlay] *)

Lemma fold_widths (ps : list Dots.PillInfo) (a : Q) :
  fold_left (fun acc p => acc + Dots.width p) ps a
  == a + sumQ (map Dots.width ps).
Proof.
  revert a. induction ps as [| p ps IH]; intro a; simpl.
  - unfold sumQ. simpl. ring.
  - rewrite IH, sumQ_cons. ring.
Qed.

Lemma placePills_widths (pillGap : Z) (ps : list Dots.PillInfo) :
  forall posX, map Dots.width (Dots.placePills pillGap posX ps) = map Dots.width ps.
Proof.
  induction ps as [| p ps IH]; intro posX; simpl; [| rewrite IH]; reflexivity.
Qed.

(** Placed pills follow each other from [posX] on, [pillGap] apart. *)
Lemma placePills_chain (pillGap : Z) (ps : list Dots.PillInfo) :
  forall posX,
  let placed := Dots.placePills pillGap posX ps in
  (forall first, hd_error placed = Some first ->
     Dots.centerX first - Dots.width first / 2 == posX)
  /\ (forall i p q,
        nth_error placed i = Some p -> nth_error placed (S i) = Some q ->
        Dots.centerX q - Dots.width q / 2
        == Dots.centerX p + Dots.width p / 2 + pillGap)
  /\ (forall final, nth_error placed (List.length ps - 1) = Some final ->
        Dots.centerX final + Dots.width final / 2
        == posX + sumQ (map Dots.width ps)
           + pillGap * (Z.of_nat (List.length ps) - 1)%Z).
Proof.
  induction ps as [| p ps IH]; intro posX; cbn zeta.
  - split; [intros first H; discriminate H |].
    split; [intros [| i] a b H; discriminate H | intros final H; discriminate H].
  - cbn [Dots.placePills].
    destruct (IH (posX + Dots.width p + pillGap)) as (Hfirst & Hnext & Hlast).
    cbn zeta in Hfirst, Hnext, Hlast.
    split; [| split].
    + intros first H. injection H as <-. simpl. field.
    + intros [| i] a b Ha Hb; simpl in Ha, Hb.
      * injection Ha as <-. simpl.
        rewrite (Hfirst b) by (destruct (Dots.placePills _ _ ps); [discriminate | exact Hb]).
        field.
      * apply (Hnext i a b Ha Hb).
    + intros final H. cbn [map]. rewrite sumQ_cons.
      destruct ps as [| p' ps'].
      * simpl in H. injection H as <-. simpl. unfold sumQ. simpl. field.
      * replace (List.length (p :: p' :: ps') - 1)%nat
          with (S (List.length (p' :: ps') - 1)) in H by (simpl; lia).
        cbn [nth_error] in H. rewrite (Hlast final H).
        replace (Z.of_nat (List.length (p :: p' :: ps')) - 1)%Z
          with ((Z.of_nat (List.length (p' :: ps')) - 1) + 1)%Z
          by (cbn [List.length]; lia).
        rewrite inject_Z_plus. change (inject_Z 1) with 1. ring.
Qed.

Section DotsLayout.

Variable measureText : TextMeasure.
Variable sections : list Section.
Variables currentTime duration canvasWidth canvasHeight : Q.
Variable transition : Transition.State.

(** What a call that has drawn something has computed for the pills and
    the badge. *)
Lemma drawTimelineOverlay_pills (o : Dots.Overlay) :
  Dots.drawTimelineOverlay measureText sections currentTime duration
    canvasWidth canvasHeight transition = Returned (Some o) ->
  exists measured firstPill lastPill,
    List.length measured = List.length sections
    /\ Dots.pills o
       = Dots.placePills (JS.round (10 * (canvasWidth / 1280)))
                         ((canvasWidth - Dots.totalWidth o) / 2) measured
    /\ Dots.totalWidth o
       = fold_left (fun acc p => acc + Dots.width p) measured 0
         + JS.round (10 * (canvasWidth / 1280)) * (JS.length sections - 1)%Z
    /\ member (Dots.pills o) 0 = Returned firstPill
    /\ member (Dots.pills o) (JS.length sections - 1) = Returned lastPill
    /\ Dots.badgeX o
       = Dots.centerX firstPill
         + Dots.pct o
           * JS.max (Dots.centerX lastPill - Dots.centerX firstPill) 1
    /\ Dots.percent o = JS.floor (Dots.pct o * 100).
Proof.
  unfold Dots.drawTimelineOverlay.
  destruct (JS.length sections =? 0)%Z; [discriminate |].
  destruct (0 <=? Transition.activeIdx transition)%Z.
  - destruct (member sections (Transition.activeIdx transition)) as [s | msg];
      cbn [andThen]; [| discriminate].
    match goal with |- context [member ?ps 0%Z] =>
      destruct (member ps 0%Z) as [firstPill | msg] eqn:Hfirst;
        cbn [andThen]; [| discriminate];
      destruct (member ps (JS.length sections - 1)) as [lastPill | msg'] eqn:Hlast;
        cbn [andThen]; [| discriminate]
    end.
    intro H. injection H as <-. cbn [Dots.pills Dots.totalWidth Dots.badgeX
                                      Dots.pct Dots.percent].
    eexists. exists firstPill, lastPill.
    split; [| split; [reflexivity | split; [reflexivity |
      split; [exact Hfirst | split; [exact Hlast | split; reflexivity]]]]].
    unfold mapi. apply mapiFrom_length.
  - destruct (member sections (JS.length sections - 1)) as [s | msg];
      cbn [andThen]; [| discriminate].
    match goal with |- context [member ?ps 0%Z] =>
      destruct (member ps 0%Z) as [firstPill | msg] eqn:Hfirst;
        cbn [andThen]; [| discriminate];
      destruct (member ps (JS.length sections - 1)) as [lastPill | msg'] eqn:Hlast;
        cbn [andThen]; [| discriminate]
    end.
    intro H. injection H as <-. cbn [Dots.pills Dots.totalWidth Dots.badgeX
                                      Dots.pct Dots.percent].
    eexists. exists firstPill, lastPill.
    split; [| split; [reflexivity | split; [reflexivity |
      split; [exact Hfirst | split; [exact Hlast | split; reflexivity]]]]].
    unfold mapi. apply mapiFrom_length.
Qed.

End DotsLayout.

(** X8.  Whenever [drawTimelineOverlay] draws, it draws one pill per
    section, the first pill's left edge at (canvasWidth - totalWidth) / 2,
    each next pill's left edge [pillGap] right of its neighbour's right
    edge, and the last pill's right edge as far from the right border of the
    canvas as the first pill's left edge is from the left border: the row is
    centred, whatever the text measures and whatever the transition state. *)
Theorem pills_row_centred (measureText : TextMeasure)
    (sections : list Section) (currentTime duration canvasWidth canvasHeight : Q)
    (transition : Transition.State) (o : Dots.Overlay) :
  Dots.drawTimelineOverlay measureText sections currentTime duration
    canvasWidth canvasHeight transition = Returned (Some o) ->
  let pillGap := JS.round (10 * (canvasWidth / 1280)) in
  let margin := (canvasWidth - Dots.totalWidth o) / 2 in
  List.length (Dots.pills o) = List.length sections
  /\ Dots.totalWidth o
     == sumQ (map Dots.width (Dots.pills o))
        + pillGap * (JS.length sections - 1)%Z
  /\ (forall first, hd_error (Dots.pills o) = Some first ->
        Dots.centerX first - Dots.width first / 2 == margin)
  /\ (forall i p q,
        nth_error (Dots.pills o) i = Some p ->
        nth_error (Dots.pills o) (S i) = Some q ->
        Dots.centerX q - Dots.width q / 2
        == Dots.centerX p + Dots.width p / 2 + pillGap)
  /\ (forall final,
        nth_error (Dots.pills o) (List.length sections - 1) = Some final ->
        Dots.centerX final + Dots.width final / 2 == canvasWidth - margin).
Proof.
  intros H pillGap margin.
  destruct (drawTimelineOverlay_pills _ _ _ _ _ _ _ _ H)
    as (measured & firstPill & lastPill & Hlen & Hpills & Htotal & _).
  fold pillGap in Hpills, Htotal. fold margin in Hpills.
  assert (Hsum : Dots.totalWidth o
                 == sumQ (map Dots.width measured)
                    + pillGap * (JS.length sections - 1)%Z).
  { rewrite Htotal, fold_widths. ring. }
  destruct (placePills_chain pillGap measured margin) as (Hfirst & Hnext & Hlast).
  cbn zeta in Hfirst, Hnext, Hlast. rewrite <- Hpills in Hfirst, Hnext, Hlast.
  split; [rewrite Hpills, placePills_length; exact Hlen |].
  split; [rewrite Hpills, placePills_widths; exact Hsum |].
  split; [exact Hfirst |]. split; [exact Hnext |].
  intros final Hfinal. rewrite <- Hlen in Hfinal.
  rewrite (Hlast final Hfinal).
  unfold JS.length in Hsum. rewrite <- Hlen in Hsum.
  unfold margin at 2. rewrite Hsum. unfold margin. rewrite Hsum. field.
Qed.

Lemma max_ge_r (a b : Q) : b <= JS.max a b.
Proof.
  unfold JS.max. destruct (Qle_bool a b) eqn:E; [lra |].
  apply leb_false_iff in E. lra.
Qed.

Lemma max_ge_l (a b : Q) : a <= JS.max a b.
Proof.
  unfold JS.max. destruct (Qle_bool a b) eqn:E; [| lra].
  apply Qle_bool_iff in E. exact E.
Qed.

Lemma max_left (a b : Q) : b <= a -> JS.max a b == a.
Proof.
  intro H. unfold JS.max. destruct (Qle_bool a b) eqn:E; [| reflexivity].
  apply Qle_bool_iff in E. lra.
Qed.

(** Before the last section starts, and with nothing found, the index is
    [-1]; and only then. *)
Lemma findActiveSection_before_last (sections : list Section) (t : Q)
    (lastSection : Section) :
  findActiveSection sections t = (-1)%Z ->
  JS.get sections (JS.length sections - 1) = Some lastSection ->
  t < startTime lastSection.
Proof.
  intros E G. destruct (get_Some _ _ _ G) as [Hrange _].
  unfold findActiveSection in E. rewrite G in E.
  destruct (Z.eqb_spec (JS.findIndex (contains t) sections) (-1)) as [F | F];
    [| simpl in E; contradiction].
  destruct (Z.ltb_spec 0 (JS.length sections)) as [L | L]; [| lia].
  simpl in E.
  destruct (Qle_bool (startTime lastSection) t) eqn:B; [lia |].
  apply leb_false_iff. exact B.
Qed.

(** The fraction of a call that has drawn something, for the index the
    encoder resolves. *)
Lemma drawTimelineOverlay_pct (measureText : TextMeasure)
    (sections : list Section) (currentTime duration canvasWidth canvasHeight : Q)
    (transition : Transition.State) (o : Dots.Overlay) :
  positive_length sections ->
  Transition.activeIdx transition = findActiveSection sections currentTime ->
  Dots.drawTimelineOverlay measureText sections currentTime duration
    canvasWidth canvasHeight transition = Returned (Some o) ->
  TimelineDots.tickPct sections duration currentTime = Returned (Dots.pct o)
  /\ 0 <= Dots.pct o <= 1.
Proof.
  intros Hpos Hact H.
  assert (Hne : sections <> []).
  { intro E. rewrite E in H. discriminate H. }
  pose proof (length_pos _ Hne) as Hlen.
  unfold TimelineDots.tickPct.
  destruct (Z.eqb_spec (JS.length sections) 0) as [E | _]; [lia |].
  rewrite <- Hact.
  destruct (findActiveSection_range sections currentTime) as [E | (s & G & Hs)].
  - destruct (get_in_range sections (JS.length sections - 1)) as [lastSection L];
      [lia |].
    destruct (drawTimelineOverlay_inactive measureText sections currentTime
                duration canvasWidth canvasHeight transition Hne lastSection)
      as (o' & Ho & Hpct & _); [lia | exact L |].
    rewrite Ho in H. injection H as <-. rewrite Hpct.
    pose proof (findActiveSection_before_last _ _ _ E L) as Hbefore.
    pose proof (positive_length_get _ _ _ Hpos L) as Hlast.
    assert (B : Qle_bool (endTime lastSection) currentTime = false)
      by (apply leb_false_iff; lra).
    rewrite B.
    destruct (Z.leb_spec 0 (Transition.activeIdx transition)) as [C | _]; [lia |].
    split; [reflexivity | lra].
  - rewrite <- Hact in G.
    destruct (drawTimelineOverlay_active measureText sections currentTime
                duration canvasWidth canvasHeight transition Hne s G)
      as (o' & Ho & Hpct & _).
    rewrite Ho in H. injection H as <-. rewrite Hpct.
    destruct (get_Some _ _ _ G) as [Hrange _].
    destruct (Z.leb_spec 0 (Transition.activeIdx transition)) as [_ | C]; [| lia].
    unfold member. rewrite G. cbn [andThen].
    split; [reflexivity |].
    apply fraction_in_unit; [exact Hrange |].
    split; [| apply sectionProg_le_1].
    apply sectionProg_nonneg; [| exact Hs].
    eapply positive_length_get; eassumption.
Qed.

(** X9.  For sections that each end after they start and the index the
    encoder resolves, the badge drawn by [drawTimelineOverlay] and the
    playhead of the dot row have the same x, which is never left of the
    first pill's centre and never further right of it than the pills' range
    [max(lastPillCenter - firstPillCenter, 1)]: it is the first pill's centre
    when the fraction is 0, and, when the centres are at least one pixel
    apart, it never passes the last pill's centre and is that centre when
    the fraction is 1. *)
Theorem badge_within_pills (measureText : TextMeasure)
    (sections : list Section) (currentTime duration canvasWidth canvasHeight : Q)
    (transition : Transition.State) (o : Dots.Overlay) :
  positive_length sections ->
  Transition.activeIdx transition = findActiveSection sections currentTime ->
  Dots.drawTimelineOverlay measureText sections currentTime duration
    canvasWidth canvasHeight transition = Returned (Some o) ->
  exists firstPill lastPill row,
    member (Dots.pills o) 0 = Returned firstPill
    /\ member (Dots.pills o) (JS.length sections - 1) = Returned lastPill
    /\ DotRow.drawDots measureText sections currentTime duration
         canvasWidth canvasHeight transition = Returned (Some row)
    /\ DotRow.playheadX row = Dots.badgeX o
    /\ Dots.centerX firstPill <= Dots.badgeX o
       <= Dots.centerX firstPill
          + JS.max (Dots.centerX lastPill - Dots.centerX firstPill) 1
    /\ (Dots.pct o == 0 -> Dots.badgeX o == Dots.centerX firstPill)
    /\ (1 <= Dots.centerX lastPill - Dots.centerX firstPill ->
        Dots.badgeX o <= Dots.centerX lastPill
        /\ (Dots.pct o == 1 -> Dots.badgeX o == Dots.centerX lastPill)).
Proof.
  intros Hpos Hact H.
  destruct (drawTimelineOverlay_pct _ _ _ _ _ _ _ _ Hpos Hact H) as [_ [H0 H1]].
  destruct (drawTimelineOverlay_pills _ _ _ _ _ _ _ _ H)
    as (measured & firstPill & lastPill & _ & _ & _ & Hfirst & Hlast & Hbadge & _).
  exists firstPill, lastPill. eexists.
  split; [exact Hfirst |]. split; [exact Hlast |].
  split; [unfold DotRow.drawDots; rewrite H; cbn [andThen];
          rewrite Hfirst, Hlast; reflexivity |].
  split; [rewrite Hbadge; unfold DotRow.row;
          destruct (DotRow.countDots _ _); reflexivity |].
  rewrite Hbadge.
  pose proof (max_ge_r (Dots.centerX lastPill - Dots.centerX firstPill) 1) as Hrange.
  split; [split; nra |].
  split; [intro E; rewrite E; ring |].
  intro Hapart. rewrite (max_left _ _ Hapart).
  split; [nra | intro E; rewrite E; ring].
Qed.

(** X10.  The live preview and the encoder agree: for sections that each
    end after they start, at the same time and from the same pill centres,
    one [tick] of [TimelineDots] resolves the index the encoder resolves,
    computes the fraction [drawTimelineOverlay] computes, prints the same
    number in the badge and puts the badge at the same x. *)
Theorem preview_matches_encoder (measureText : TextMeasure)
    (sections : list Section)
    (currentTime duration canvasWidth canvasHeight containerWidth : Q)
    (transition : Transition.State) (o : Dots.Overlay)
    (firstPill lastPill : Dots.PillInfo) :
  positive_length sections ->
  Transition.activeIdx transition = findActiveSection sections currentTime ->
  Dots.drawTimelineOverlay measureText sections currentTime duration
    canvasWidth canvasHeight transition = Returned (Some o) ->
  member (Dots.pills o) 0 = Returned firstPill ->
  member (Dots.pills o) (JS.length sections - 1) = Returned lastPill ->
  exists shown,
    Preview.tick sections duration currentTime
      (Preview.measurePills containerWidth
         (Dots.centerX firstPill) (Dots.centerX lastPill))
    = Returned shown
    /\ Preview.idx shown = Transition.activeIdx transition
    /\ Preview.pct shown = Dots.pct o
    /\ Preview.percent shown = Dots.percent o
    /\ Preview.pixelLeft shown = Dots.badgeX o.
Proof.
  intros Hpos Hact H Hfirst Hlast.
  destruct (drawTimelineOverlay_pct _ _ _ _ _ _ _ _ Hpos Hact H) as [Htick _].
  destruct (drawTimelineOverlay_pills _ _ _ _ _ _ _ _ H)
    as (measured & firstPill' & lastPill' & _ & _ & _ & Hfirst' & Hlast'
        & Hbadge & Hpercent).
  rewrite Hfirst in Hfirst'. injection Hfirst' as <-.
  rewrite Hlast in Hlast'. injection Hlast' as <-.
  unfold Preview.tick. rewrite Htick. cbn [andThen].
  eexists. split; [reflexivity |].
  cbn [Preview.idx Preview.pct Preview.percent Preview.pixelLeft
       Preview.measurePills Preview.left Preview.width].
  split; [symmetry; exact Hact |]. split; [reflexivity |].
  split; [symmetry; exact Hpercent | symmetry; exact Hbadge].
Qed.

(** X11.  In the preview, when the first pill's centre is not left of the
    container and the fraction is between 0 and 1, the dot row has a
    width of at least one pixel, its padding [pad] is between 0 and 28
    pixels, and the playhead is placed at
    [(pct * rangeWidth + pad) / dotsWidth * 100] percent of the row, a
    number between 0 and 100. *)
Theorem preview_playhead_in_row (sections : list Section)
    (duration t containerWidth firstCenter lastCenter : Q) (shown : Preview.Tick) :
  0 <= firstCenter ->
  Preview.tick sections duration t
    (Preview.measurePills containerWidth firstCenter lastCenter)
  = Returned shown ->
  0 <= Preview.pct shown <= 1 ->
  let measured := Preview.measurePills containerWidth firstCenter lastCenter in
  let dotsWidth := Preview.width measured + Preview.dotsPadding measured * 2 in
  0 <= Preview.dotsPadding measured <= 28
  /\ 1 <= dotsWidth
  /\ Preview.playheadPct shown
     == (Preview.pct shown * Preview.width measured
         + Preview.dotsPadding measured) / dotsWidth * 100
  /\ 0 <= Preview.playheadPct shown <= 100.
Proof.
  intros Hfirst H Hpct measured dotsWidth.
  assert (Hpad : 0 <= Preview.dotsPadding measured <= 28).
  { unfold measured, Preview.measurePills. cbn [Preview.dotsPadding].
    unfold JS.max. destruct (Qle_bool 0 (firstCenter - 28)) eqn:E.
    - apply Qle_bool_iff in E. split; lra.
    - apply leb_false_iff in E. split; lra. }
  assert (Hwidth : 1 <= Preview.width measured).
  { unfold measured, Preview.measurePills. cbn [Preview.width]. apply max_ge_r. }
  assert (Hdots : 1 <= dotsWidth) by (unfold dotsWidth; lra).
  unfold Preview.tick in H.
  destruct (TimelineDots.tickPct sections duration t) as [pct | msg];
    cbn [andThen] in H; [| discriminate].
  injection H as <-. cbn [Preview.playheadPct Preview.pct] in *.
  change (JS.max (lastCenter - firstCenter) 1) with (Preview.width measured).
  change (firstCenter - JS.max 0 (firstCenter - 28))
    with (Preview.dotsPadding measured).
  fold dotsWidth.
  assert (B : JS.ltb 0 dotsWidth = true) by (apply ltb_iff; lra).
  rewrite B.
  split; [exact Hpad |]. split; [exact Hdots |]. split; [reflexivity |].
  assert (Hfrac : 0 <= (pct * Preview.width measured
                        + Preview.dotsPadding measured) / dotsWidth <= 1).
  { split.
    - apply Qle_shift_div_l; [lra |]. rewrite Qmult_0_l. nra.
    - apply Qle_shift_div_r; [lra |]. rewrite Qmult_1_l. unfold dotsWidth. nra. }
  split; lra.
Qed.

(** ** The dot row *)

Lemma abs_cases (x : Q) :
  (0 <= x /\ DotRow.abs x = x) \/ (x < 0 /\ DotRow.abs x = - x).
Proof.
  unfold DotRow.abs. destruct (Qle_bool 0 x) eqn:E.
  - left. apply Qle_bool_iff in E. split; [exact E | reflexivity].
  - right. apply leb_false_iff in E. split; [exact E | reflexivity].
Qed.

Lemma abs_nonneg (x : Q) : 0 <= DotRow.abs x.
Proof. destruct (abs_cases x) as [[H ->] | [H ->]]; lra. Qed.

(** The strength of the pull on a dot within reach: positive, at most 1. *)
Lemma influence_unit (dist range : Q) :
  0 <= dist -> dist < range ->
  0 < 1 - dist / range <= 1.
Proof.
  intros H0 H1. assert (Hr : 0 < range) by lra.
  assert (L : 0 <= dist / range).
  { apply Qle_shift_div_l; [exact Hr | lra]. }
  assert (U : dist / range < 1).
  { apply Qlt_shift_div_r; [exact Hr | lra]. }
  split; lra.
Qed.


(** On a canvas of non-zero width the quotient is 620 / 14 and its floor
    is 44. *)
Lemma countDots_defined (S duration : Q) :
  ~ S == 0 ->
  DotRow.countDots S duration
  = Some (Z.max 20 (Z.min 44 (JS.round (duration * (115 # 100))))).
Proof.
  intro HS. unfold DotRow.countDots.
  destruct (Qeq_bool S 0) eqn:B; [apply Qeq_bool_iff in B; contradiction |].
  assert (E : JS.floor ((620 * S) / (14 * S)) = 44%Z).
  { unfold JS.floor. change 44%Z with (Qfloor (620 / 14)).
    apply Qfloor_comp. field. exact HS. }
  rewrite E. reflexivity.
Qed.

(** X12.  On a canvas of non-zero width the encoder draws as many dots as
    the preview shows, [max(20, min(44, round(duration * 1.15)))]: never
    fewer than 20, never more than 44, and not fewer for a longer video.
    On a canvas of width 0 the encoder's count is not a number. *)
Theorem countDots_as_preview (S duration : Q) :
  ~ S == 0 ->
  DotRow.countDots S duration = Some (Preview.totalDots duration)
  /\ Preview.totalDots duration
     = Z.max 20 (Z.min 44 (JS.round (duration * (115 # 100))))
  /\ (20 <= Preview.totalDots duration <= 44)%Z
  /\ (forall longer, duration <= longer ->
        exists more,
          DotRow.countDots S longer = Some more
          /\ (Preview.totalDots duration <= more)%Z)
  /\ DotRow.countDots 0 duration = None.
Proof.
  intro HS. rewrite (countDots_defined S duration HS).
  unfold Preview.totalDots. change (JS.floor (620 / 14)) with 44%Z.
  split; [reflexivity |]. split; [reflexivity |]. split; [lia |].
  split; [| reflexivity].
  intros longer Hlonger. rewrite (countDots_defined S longer HS).
  eexists. split; [reflexivity |].
  assert (M : (JS.round (duration * (115 # 100))
               <= JS.round (longer * (115 # 100)))%Z)
    by (apply round_mono; lra).
  lia.
Qed.

(** X13.  A dot of the row rests at [dotsLeft + i * dotSpacing].  It is
    drawn between its resting place and the playhead, displaced by at most
    three tenths of its distance to the playhead, with a radius between
    [dotR] and [playheadR * 0.6]; a dot three spacings or more away from the
    playhead is drawn where it rests with radius [dotR]. *)
Theorem dot_pulled_toward_playhead (dotsLeft dotSpacing playheadX : Q)
    (dotR playheadR : Z) (i : Z) :
  let dot := DotRow.dotAt dotsLeft dotSpacing playheadX dotR playheadR i in
  let rest := dotsLeft + i * dotSpacing in
  DotRow.staticX dot = rest
  /\ JS.min rest playheadX <= DotRow.dx dot <= JS.max rest playheadX
  /\ DotRow.abs (DotRow.dx dot - rest)
     <= (3 # 10) * DotRow.abs (playheadX - rest)
  /\ JS.min dotR (playheadR * (6 # 10)) <= DotRow.r dot
     <= JS.max dotR (playheadR * (6 # 10))
  /\ (dotSpacing * 3 <= DotRow.abs (rest - playheadX) ->
      DotRow.dx dot = rest /\ DotRow.r dot = dotR).
Proof.
  intros dot rest. unfold dot, DotRow.dotAt. fold rest.
  pose proof (min_le_l rest playheadX) as Hmin1.
  pose proof (min_le_r rest playheadX) as Hmin2.
  pose proof (max_ge_l rest playheadX) as Hmax1.
  pose proof (max_ge_r rest playheadX) as Hmax2.
  pose proof (min_le_l dotR (playheadR * (6 # 10))) as Rmin1.
  pose proof (min_le_r dotR (playheadR * (6 # 10))) as Rmin2.
  pose proof (max_ge_l dotR (playheadR * (6 # 10))) as Rmax1.
  pose proof (max_ge_r dotR (playheadR * (6 # 10))) as Rmax2.
  destruct (JS.ltb (DotRow.abs (rest - playheadX)) (dotSpacing * 3)) eqn:B.
  - apply ltb_iff in B.
    pose proof (influence_unit _ _ (abs_nonneg (rest - playheadX)) B) as Hinf.
    set (influence := 1 - DotRow.abs (rest - playheadX) / (dotSpacing * 3)) in *.
    assert (Hpull : 0 <= influence * influence <= 1) by (split; nra).
    set (pull := influence * influence) in *.
    cbn [DotRow.staticX DotRow.dx DotRow.r]. unfold lerp.
    split; [reflexivity |].
    assert (Hdx : JS.min rest playheadX
                  <= rest + (playheadX - rest) * (pull * (3 # 10))
                  <= JS.max rest playheadX).
    { destruct (Qlt_le_dec rest playheadX) as [C | C]; split; nra. }
    split; [exact Hdx |].
    split.
    { destruct (abs_cases (rest + (playheadX - rest) * (pull * (3 # 10)) - rest))
        as [[S1 ->] | [S1 ->]];
      destruct (abs_cases (playheadX - rest)) as [[S2 ->] | [S2 ->]]; nra. }
    split.
    { destruct (Qlt_le_dec (inject_Z dotR) (playheadR * (6 # 10))) as [C | C];
        split; nra. }
    intro Hfar. exfalso. lra.
  - apply ltb_false_iff in B. cbn [DotRow.staticX DotRow.dx DotRow.r].
    split; [reflexivity |]. split; [split; assumption |].
    split.
    { pose proof (abs_nonneg (playheadX - rest)).
      destruct (abs_cases (rest - rest)) as [[S1 ->] | [S1 ->]]; lra. }
    split; [split; assumption |].
    intros _. split; reflexivity.
Qed.

(** X14.  A bridge is drawn only from a dot that is nearer to the playhead
    than two spacings and further than half the playhead's radius; it runs
    from the dot's resting place to the playhead, so it is longer than
    [playheadR * 0.5] and shorter than two spacings, and its half-height is
    between [dotR * 0.3] and [playheadR * 0.5]. *)
Theorem bridge_reaches_playhead (dotsLeft dotSpacing playheadX : Q)
    (dotR playheadR : Z) (i : Z) (bridge : DotRow.Bridge) :
  DotRow.bridgeAt dotsLeft dotSpacing playheadX dotR playheadR i = Some bridge ->
  let rest := dotsLeft + i * dotSpacing in
  ((DotRow.x1 bridge = rest /\ DotRow.x2 bridge = playheadX)
   \/ (DotRow.x1 bridge = playheadX /\ DotRow.x2 bridge = rest))
  /\ DotRow.x1 bridge <= DotRow.x2 bridge
  /\ playheadR * (5 # 10) < DotRow.x2 bridge - DotRow.x1 bridge
     < dotSpacing * 2
  /\ JS.min (dotR * (3 # 10)) (playheadR * (5 # 10))
     <= DotRow.bridgeWidth bridge
     <= JS.max (dotR * (3 # 10)) (playheadR * (5 # 10)).
Proof.
  intros H rest. unfold DotRow.bridgeAt in H. fold rest in H.
  destruct (JS.ltb (DotRow.abs (rest - playheadX)) (dotSpacing * 2)) eqn:B1;
    [| discriminate].
  destruct (JS.ltb (playheadR * (5 # 10)) (DotRow.abs (rest - playheadX))) eqn:B2;
    [| discriminate].
  cbn [andb] in H. injection H as <-.
  cbn [DotRow.x1 DotRow.x2 DotRow.bridgeWidth].
  apply ltb_iff in B1, B2.
  pose proof (influence_unit _ _ (abs_nonneg (rest - playheadX)) B1) as Hinf.
  set (strength := 1 - DotRow.abs (rest - playheadX) / (dotSpacing * 2)) in *.
  pose proof (min_le_l (dotR * (3 # 10)) (playheadR * (5 # 10))) as Rmin1.
  pose proof (min_le_r (dotR * (3 # 10)) (playheadR * (5 # 10))) as Rmin2.
  pose proof (max_ge_l (dotR * (3 # 10)) (playheadR * (5 # 10))) as Rmax1.
  pose proof (max_ge_r (dotR * (3 # 10)) (playheadR * (5 # 10))) as Rmax2.
  assert (Hwidth : JS.min (dotR * (3 # 10)) (playheadR * (5 # 10))
                   <= lerp (dotR * (3 # 10)) (playheadR * (5 # 10)) strength
                   <= JS.max (dotR * (3 # 10)) (playheadR * (5 # 10))).
  { unfold lerp.
    destruct (Qlt_le_dec (dotR * (3 # 10)) (playheadR * (5 # 10))) as [C | C];
      split; nra. }
  unfold JS.min, JS.max.
  destruct (Qle_bool rest playheadX) eqn:E.
  - apply Qle_bool_iff in E.
    destruct (abs_cases (rest - playheadX)) as [[S1 A] | [S1 A]];
      rewrite A in B1, B2.
    + split; [left; split; reflexivity |]. split; [exact E |].
      split; [split; lra | exact Hwidth].
    + split; [left; split; reflexivity |]. split; [exact E |].
      split; [split; lra | exact Hwidth].
  - apply leb_false_iff in E.
    destruct (abs_cases (rest - playheadX)) as [[S1 A] | [S1 A]];
      rewrite A in B1, B2.
    + split; [right; split; reflexivity |]. split; [lra |].
      split; [split; lra | exact Hwidth].
    + exfalso. lra.
Qed.




(** ** The layout and the look of the coloured pills *)

(** The pills [layoutPills] pushes: widths as given, one after the other
    from [startX] on, colours taken in turn. *)
Lemma layoutPills_chain (pillGap : Z) (items : list (Section * Z)) :
  forall (startX : Q) (index : Z) (ps : list Pills.ColoredPillInfo),
  Pills.layoutPills pillGap startX index items = Returned ps ->
  map Pills.width ps = map snd items
  /\ (forall first, hd_error ps = Some first -> Pills.x first = startX)
  /\ (forall i p q,
        nth_error ps i = Some p -> nth_error ps (S i) = Some q ->
        Pills.x q = Pills.x p + Pills.width p + pillGap)
  /\ (forall p, In p ps -> Pills.centerX p = Pills.x p + Pills.width p / 2)
  /\ (forall final, nth_error ps (List.length items - 1) = Some final ->
        Pills.x final + Pills.width final
        == startX + sumZ (map snd items)
           + pillGap * (Z.of_nat (List.length items) - 1)%Z)
  /\ (forall i p, nth_error ps i = Some p ->
        member Pills.PILL_COLORS_CANVAS
          (Z.rem (index + Z.of_nat i) (JS.length Pills.PILL_COLORS_CANVAS))
        = Returned (Pills.color p))
  /\ (forall i p item, nth_error ps i = Some p -> nth_error items i = Some item ->
        Pills.sectionDuration p = endTime (fst item) - startTime (fst item)).
Proof.
  induction items as [| [section pw] rest IH]; intros startX index ps H.
  - injection H as <-.
    split; [reflexivity |]. split; [intros first F; discriminate F |].
    split; [intros [| i] p q F; discriminate F |].
    split; [intros p [] |]. split; [intros final F; discriminate F |].
    split; [intros [| i] p F; discriminate F |].
    intros [| i] p item F; discriminate F.
  - cbn [Pills.layoutPills] in H.
    destruct (member Pills.PILL_COLORS_CANVAS
                (Z.rem index (JS.length Pills.PILL_COLORS_CANVAS)))
      as [c | msg] eqn:Hc; cbn [andThen] in H; [| discriminate].
    destruct (Pills.layoutPills pillGap (startX + pw + pillGap) (index + 1) rest)
      as [others | msg] eqn:Hrest; cbn [andThen] in H; [| discriminate].
    injection H as <-.
    destruct (IH _ _ _ Hrest)
      as (Hw & Hfirst & Hnext & Hcentre & Hlast & Hcolor & Hdur).
    split; [cbn [map Pills.width snd]; rewrite Hw; reflexivity |].
    split; [intros first F; injection F as <-; reflexivity |].
    split.
    { intros [| i] p q Hp Hq; cbn [nth_error] in Hp, Hq.
      - injection Hp as <-. cbn [Pills.x Pills.width].
        apply Hfirst. destruct others; [discriminate | exact Hq].
      - apply (Hnext i p q Hp Hq). }
    split.
    { intros p [<- | Hp]; [reflexivity | apply Hcentre; exact Hp]. }
    split.
    { intros final F. cbn [map snd]. rewrite sumZ_cons.
      destruct rest as [| item rest'].
      - cbn [List.length Nat.sub nth_error] in F. injection F as <-.
        cbn [Pills.x Pills.width List.length map]. unfold sumZ.
        cbn [fold_left]. rewrite inject_Z_plus.
        change (inject_Z (Z.of_nat 1 - 1)) with 0. change (inject_Z 0) with 0.
        ring.
      - replace (List.length ((section, pw) :: item :: rest') - 1)%nat
          with (S (List.length (item :: rest') - 1)) in F by (simpl; lia).
        cbn [nth_error] in F. rewrite (Hlast final F).
        replace (Z.of_nat (List.length ((section, pw) :: item :: rest')) - 1)%Z
          with ((Z.of_nat (List.length (item :: rest')) - 1) + 1)%Z
          by (cbn [List.length]; lia).
        rewrite !inject_Z_plus. change (inject_Z 1) with 1. ring. }
    split.
    { intros [| i] p Hp; cbn [nth_error] in Hp.
      - injection Hp as <-. cbn [Pills.color].
        replace (index + Z.of_nat 0)%Z with index by lia. exact Hc.
      - replace (index + Z.of_nat (S i))%Z with (index + 1 + Z.of_nat i)%Z by lia.
        apply Hcolor. exact Hp. }
    intros [| i] p item Hp Hitem; cbn [nth_error] in Hp, Hitem.
    + injection Hp as <-. injection Hitem as <-. reflexivity.
    + apply (Hdur i p item Hp Hitem).
Qed.

(** What a call of [drawColoredPillsOverlay] that has drawn something has
    laid out and painted. *)
Lemma drawColoredPillsOverlay_pills (measureText : TextMeasure)
    (sections : list Section) (currentTime duration canvasWidth canvasHeight : Q)
    (transition : Transition.State) (o : Pills.Overlay) :
  Pills.drawColoredPillsOverlay measureText sections currentTime duration
    canvasWidth canvasHeight transition = Returned (Some o) ->
  let pillGap := JS.round (10 * (canvasWidth / 1280)) in
  List.length (Pills.pillWidths o) = List.length sections
  /\ Pills.actualTotalWidth o
     = (sumZ (Pills.pillWidths o) + pillGap * (JS.length sections - 1))%Z
  /\ Pills.layoutPills pillGap ((canvasWidth - Pills.actualTotalWidth o) / 2) 0
       (combine sections (Pills.pillWidths o))
     = Returned (Pills.pills o)
  /\ Pills.painted o
     = mapi (Pills.paintPill transition
               (easeOut (Transition.transitionT transition))
               (JS.round (52 * (canvasWidth / 1280))))
            (Pills.pills o).
Proof.
  unfold Pills.drawColoredPillsOverlay.
  destruct (JS.length sections =? 0)%Z; [discriminate |].
  match goal with |- context [Pills.layoutPills ?g ?x 0%Z ?items] =>
    destruct (Pills.layoutPills g x 0%Z items) as [ps | msg] eqn:Hps
  end; cbn [andThen]; [| discriminate].
  intro H. injection H as <-. cbn zeta.
  cbn [Pills.pillWidths Pills.actualTotalWidth Pills.pills Pills.painted].
  split; [rewrite length_map, length_combine, length_map; lia |].
  split; [rewrite fold_Zadd_acc; lia |].
  split; [exact Hps | reflexivity].
Qed.

Lemma map_snd_combine {A B : Type} (l : list A) :
  forall l' : list B, List.length l' = List.length l ->
  map snd (combine l l') = l'.
Proof.
  induction l as [| a l IH]; intros [| b l'] H; simpl in *;
    try reflexivity; try discriminate.
  rewrite IH by lia. reflexivity.
Qed.

(** X16.  Whenever [drawColoredPillsOverlay] draws, it lays out and paints
    one pill per section, with the rounded widths it has computed; the
    first pill starts at (canvasWidth - actualTotalWidth) / 2, each next one
    [pillGap] after the end of its neighbour, and the last one ends as far
    from the right border of the canvas as the first starts from the left
    one; each pill's centre is the middle of the pill; and the pill at index
    [i] has the colour at index [i mod 5] of [PILL_COLORS_CANVAS]. *)
Theorem coloured_pills_centred (measureText : TextMeasure)
    (sections : list Section) (currentTime duration canvasWidth canvasHeight : Q)
    (transition : Transition.State) (o : Pills.Overlay) :
  Pills.drawColoredPillsOverlay measureText sections currentTime duration
    canvasWidth canvasHeight transition = Returned (Some o) ->
  let pillGap := JS.round (10 * (canvasWidth / 1280)) in
  let margin := (canvasWidth - Pills.actualTotalWidth o) / 2 in
  map Pills.width (Pills.pills o) = Pills.pillWidths o
  /\ List.length (Pills.pills o) = List.length sections
  /\ List.length (Pills.painted o) = List.length sections
  /\ (forall first, hd_error (Pills.pills o) = Some first ->
        Pills.x first = margin)
  /\ (forall i p q,
        nth_error (Pills.pills o) i = Some p ->
        nth_error (Pills.pills o) (S i) = Some q ->
        Pills.x q = Pills.x p + Pills.width p + pillGap)
  /\ (forall p, In p (Pills.pills o) ->
        Pills.centerX p = Pills.x p + Pills.width p / 2)
  /\ (forall final,
        nth_error (Pills.pills o) (List.length sections - 1) = Some final ->
        Pills.x final + Pills.width final == canvasWidth - margin)
  /\ (forall i p, nth_error (Pills.pills o) i = Some p ->
        nth_error Pills.PILL_COLORS_CANVAS (i mod 5) = Some (Pills.color p)).
Proof.
  intros H pillGap margin.
  destruct (drawColoredPillsOverlay_pills _ _ _ _ _ _ _ _ H)
    as (Hlen & Htotal & Hlayout & Hpainted).
  fold pillGap in Htotal, Hlayout. fold margin in Hlayout.
  destruct (layoutPills_chain _ _ _ _ _ Hlayout)
    as (Hw & Hfirst & Hnext & Hcentre & Hlast & Hcolor & _).
  rewrite (map_snd_combine sections _ Hlen) in Hw, Hlast.
  assert (Hitems : List.length (combine sections (Pills.pillWidths o))
                   = List.length sections)
    by (rewrite length_combine; lia).
  rewrite Hitems in Hlast.
  assert (Hpills : List.length (Pills.pills o) = List.length sections).
  { rewrite <- (length_map Pills.width), Hw. exact Hlen. }
  split; [exact Hw |]. split; [exact Hpills |].
  split; [rewrite Hpainted; unfold mapi; rewrite mapiFrom_length; exact Hpills |].
  split; [exact Hfirst |]. split; [exact Hnext |]. split; [exact Hcentre |].
  split.
  { intros final Hfinal. rewrite (Hlast final Hfinal).
    assert (E : inject_Z (Pills.actualTotalWidth o)
                == sumZ (Pills.pillWidths o)
                   + pillGap * (Z.of_nat (List.length sections) - 1)%Z).
    { rewrite Htotal, inject_Z_plus, inject_Z_mult. reflexivity. }
    unfold margin. rewrite E. field. }
  intros i p Hp. specialize (Hcolor i p Hp).
  unfold member in Hcolor.
  destruct (JS.get Pills.PILL_COLORS_CANVAS
              (Z.rem (0 + Z.of_nat i) (JS.length Pills.PILL_COLORS_CANVAS)))
    as [c |] eqn:G; [| discriminate].
  injection Hcolor as <-. apply get_Some in G. destruct G as [_ G].
  change (JS.length Pills.PILL_COLORS_CANVAS) with 5%Z in G.
  rewrite Z.rem_mod_nonneg in G by lia.
  replace (Z.to_nat ((0 + Z.of_nat i) mod 5)) with (i mod 5)%nat in G; [exact G |].
  rewrite Z.add_0_l. change 5%Z with (Z.of_nat 5).
  rewrite <- Nat2Z.inj_mod, Nat2Z.id. reflexivity.
Qed.

(** X17.  Outside a transition (nothing leaving), the encoder paints a pill
    the way the preview shows it for the same active index: the same pill is
    active, the same pills are past, the opacity is the same (0.55 for the
    pills to come, 1 otherwise), the active pill is 1.04 times as wide, and
    the label is the same rounded duration. *)
Theorem settled_pill_as_preview (transition : Transition.State) (easedT : Q)
    (pillHeight : Z) (pill : Pills.ColoredPillInfo) (section : Section)
    (index : Z) :
  Transition.leavingIdx transition = (-1)%Z ->
  (0 <= index)%Z ->
  Pills.sectionDuration pill = endTime section - startTime section ->
  let painted := Pills.paintPill transition easedT pillHeight pill index in
  let look := Preview.pillLook (Transition.activeIdx transition) section index in
  Pills.isActive painted = Preview.isActive look
  /\ Pills.isPast painted = Preview.isPast look
  /\ Pills.alpha painted = Preview.opacity look
  /\ Pills.pillW painted == Pills.width pill * Preview.scale look
  /\ Pills.pillH painted == pillHeight * Preview.scale look
  /\ Pills.label painted = Preview.label look.
Proof.
  intros Hleaving Hindex Hdur painted look.
  unfold painted, look, Pills.paintPill, Preview.pillLook, pillT.
  rewrite Hleaving, Hdur.
  cbn [Pills.isActive Pills.isPast Pills.alpha Pills.pillW Pills.pillH
       Pills.label Preview.isActive Preview.isPast Preview.opacity
       Preview.scale Preview.label].
  rewrite (Z.eqb_sym (Transition.activeIdx transition) index).
  destruct (Z.eqb_spec index (Transition.activeIdx transition)) as [E | E].
  - change (0 <=? -1)%Z with false. cbn iota.
    change (JS.ltb (1 # 2) 1) with true.
    rewrite <- E, Z.ltb_irrefl. cbn [andb negb].
    rewrite andb_false_r. unfold lerp.
    split; [reflexivity |]. split; [reflexivity |]. split; [reflexivity |].
    split; [ring |]. split; [ring | reflexivity].
  - destruct (Z.eqb_spec index (-1)) as [F | _]; [lia |].
    change (JS.ltb (1 # 2) 0) with false. cbn [negb andb]. unfold lerp.
    split; [reflexivity |].
    assert (Hpast : (index <? Transition.activeIdx transition)%Z
                    && (0 <=? Transition.activeIdx transition)%Z
                    = (index <? Transition.activeIdx transition)%Z).
    { destruct (Z.ltb_spec index (Transition.activeIdx transition)) as [L | L];
        [| reflexivity].
      destruct (Z.leb_spec 0 (Transition.activeIdx transition)); [reflexivity | lia]. }
    rewrite Hpast. split; [reflexivity |].
    split.
    { destruct (0 <=? Transition.activeIdx transition)%Z,
               (index <? Transition.activeIdx transition)%Z; reflexivity. }
    split; [ring |]. split; [ring | reflexivity].
Qed.

Lemma pillT_unit (transition : Transition.State) (easedT : Q) (index : Z) :
  0 <= easedT <= 1 -> 0 <= pillT transition easedT index <= 1.
Proof.
  intros [H0 H1]. unfold pillT.
  destruct (index =? Transition.activeIdx transition)%Z;
    [destruct (0 <=? Transition.leavingIdx transition)%Z |
     destruct (index =? Transition.leavingIdx transition)%Z]; split; lra.
Qed.

(** A channel of the palette, brightened and rounded. *)
Lemma boosted_channel (c : Z) (boost : Q) :
  (0 <= c <= 255)%Z -> 0 <= boost <= 20 ->
  (c <= JS.round (JS.min 255 (c + boost)) <= Z.min 255 (c + 20))%Z.
Proof.
  intros [Hc0 Hc1] [Hb0 Hb1].
  assert (Hc : inject_Z c <= 255).
  { change 255 with (inject_Z 255). rewrite <- Zle_Qle. exact Hc1. }
  pose proof (min_le_l 255 (c + boost)) as M1.
  pose proof (min_le_r 255 (c + boost)) as M2.
  assert (M3 : inject_Z c <= JS.min 255 (c + boost)) by (apply min_glb; lra).
  assert (L : (JS.round c <= JS.round (JS.min 255 (c + boost)))%Z)
    by (apply round_mono; exact M3).
  assert (U1 : (JS.round (JS.min 255 (c + boost)) <= JS.round (inject_Z 255))%Z)
    by (apply round_mono; exact M1).
  assert (U2 : (JS.round (JS.min 255 (c + boost))
                <= JS.round (inject_Z (c + 20)))%Z).
  { apply round_mono. rewrite inject_Z_plus. change (inject_Z 20) with 20. lra. }
  rewrite round_integer in L, U1, U2. lia.
Qed.

Lemma palette_channels (c : Pills.Color) :
  In c Pills.PILL_COLORS_CANVAS ->
  (0 <= Pills.r c <= 255)%Z /\ (0 <= Pills.g c <= 255)%Z
  /\ (0 <= Pills.b c <= 255)%Z.
Proof.
  intro H. unfold Pills.PILL_COLORS_CANVAS in H.
  repeat (destruct H as [<- | H]; [cbn; lia |]). destruct H.
Qed.

(** X18.  For an eased transition value between 0 and 1, a pill of
    non-negative width with a colour of the palette is painted with an
    animation state between 0 and 1, between 1 and 1.04 times as wide as
    laid out, centred where it was laid out, fully opaque as long as no
    section is active, and filled with channels that are never darker than
    the palette's and never brighter than 20 more, capped at 255. *)
Theorem painted_pill_bounds (transition : Transition.State) (easedT : Q)
    (pillHeight : Z) (pill : Pills.ColoredPillInfo) (index : Z) :
  0 <= easedT <= 1 ->
  (0 <= Pills.width pill)%Z ->
  In (Pills.color pill) Pills.PILL_COLORS_CANVAS ->
  let painted := Pills.paintPill transition easedT pillHeight pill index in
  let c := Pills.color pill in
  0 <= Pills.t painted <= 1
  /\ Pills.width pill <= Pills.pillW painted <= Pills.width pill * (104 # 100)
  /\ Pills.px painted + Pills.pillW painted / 2 == Pills.centerX pill
  /\ ((Transition.activeIdx transition < 0)%Z -> Pills.alpha painted = 1)
  /\ (let '(fillR, fillG, fillB) := Pills.fill painted in
      (Pills.r c <= fillR <= Z.min 255 (Pills.r c + 20))%Z
      /\ (Pills.g c <= fillG <= Z.min 255 (Pills.g c + 20))%Z
      /\ (Pills.b c <= fillB <= Z.min 255 (Pills.b c + 20))%Z).
Proof.
  intros Heased Hwidth Hcolor painted c.
  pose proof (pillT_unit transition easedT index Heased) as [Ht0 Ht1].
  destruct (palette_channels _ Hcolor) as (Hr & Hg & Hb).
  assert (Hw : 0 <= inject_Z (Pills.width pill)).
  { change 0 with (inject_Z 0). rewrite <- Zle_Qle. exact Hwidth. }
  unfold painted, Pills.paintPill.
  cbn [Pills.t Pills.pillW Pills.px Pills.alpha Pills.fill].
  set (t := pillT transition easedT index) in *.
  split; [split; assumption |].
  split; [unfold lerp; split; nra |].
  split; [field |].
  split.
  { intro Hneg.
    destruct (Z.leb_spec 0 (Transition.activeIdx transition)) as [C | _]; [lia |].
    reflexivity. }
  assert (Hboost : 0 <= lerp 0 20 t <= 20) by (unfold lerp; split; nra).
  fold c in Hr, Hg, Hb.
  split; [| split]; apply boosted_channel; assumption.
Qed.

(** ** The analysis route *)

Lemma insertByStart_rearranges (s : Section) (sorted : list Section) :
  rearranges (s :: sorted) (Analyze.insertByStart s sorted).
Proof.
  unfold rearranges. induction sorted as [| x rest IH]; simpl.
  - apply Permutation_refl.
  - destruct (Qle_bool (startTime s) (startTime x)).
    + apply Permutation_refl.
    + eapply Permutation_trans; [apply perm_swap |].
      apply perm_skip. exact IH.
Qed.

Lemma sortByStart_rearranges (sections : list Section) :
  rearranges sections (Analyze.sortByStart sections).
Proof.
  unfold rearranges. induction sections as [| s rest IH]; simpl.
  - apply perm_nil.
  - eapply Permutation_trans; [apply perm_skip; exact IH |].
    apply insertByStart_rearranges.
Qed.



(** Sections that are in order already stay as they are. *)
Lemma sortByStart_sorted (sections : list Section) :
  ordered sections -> Analyze.sortByStart sections = sections.
Proof.
  induction sections as [| a rest IH]; intro H; [reflexivity |].
  cbn [Analyze.sortByStart fold_right]. fold (Analyze.sortByStart rest).
  assert (Hrest : ordered rest) by (destruct rest; [exact I | apply H]).
  rewrite (IH Hrest). destruct rest as [| b rest']; [reflexivity |].
  cbn [Analyze.insertByStart]. destruct H as [Hab _].
  apply Qle_bool_iff in Hab. rewrite Hab. reflexivity.
Qed.



Lemma present_map_Some (sections : list Section) :
  Analyze.present (map Some sections) = Some sections.
Proof.
  induction sections as [| s rest IH]; [reflexivity |].
  cbn [map Analyze.present]. rewrite IH. reflexivity.
Qed.



Lemma sortByStart_length (sections : list Section) :
  JS.length (Analyze.sortByStart sections) = JS.length sections.
Proof.
  unfold JS.length. f_equal. symmetry.
  apply Permutation_length. apply sortByStart_rearranges.
Qed.

(** [analyze] answers an error with the status 500 only, after the model
    was asked. *)
Lemma analyze_error (env : Analyze.Env) (mimeType : string) (duration : Q)
    (videoUrl : string) (before calls : list Analyze.Call) (status : Z)
    (msg : string) :
  Analyze.analyze env mimeType duration videoUrl before
  = (calls, Analyze.ErrorResponse status msg) ->
  calls = before ++ [Analyze.GenerateContent mimeType] /\ status = 500%Z.
Proof.
  unfold Analyze.analyze.
  destruct (Analyze.generated env) as [thrown | parsed].
  - intro H. injection H as <- <- <-. auto.
  - destruct (JS.length _ =? 0)%Z; [intro H; injection H as <- <- <-; auto |].
    destruct (Analyze.present _) as [source |];
      [| intro H; injection H as <- <- <-; auto].
    destruct (JS.get _ _) as [lastSection |]; [discriminate |].
    intro H. injection H as <- <- <-. auto.
Qed.

(** The five answers the handler gives with the status 400. *)
Lemma client_errors (calls : list Analyze.Call) (status : Z) (msg text : string) :
  In text [ "No file provided"; "Video duration must be 90 seconds or less";
            "No URL provided"; "Invalid content type" ]%string ->
  ([] : list Analyze.Call, Analyze.ErrorResponse 400 text)
  = (calls, Analyze.ErrorResponse status msg) ->
  calls = [] /\ status = 400%Z /\ msg = text.
Proof. intros _ H. injection H as <- <- <-. auto. Qed.

(** X20.  When the route answers with an error, the status is 400 or 500.
    The status 400 is the answer to a request the handler turns down
    itself, with one of its five messages: the API key was configured, the
    model has not been asked, and nothing but the video of a URL request
    has been fetched.  Whatever is thrown in the handler, and whatever
    fails once the model is asked, is answered with 500. *)
Theorem POST_error_statuses (env : Analyze.Env) (request : Analyze.Request)
    (calls : list Analyze.Call) (status : Z) (msg : string) :
  Analyze.POST env request = (calls, Analyze.ErrorResponse status msg) ->
  (status = 400%Z \/ status = 500%Z)
  /\ (status = 400%Z ->
      Analyze.apiKey env = true
      /\ In msg [ "No file provided";
                  "Video duration must be 90 seconds or less";
                  "No URL provided";
                  "Failed to fetch video from URL";
                  "Invalid content type" ]%string
      /\ (forall mimeType, ~ In (Analyze.GenerateContent mimeType) calls)
      /\ (calls = []
          \/ exists url, calls = [Analyze.FetchVideo url]
                         /\ msg = "Failed to fetch video from URL"%string))
  /\ (forall mimeType, In (Analyze.GenerateContent mimeType) calls ->
      status = 500%Z).
Proof.
  unfold Analyze.POST.
  set (Answer := fun key : bool =>
    (status = 400%Z \/ status = 500%Z)
    /\ (status = 400%Z ->
        key = true
        /\ In msg [ "No file provided";
                    "Video duration must be 90 seconds or less";
                    "No URL provided";
                    "Failed to fetch video from URL";
                    "Invalid content type" ]%string
        /\ (forall mimeType, ~ In (Analyze.GenerateContent mimeType) calls)
        /\ (calls = []
            \/ exists url, calls = [Analyze.FetchVideo url]
                           /\ msg = "Failed to fetch video from URL"%string))
    /\ (forall mimeType, In (Analyze.GenerateContent mimeType) calls ->
        status = 500%Z)).
  assert (Hserver : forall key before text,
    (forall mimeType, ~ In (Analyze.GenerateContent mimeType) before) ->
    (before, Analyze.ErrorResponse 500 text)
    = (calls, Analyze.ErrorResponse status msg) -> Answer key).
  { intros key before text Hbefore H. injection H as <- <- <-.
    split; [right; reflexivity |]. split; [discriminate | reflexivity]. }
  assert (Hanalyze : forall mimeType duration url before,
    Analyze.analyze env mimeType duration url before
    = (calls, Analyze.ErrorResponse status msg) -> Answer true).
  { intros mimeType duration url before H.
    destruct (analyze_error _ _ _ _ _ _ _ _ H) as (_ & ->).
    split; [right; reflexivity |]. split; [discriminate | reflexivity]. }
  assert (Hclient : forall text,
    In text [ "No file provided"; "Video duration must be 90 seconds or less";
              "No URL provided"; "Invalid content type" ]%string ->
    ([] : list Analyze.Call, Analyze.ErrorResponse 400 text)
    = (calls, Analyze.ErrorResponse status msg) -> Answer true).
  { intros text Htext H.
    destruct (client_errors _ _ _ _ Htext H) as (-> & -> & ->).
    split; [left; reflexivity |].
    split; [| intros mimeType []].
    intros _. split; [reflexivity |].
    split; [simpl in Htext |- *; tauto |].
    split; [intros mimeType [] | left; reflexivity]. }
  fold (Answer (Analyze.apiKey env)).
  destruct (Analyze.apiKey env); cbn [negb];
    [| apply Hserver; intros mimeType []].
  destruct (Analyze.has "multipart/form-data" (Analyze.contentType request)).
  - destruct (Analyze.formData request) as [form | thrown];
      [| apply Hserver; intros mimeType []].
    destruct (Analyze.formFile form) as [file |];
      [| apply Hclient; simpl; tauto].
    destruct (JS.ltb Analyze.MAX_DURATION_SECONDS (Analyze.formDuration form));
      [apply Hclient; simpl; tauto |].
    destruct (Analyze.arrayBuffer file) as [read | thrown];
      [apply Hanalyze | apply Hserver; intros mimeType []].
  - destruct (Analyze.has "application/json" (Analyze.contentType request));
      [| apply Hclient; simpl; tauto].
    destruct (Analyze.json request) as [[| [url |]] | thrown].
    + apply Hserver. intros mimeType [].
    + destruct (Analyze.isFalsy (Some url)); [apply Hclient; simpl; tauto |].
      destruct (Analyze.fetched env) as [thrown | [|] header [read | thrown]].
      * apply Hserver. intros mimeType [C | []]. discriminate C.
      * apply Hanalyze.
      * apply Hserver. intros mimeType [C | []]. discriminate C.
      * intro H. injection H as <- <- <-.
        split; [left; reflexivity |].
        split; [| intros mimeType [C | []]; discriminate C].
        intros _. split; [reflexivity |]. split; [simpl; tauto |].
        split; [intros mimeType [C | []]; discriminate C |].
        right. exists url. split; reflexivity.
      * intro H. injection H as <- <- <-.
        split; [left; reflexivity |].
        split; [| intros mimeType [C | []]; discriminate C].
        intros _. split; [reflexivity |]. split; [simpl; tauto |].
        split; [intros mimeType [C | []]; discriminate C |].
        right. exists url. split; reflexivity.
    + apply Hclient. simpl. tauto.
    + apply Hserver. intros mimeType [].
Qed.

(** X21.  For a positive duration the five default sections are in order,
    each ends after it starts and where the next one starts; sorting leaves
    them as they are, so when the model's text cannot be parsed [analyze]
    answers with exactly these sections and with the duration it was given;
    and at every time from 0 on one of the five is active. *)
Theorem fallback_sections_cover (env : Analyze.Env) (mimeType videoUrl : string)
    (before : list Analyze.Call) (duration : Q) :
  0 < duration ->
  let sections := Analyze.fallbackSections duration in
  positive_length sections /\ ordered sections
  /\ gapless sections /\ non_overlapping sections
  /\ Analyze.sortByStart sections = sections
  /\ (Analyze.generated env = Analyze.GenerateAnswers None ->
      Analyze.analyze env mimeType duration videoUrl before
      = (before ++ [Analyze.GenerateContent mimeType],
         Analyze.SuccessResponse sections duration videoUrl))
  /\ (forall t, 0 <= t -> (0 <= findActiveSection sections t <= 4)%Z).
Proof.
  intros Hd sections.
  assert (Hpos : positive_length sections).
  { unfold sections, Analyze.fallbackSections, positive_length.
    repeat (apply Forall_cons; [cbn; lra |]). apply Forall_nil. }
  assert (Hord : ordered sections).
  { unfold sections. cbn. repeat split; lra. }
  assert (Hgap : gapless sections).
  { unfold sections. cbn. repeat split; reflexivity. }
  assert (Hno : non_overlapping sections).
  { unfold sections. cbn. repeat split; lra. }
  assert (Hsorted : Analyze.sortByStart sections = sections)
    by (apply sortByStart_sorted; exact Hord).
  split; [exact Hpos |]. split; [exact Hord |]. split; [exact Hgap |].
  split; [exact Hno |]. split; [exact Hsorted |].
  split.
  - intro Hgen. unfold Analyze.analyze. rewrite Hgen.
    fold sections. rewrite present_map_Some, Hsorted. reflexivity.
  - intros t Ht.
    assert (H : (0 <= findActiveSection sections t < JS.length sections)%Z).
    { apply gapless_active_index; [discriminate | exact Hgap |].
      intros first Hfirst. injection Hfirst as <-. exact Ht. }
    change (JS.length sections) with 5%Z in H. lia.
Qed.

(** ** The upload form *)

Lemma validateVideoDuration_returns (metadata : option Q) (duration : Q) :
  Uploader.validateVideoDuration metadata = Returned duration ->
  metadata = Some duration /\ duration <= 90.
Proof.
  unfold Uploader.validateVideoDuration.
  destruct metadata as [d |]; [| discriminate].
  destruct (JS.ltb Uploader.MAX_DURATION_SECONDS d) eqn:B; [discriminate |].
  intro H. injection H as <-. apply ltb_false_iff in B.
  split; [reflexivity | exact B].
Qed.

(** X22.  An upload that ends with a stored result has passed every check
    of the form: the format is one of the four supported ones, the file has
    at most 100 * 1024 * 1024 bytes, the metadata loaded with a duration of
    at most 90 seconds; the server has answered the form's request with
    success; the stored sections and duration are the server's, the stored
    video URL is the preview URL of the browser, and no error is shown. *)
Theorem stored_upload_checked (server : Analyze.Env) (file : Analyze.File)
    (previewUrl : string) (metadata : option Q)
    (result : Uploader.AnalysisResult) :
  Uploader.stored (Uploader.handleFileUpload server file previewUrl metadata)
  = Some result ->
  let upload := Uploader.handleFileUpload server file previewUrl metadata in
  In (Analyze.fileType file) Uploader.SUPPORTED_FORMATS
  /\ (Analyze.fileSize file <= 100 * 1024 * 1024)%Z
  /\ (exists duration serverUrl,
        metadata = Some duration /\ duration <= 90
        /\ Analyze.POST server (Uploader.formRequest file duration)
           = (Uploader.calls upload,
              Analyze.SuccessResponse (Uploader.sections result)
                (Uploader.videoDuration result) serverUrl))
  /\ Uploader.videoUrl result = previewUrl
  /\ Uploader.error upload = None.
Proof.
  intros H upload. unfold upload. clear upload.
  unfold Uploader.handleFileUpload, Uploader.tryUpload in *.
  destruct (Uploader.listed (Analyze.fileType file) Uploader.SUPPORTED_FORMATS)
    eqn:Hformat; cbn [negb] in *; [| discriminate H].
  destruct (JS.ltb Uploader.MAX_FILE_SIZE_MB
              (Analyze.fileSize file / (1024 * 1024))) eqn:Hsize;
    [discriminate H |].
  destruct (Uploader.validateVideoDuration metadata) as [duration | msg] eqn:Hmeta;
    [| discriminate H].
  destruct (validateVideoDuration_returns _ _ Hmeta) as [-> Hduration].
  destruct (Analyze.POST server (Uploader.formRequest file duration))
    as [calls [status msg | sections videoDuration serverUrl]] eqn:Hpost;
    [discriminate H |].
  cbn [Uploader.stored Uploader.calls Uploader.error] in *.
  injection H as <-. cbn [Uploader.sections Uploader.videoDuration Uploader.videoUrl].
  split.
  { unfold Uploader.listed in Hformat. apply existsb_exists in Hformat.
    destruct Hformat as (format & Hin & Heq). apply String.eqb_eq in Heq.
    rewrite Heq. exact Hin. }
  split.
  { apply ltb_false_iff in Hsize. unfold Uploader.MAX_FILE_SIZE_MB in Hsize.
    assert (E : inject_Z (Analyze.fileSize file)
                == Analyze.fileSize file / (1024 * 1024) * (1024 * 1024))
      by (field; discriminate).
    assert (L : inject_Z (Analyze.fileSize file) <= inject_Z (100 * 1024 * 1024)).
    { change (inject_Z (100 * 1024 * 1024)) with (100 * (1024 * 1024)).
      rewrite E. apply Qmult_le_compat_r; [exact Hsize | discriminate]. }
    rewrite <- Zle_Qle in L. exact L. }
  split; [exists duration, serverUrl; auto |].
  split; reflexivity.
Qed.

(** X23.  The form and the server check the same bound: for a server with
    an API key, the request the form sends after its own duration check is
    never answered with the status 400. *)
Theorem validated_upload_not_rejected (server : Analyze.Env)
    (file : Analyze.File) (metadata : option Q) (duration : Q) :
  Analyze.apiKey server = true ->
  Uploader.validateVideoDuration metadata = Returned duration ->
  forall calls status msg,
    Analyze.POST server (Uploader.formRequest file duration)
    = (calls, Analyze.ErrorResponse status msg) ->
    status <> 400%Z /\ status = 500%Z.
Proof.
  intros Hkey Hmeta calls status msg.
  destruct (validateVideoDuration_returns _ _ Hmeta) as [_ Hduration].
  unfold Analyze.POST. rewrite Hkey. cbn [negb].
  change (Analyze.has "multipart/form-data"
            (Analyze.contentType (Uploader.formRequest file duration)))
    with true.
  cbn [Uploader.formRequest Analyze.formData Analyze.formFile
       Analyze.formDuration].
  assert (B : JS.ltb Analyze.MAX_DURATION_SECONDS duration = false)
    by (apply ltb_false_iff; exact Hduration).
  rewrite B.
  destruct (Analyze.arrayBuffer file) as [read | thrown].
  - intro H. destruct (analyze_error _ _ _ _ _ _ _ _ H) as (_ & ->).
    split; [discriminate | reflexivity].
  - intro H. injection H as <- <- <-. split; [discriminate | reflexivity].
Qed.

(** ** The preview page *)

(** A run that does not reach the loop appends no frame and reports no
    progress, and it throws. *)
Lemma quiet_before_loop (env : Encoder.Env) (sections : list Section)
    (duration : Q) (variant : Encoder.TimelineVariant) (onProgress : bool) :
  Expected.reachesLoop env = false ->
  let outcome := Encoder.run (Encoder.encodeVideoWithOverlay env sections
                                duration variant onProgress) in
  Encoder.samplesOf (fst outcome) = []
  /\ Encoder.progressOf (fst outcome) = []
  /\ ~ In Encoder.Finalize (fst outcome)
  /\ (snd outcome = Thrown "Failed to load video"
      \/ snd outcome = Thrown "output was started already").
Proof.
  unfold Expected.reachesLoop. intros H. cbn zeta.
  unfold Encoder.run, Encoder.encodeVideoWithOverlay.
  destruct (Encoder.videoLoads env) eqn:Hloads.
  - simpl in H. unfold Encoder.bind at 1. unfold Encoder.ret at 1.
    unfold Encoder.bind at 1. unfold Encoder.emit at 1. cbn [app].
    unfold Encoder.bind at 1.
    unfold Encoder.addAudioTrack, Encoder.tryCatch, Encoder.attempt,
      Encoder.startOutput.
    destruct (Encoder.audioFailure env) as [[| | | |] |]; try discriminate H;
      rewrite H; simpl; intuition discriminate.
  - unfold Encoder.bind at 1. unfold Encoder.throw. simpl.
    intuition discriminate.
Qed.

(** Every value reported to the callback is a fraction [(i + 1) / n] of the
    frame count [n], with [0 <= i < n]. *)
Lemma progressOf_fractions (env : Encoder.Env) (sections : list Section)
    (duration : Q) (variant : Encoder.TimelineVariant) (i : nat) (p : Q) :
  nth_error (Encoder.progressOf
               (fst (Encoder.run (Encoder.encodeVideoWithOverlay env sections
                                    duration variant true)))) i = Some p ->
  (Z.of_nat i < Encoder.totalFramesOf duration)%Z
  /\ p = (Z.of_nat i + 1)%Z / Encoder.totalFramesOf duration.
Proof.
  destruct (Expected.reachesLoop env) eqn:R.
  - rewrite (progressOf_run env sections duration variant R), nth_error_map.
    destruct (nth_error (Expected.frameIndices (Encoder.totalFramesOf duration)) i)
      as [k |] eqn:K; [| discriminate].
    assert (Hlt : (i < Z.to_nat (Encoder.totalFramesOf duration))%nat).
    { rewrite <- frameIndices_length. apply nth_error_Some. congruence. }
    rewrite (frameIndices_nth _ _ Hlt) in K. injection K as <-.
    intro H. injection H as <-. split; [lia | reflexivity].
  - destruct (quiet_before_loop env sections duration variant true R)
      as (_ & -> & _).
    destruct i; discriminate.
Qed.

Lemma percent_of_fraction (i n : Z) :
  (0 <= i < n)%Z -> (0 <= JS.floor ((i + 1)%Z / n * 100) <= 100)%Z.
Proof.
  intro H. apply percent_in_range.
  assert (Hn : 0 < inject_Z n).
  { change 0 with (inject_Z 0). rewrite <- Zlt_Qlt. lia. }
  assert (Hi : 0 <= inject_Z (i + 1) <= inject_Z n).
  { split; [change 0 with (inject_Z 0) |]; rewrite <- Zle_Qle; lia. }
  split.
  - apply Qle_shift_div_l; [exact Hn | lra].
  - apply Qle_shift_div_r; [exact Hn | lra].
Qed.

Lemma shown_app (a b : list Page.Event) :
  Page.shown (a ++ b) = Page.shown a ++ Page.shown b.
Proof. apply flat_map_app. Qed.

Lemma shown_onProgress (reports : list Q) :
  Page.shown (map Page.onProgress reports)
  = map (fun p => JS.floor (p * 100)) reports.
Proof.
  induction reports as [| p rest IH]; [reflexivity |].
  cbn [map Page.shown flat_map Page.onProgress app].
  f_equal. exact IH.
Qed.

(** X25.  The percentages [handleDownload] shows are 0, then
    [floor(p * 100)] for every value [p] the encoder reports, then 0 again;
    each lies between 0 and 100; those shown during the run never decrease;
    and in a run that reaches the frame loop of a video of positive duration
    the last one shown before the reset is 100. *)
Theorem shown_percentages (result : Uploader.AnalysisResult)
    (env : Encoder.Env) (variant : Encoder.TimelineVariant) :
  let reports :=
    Encoder.progressOf
      (fst (Encoder.run (Encoder.encodeVideoWithOverlay env
                           (Uploader.sections result)
                           (Uploader.videoDuration result) variant true))) in
  let during := map (fun p => JS.floor (p * 100)) reports in
  Page.shown (Page.handleDownload (Some result) env variant)
  = [0%Z] ++ during ++ [0%Z]
  /\ (forall v, In v (Page.shown (Page.handleDownload (Some result) env variant)) ->
        (0 <= v <= 100)%Z)
  /\ (forall i j a b, (i <= j)%nat ->
        nth_error during i = Some a -> nth_error during j = Some b ->
        (a <= b)%Z)
  /\ (Expected.reachesLoop env = true -> 0 < Uploader.videoDuration result ->
      nth_error during
        (Z.to_nat (Encoder.totalFramesOf (Uploader.videoDuration result)) - 1)
      = Some 100%Z).
Proof.
  intros reports during.
  set (n := Encoder.totalFramesOf (Uploader.videoDuration result)).
  assert (Hshown : Page.shown (Page.handleDownload (Some result) env variant)
                   = [0%Z] ++ during ++ [0%Z]).
  { unfold Page.handleDownload. rewrite !shown_app, shown_onProgress.
    fold reports. fold during.
    destruct (snd (Encoder.run _)); reflexivity. }
  assert (Hduring : forall i a, nth_error during i = Some a ->
            (Z.of_nat i < n)%Z
            /\ a = JS.floor ((Z.of_nat i + 1)%Z / n * 100)).
  { intros i a Ha. unfold during in Ha. rewrite nth_error_map in Ha.
    destruct (nth_error reports i) as [p |] eqn:P; [| discriminate].
    injection Ha as <-.
    destruct (progressOf_fractions _ _ _ _ _ _ P) as [Hlt ->].
    split; [exact Hlt | reflexivity]. }
  split; [exact Hshown |].
  split.
  { intros v Hv. rewrite Hshown in Hv.
    apply in_app_iff in Hv. destruct Hv as [[<- | []] | Hv]; [lia |].
    apply in_app_iff in Hv. destruct Hv as [Hv | [<- | []]]; [| lia].
    apply In_nth_error in Hv. destruct Hv as [i Hi].
    destruct (Hduring i v Hi) as [Hlt ->].
    apply percent_of_fraction. lia. }
  split.
  { intros i j a b Hij Ha Hb.
    destruct (Hduring i a Ha) as [Hi ->]. destruct (Hduring j b Hb) as [Hj ->].
    unfold JS.floor. apply Qfloor_resp_le.
    assert (M : (Z.of_nat i + 1)%Z / n <= (Z.of_nat j + 1)%Z / n)
      by (apply report_mono; lia).
    lra. }
  intros R Hd. pose proof (totalFrames_positive _ Hd) as Hn. fold n in Hn.
  unfold during, reports.
  rewrite (progressOf_run env _ _ variant R), !nth_error_map. fold n.
  rewrite frameIndices_nth by lia. cbn [option_map].
  replace (Z.of_nat (Z.to_nat n - 1) + 1)%Z with n by lia.
  f_equal. unfold JS.floor.
  assert (E : inject_Z n / inject_Z n * 100 == inject_Z 100)
    by (rewrite (report_final n Hn); reflexivity).
  rewrite (Qfloor_comp _ _ E). apply Qfloor_Z.
Qed.

(** ** The measured pills of [drawTimelineOverlay] *)

(** X27.  On a canvas of width at least 0, for an eased transition value and
    a section progress between 0 and 1, the pill [drawTimelineOverlay]
    measures for a section has a font size, a height and a horizontal
    padding between their inactive and their active values; its text is set
    in weight 600 exactly when its animation state is above one half and in
    weight 400 otherwise; its shadow is at most a quarter opaque; and the
    channels of its background lie between the inactive grey and the
    peach-to-orange of the active pill, those of its text between grey and
    white. *)
Theorem measured_pill_bounds (measureText : TextMeasure) (S : Q)
    (transition : Transition.State) (easedT sectionProgress : Q)
    (section : Section) (index : Z) :
  0 <= S -> 0 <= easedT <= 1 -> 0 <= sectionProgress <= 1 ->
  let pill := Dots.measurePill measureText S transition easedT sectionProgress
                section index in
  let t := pillT transition easedT index in
  JS.round (13 * S) <= Dots.fontSize pill <= JS.round (15 * S)
  /\ JS.round (30 * S) <= Dots.height pill <= JS.round (38 * S)
  /\ JS.round (16 * S) * 2
     <= Dots.width pill
        - measureText (Dots.fontWeight pill) (Dots.fontSize pill) (name section)
     <= JS.round (28 * S) * 2
  /\ Dots.fontWeight pill = (if JS.ltb (1 # 2) t then 600 else 400)%Z
  /\ 0 <= Dots.shadowAlpha pill <= 1 # 4
  /\ (let '(r, g, b) := Dots.bgColor pill in
      (228 <= r <= 253)%Z /\ (115 <= g <= 228)%Z /\ (22 <= b <= 231)%Z)
  /\ (let '(r, g, b) := Dots.textColor pill in
      (161 <= r <= 255)%Z /\ (161 <= g <= 255)%Z /\ (170 <= b <= 255)%Z).
Proof.
  intros HS Heased Hprogress pill t.
  pose proof (pillT_unit transition easedT index Heased) as Ht. fold t in Ht.
  assert (Hsize : forall a b : Q, a <= b ->
            inject_Z (JS.round (a * S)) <= inject_Z (JS.round (b * S))).
  { intros a b Hab. rewrite <- Zle_Qle. apply round_mono. nra. }
  unfold pill, Dots.measurePill. fold t.
  cbn [Dots.fontSize Dots.height Dots.width Dots.fontWeight Dots.shadowAlpha
       Dots.bgColor Dots.textColor].
  split; [apply lerp_between; [exact Ht | apply Hsize; lra] |].
  split; [apply lerp_between; [exact Ht | apply Hsize; lra] |].
  split.
  { pose proof (lerp_between (JS.round (16 * S)) (JS.round (28 * S)) t Ht
                  (Hsize 16 28 ltac:(lra))) as [L U].
    split; lra. }
  split; [reflexivity |].
  split; [destruct Ht; split; lra |].
  pose proof (channel_between 253 249 sectionProgress Hprogress) as Hr.
  pose proof (channel_between 186 115 sectionProgress Hprogress) as Hg.
  pose proof (channel_between 140 22 sectionProgress Hprogress) as Hb.
  change (inject_Z 253) with 253 in Hr. change (inject_Z 249) with 249 in Hr.
  change (inject_Z 186) with 186 in Hg. change (inject_Z 115) with 115 in Hg.
  change (inject_Z 140) with 140 in Hb. change (inject_Z 22) with 22 in Hb.
  split.
  - destruct (JS.ltb (1 # 100) t); [| lia].
    unfold lerpColor.
    pose proof (channel_between 228 (JS.round (lerp 253 249 sectionProgress)) t Ht)
      as Cr.
    pose proof (channel_between 228 (JS.round (lerp 186 115 sectionProgress)) t Ht)
      as Cg.
    pose proof (channel_between 231 (JS.round (lerp 140 22 sectionProgress)) t Ht)
      as Cb.
    change (inject_Z 228) with 228 in Cr, Cg.
    change (inject_Z 231) with 231 in Cb.
    lia.
  - destruct (JS.ltb (1 # 100) t); [| lia].
    unfold lerpColor.
    pose proof (channel_between 161 255 t Ht) as Cr.
    pose proof (channel_between 170 255 t Ht) as Cb.
    change (inject_Z 161) with 161 in Cr. change (inject_Z 255) with 255 in Cr, Cb.
    change (inject_Z 170) with 170 in Cb.
    lia.
Qed.

(** * The further properties at sample inputs *)

Lemma sample_sections_gapless : gapless Sample.sections.
Proof. simpl. split; [reflexivity | exact I]. Defined.

(** Past the end of the last sample section a section is still active. *)
Lemma gapless_always_active_witness :
  Sample.sections <> [] /\ gapless Sample.sections
  /\ (0 <= findActiveSection Sample.sections 45 < JS.length Sample.sections)%Z.
Proof.
  split; [exact sample_sections_nonempty |].
  split; [exact sample_sections_gapless |].
  apply (gapless_always_active Sample.sections 45 sample_sections_nonempty
           sample_sections_gapless).
  intros first E. injection E as <-. intro C. discriminate C.
Defined.

(** The index at 5 seconds is not behind the index at 15 seconds. *)
Lemma active_index_monotone_witness :
  ordered Sample.sections /\ non_overlapping Sample.sections /\ 5 <= 15
  /\ (findActiveSection Sample.sections 5
      <= findActiveSection Sample.sections 15)%Z.
Proof.
  assert (Ht : 5 <= 15) by (intro C; discriminate C).
  split; [exact sample_sections_ordered |].
  split; [exact sample_sections_apart |]. split; [exact Ht |].
  apply (active_index_monotone Sample.sections 5 15 sample_sections_ordered
           sample_sections_apart Ht); vm_compute; intro C; discriminate C.
Defined.

(** Half-way through the window the eased value is ahead of one half. *)
Lemma easeOut_unit_interval_witness :
  0 <= 1 # 2 <= 1 /\ 1 # 2 <= easeOut (1 # 2) <= 1.
Proof.
  assert (H : 0 <= 1 # 2 <= 1) by (split; intro C; discriminate C).
  exact (conj H (proj1 (easeOut_unit_interval (1 # 2) H))).
Defined.

(** The fully active pill has the colour of the section's progress. *)
Lemma lerpColor_between_witness :
  0 <= 1 # 2 <= 1 /\ lerpColor 228%Z 228%Z 231%Z 249%Z 115%Z 22%Z 1
                     = (249, 115, 22)%Z.
Proof.
  assert (H : 0 <= 1 # 2 <= 1) by (split; intro C; discriminate C).
  exact (conj H (proj2 (proj2 (lerpColor_between 228 228 231 249 115 22
                                 (1 # 2) H)))).
Defined.

(** The overlay of the first frame of a run of a tenth of a second. *)
Lemma renderer_calls_sound_witness :
  exists transition,
    In (Encoder.DrawOverlay Encoder.dots (0%Z / 30) transition)
       (fst (Encoder.run (Encoder.encodeVideoWithOverlay Sample.env
                            Sample.sections (1 # 10) Encoder.dots true)))
    /\ sound (JS.length Sample.sections) transition.
Proof.
  assert (H : exists transition,
            In (Encoder.DrawOverlay Encoder.dots (0%Z / 30) transition)
               (fst (Encoder.run (Encoder.encodeVideoWithOverlay Sample.env
                                    Sample.sections (1 # 10) Encoder.dots true)))).
  { eexists. vm_compute. repeat (first [left; reflexivity | right]). }
  destruct H as [transition H]. exists transition. split; [exact H |].
  exact (proj2 (proj2 (proj2 (renderer_calls_sound Sample.env Sample.sections
                                (1 # 10) Encoder.dots true Encoder.dots
                                (0%Z / 30) transition H)))).
Defined.

(** Half-way through the change from pill 0 to pill 1. *)
Lemma pill_weights_witness :
  sound 2 (Transition.mkState 1 0 (1 # 2))
  /\ pillT (Transition.mkState 1 0 (1 # 2)) (easeOut (1 # 2)) 5 = 0.
Proof.
  assert (H : sound 2 (Transition.mkState 1 0 (1 # 2))).
  { unfold sound. simpl.
    split; [split; intro C; discriminate C |].
    split; [lia |]. split; [lia |]. right. intro C. discriminate C. }
  split; [exact H |].
  apply (proj1 (proj2 (pill_weights 2 (Transition.mkState 1 0 (1 # 2)) H)) 5%Z);
    intro C; discriminate C.
Defined.

(** Two pills for the two sample sections. *)
Lemma pills_row_centred_witness :
  exists o,
    Dots.drawTimelineOverlay Sample.measureText Sample.sections 10 40 1280 720
      (Transition.mkState 1 (-1) 1) = Returned (Some o)
    /\ List.length (Dots.pills o) = List.length Sample.sections.
Proof.
  eexists. split; [reflexivity |].
  exact (proj1 (pills_row_centred Sample.measureText Sample.sections 10 40
                  1280 720 (Transition.mkState 1 (-1) 1) _ eq_refl)).
Defined.

(** The badge of the sample video at 10 seconds. *)
Lemma badge_within_pills_witness :
  positive_length Sample.sections
  /\ exists o,
       Dots.drawTimelineOverlay Sample.measureText Sample.sections 10 40 1280 720
         (Transition.mkState (findActiveSection Sample.sections 10) (-1) 1)
       = Returned (Some o)
       /\ exists firstPill,
            member (Dots.pills o) 0 = Returned firstPill
            /\ Dots.centerX firstPill <= Dots.badgeX o.
Proof.
  split; [exact sample_sections_positive |].
  eexists. split; [reflexivity |].
  destruct (badge_within_pills Sample.measureText Sample.sections 10 40 1280 720
              (Transition.mkState (findActiveSection Sample.sections 10) (-1) 1)
              _ sample_sections_positive eq_refl eq_refl)
    as (firstPill & lastPill & row & Hfirst & _ & _ & _ & Hbadge & _).
  exists firstPill. split; [exact Hfirst | exact (proj1 Hbadge)].
Defined.

(** Preview and encoder at 10 seconds into the sample video. *)
Lemma preview_matches_encoder_witness :
  positive_length Sample.sections
  /\ exists o firstPill lastPill,
       Dots.drawTimelineOverlay Sample.measureText Sample.sections 10 40 1280 720
         (Transition.mkState (findActiveSection Sample.sections 10) (-1) 1)
       = Returned (Some o)
       /\ member (Dots.pills o) 0 = Returned firstPill
       /\ member (Dots.pills o) (JS.length Sample.sections - 1)
          = Returned lastPill
       /\ exists shown,
            Preview.tick Sample.sections 40 10
              (Preview.measurePills 620 (Dots.centerX firstPill)
                 (Dots.centerX lastPill))
            = Returned shown
            /\ Preview.pixelLeft shown = Dots.badgeX o.
Proof.
  split; [exact sample_sections_positive |].
  do 3 eexists. split; [reflexivity |]. split; [reflexivity |].
  split; [reflexivity |].
  destruct (preview_matches_encoder Sample.measureText Sample.sections 10 40
              1280 720 620
              (Transition.mkState (findActiveSection Sample.sections 10) (-1) 1)
              _ _ _ sample_sections_positive eq_refl eq_refl eq_refl eq_refl)
    as (shown & Htick & _ & _ & _ & Hleft).
  exists shown. split; [exact Htick | exact Hleft].
Defined.

(** The playhead of the preview at 10 seconds into the sample video. *)
Lemma preview_playhead_in_row_witness :
  0 <= 100
  /\ exists shown,
       Preview.tick Sample.sections 40 10 (Preview.measurePills 620 100 400)
       = Returned shown
       /\ 0 <= Preview.pct shown <= 1
       /\ 0 <= Preview.playheadPct shown <= 100.
Proof.
  assert (H0 : 0 <= 100) by (intro C; discriminate C).
  split; [exact H0 |]. eexists. split; [reflexivity |].
  assert (Hpct : 0 <= Preview.pct
                        (Preview.mkTick
                           (findActiveSection Sample.sections 10)
                           ((findActiveSection Sample.sections 10
                             + sectionProg (section "Features" 10 40) 10)
                            / JS.length Sample.sections)
                           0 0 0) <= 1)
    by (vm_compute; split; intro C; discriminate C).
  split; [exact Hpct |].
  exact (proj2 (proj2 (proj2 (preview_playhead_in_row Sample.sections 40 10 620
                                100 400 _ H0 eq_refl Hpct)))).
Defined.

(** A canvas of full width and a video of 40 seconds. *)
Lemma countDots_as_preview_witness :
  ~ 1 == 0 /\ DotRow.countDots 1 40 = Some (Preview.totalDots 40).
Proof.
  assert (H : ~ 1 == 0) by (intro C; discriminate C).
  exact (conj H (proj1 (countDots_as_preview 1 40 H))).
Defined.

(** The dot five pixels left of the playhead. *)
Lemma bridge_reaches_playhead_witness :
  exists bridge,
    DotRow.bridgeAt 0 10 15 3 7 1 = Some bridge
    /\ DotRow.x1 bridge <= DotRow.x2 bridge.
Proof.
  eexists. split; [reflexivity |].
  exact (proj1 (proj2 (bridge_reaches_playhead 0 10 15 3 7 1 _ eq_refl))).
Defined.


(** Two coloured pills for the two sample sections. *)
Lemma coloured_pills_centred_witness :
  exists o,
    Pills.drawColoredPillsOverlay Sample.measureText Sample.sections 10 40
      1280 720 (Transition.mkState 1 (-1) 1) = Returned (Some o)
    /\ List.length (Pills.pills o) = List.length Sample.sections.
Proof.
  eexists. split; [reflexivity |].
  exact (proj1 (proj2 (coloured_pills_centred Sample.measureText Sample.sections
                         10 40 1280 720 (Transition.mkState 1 (-1) 1) _
                         eq_refl))).
Defined.

(** The first pill while the second section is active: past, not active. *)
Lemma settled_pill_as_preview_witness :
  Transition.leavingIdx (Transition.mkState 1 (-1) 1) = (-1)%Z
  /\ (0 <= 0)%Z
  /\ Pills.sectionDuration Sample.pill
     = endTime (section "Intro" 0 10) - startTime (section "Intro" 0 10)
  /\ Pills.isPast (Pills.paintPill (Transition.mkState 1 (-1) 1) 1 52
                     Sample.pill 0)
     = Preview.isPast (Preview.pillLook 1 (section "Intro" 0 10) 0).
Proof.
  split; [reflexivity |]. split; [lia |]. split; [reflexivity |].
  exact (proj1 (proj2 (settled_pill_as_preview (Transition.mkState 1 (-1) 1) 1 52
                         Sample.pill (section "Intro" 0 10) 0 eq_refl
                         ltac:(lia) eq_refl))).
Defined.

(** The first pill half-way through a transition. *)
Lemma painted_pill_bounds_witness :
  0 <= 1 # 2 <= 1 /\ (0 <= Pills.width Sample.pill)%Z
  /\ In (Pills.color Sample.pill) Pills.PILL_COLORS_CANVAS
  /\ 0 <= Pills.t (Pills.paintPill (Transition.mkState 1 0 (1 # 2)) (1 # 2) 52
                     Sample.pill 0) <= 1.
Proof.
  assert (He : 0 <= 1 # 2 <= 1) by (split; intro C; discriminate C).
  assert (Hw : (0 <= Pills.width Sample.pill)%Z) by (simpl; lia).
  assert (Hc : In (Pills.color Sample.pill) Pills.PILL_COLORS_CANVAS)
    by (left; reflexivity).
  split; [exact He |]. split; [exact Hw |]. split; [exact Hc |].
  exact (proj1 (painted_pill_bounds (Transition.mkState 1 0 (1 # 2)) (1 # 2) 52
                  Sample.pill 0 He Hw Hc)).
Defined.


(** A request of an unknown content type is turned down with 400, and the
    model is not asked. *)
Lemma POST_error_statuses_witness :
  Analyze.POST Sample.server Sample.plainText
  = ([], Analyze.ErrorResponse 400 "Invalid content type")
  /\ Analyze.apiKey Sample.server = true
  /\ forall mimeType : string, ~ In (Analyze.GenerateContent mimeType) [].
Proof.
  split; [reflexivity |].
  destruct (proj1 (proj2 (POST_error_statuses Sample.server Sample.plainText []
                            400 "Invalid content type" eq_refl)) eq_refl)
    as (Hkey & _ & Hcalls & _).
  split; [exact Hkey | exact Hcalls].
Defined.

(** The default sections of a video of 90 seconds. *)
Lemma fallback_sections_cover_witness :
  0 < 90 /\ positive_length (Analyze.fallbackSections 90).
Proof.
  assert (H : 0 < 90) by reflexivity.
  exact (conj H (proj1 (fallback_sections_cover Sample.server "video/mp4" "x"
                          [] 90 H))).
Defined.

(** The sample file of 40 seconds is analysed and stored. *)
Lemma stored_upload_checked_witness :
  exists result,
    Uploader.stored (Uploader.handleFileUpload Sample.server Sample.file
                       "blob:preview" (Some 40))
    = Some result
    /\ Uploader.videoUrl result = "blob:preview"%string.
Proof.
  eexists. split; [reflexivity |].
  exact (proj1 (proj2 (proj2 (proj2
           (stored_upload_checked Sample.server Sample.file "blob:preview"
              (Some 40) _ eq_refl))))).
Defined.

(** The model cannot be reached for the sample file: the answer is 500. *)
Lemma validated_upload_not_rejected_witness :
  Analyze.apiKey Sample.failing = true
  /\ Uploader.validateVideoDuration (Some 40) = Returned 40
  /\ exists calls status msg,
       Analyze.POST Sample.failing (Uploader.formRequest Sample.file 40)
       = (calls, Analyze.ErrorResponse status msg)
       /\ status <> 400%Z.
Proof.
  split; [reflexivity |]. split; [reflexivity |].
  do 3 eexists. split; [reflexivity |].
  exact (proj1 (validated_upload_not_rejected Sample.failing Sample.file
                  (Some 40) 40 eq_refl eq_refl _ _ _ eq_refl)).
Defined.

(** The active pill half-way through its section, on a full canvas. *)
Lemma measured_pill_bounds_witness :
  0 <= 1 /\ 0 <= 1 # 2 <= 1 /\ 0 <= 1 # 4 <= 1
  /\ 0 <= Dots.shadowAlpha
            (Dots.measurePill Sample.measureText 1
               (Transition.mkState 1 0 (1 # 2)) (1 # 2) (1 # 4)
               (section "Features" 10 40) 1) <= 1 # 4.
Proof.
  assert (HS : 0 <= 1) by (intro C; discriminate C).
  assert (He : 0 <= 1 # 2 <= 1) by (split; intro C; discriminate C).
  assert (Hp : 0 <= 1 # 4 <= 1) by (split; intro C; discriminate C).
  split; [exact HS |]. split; [exact He |]. split; [exact Hp |].
  exact (proj1 (proj2 (proj2 (proj2 (proj2
           (measured_pill_bounds Sample.measureText 1
              (Transition.mkState 1 0 (1 # 2)) (1 # 2) (1 # 4)
              (section "Features" 10 40) 1 HS He Hp)))))).
Defined.
